(** * SQL auto-deployment tool: statement splitter and multi-target executor

    A shallow embedding of [app/database/query_executor.py] (class
    [QueryExecutor]) together with the properties of its statement splitter
    and of its per-target execution loop, and of the code around it: the
    table of a result set, the query history, the safe file names and the
    part of the controller that runs a query.

    Modelling conventions.
    - A Python [str] is a [list ascii]; every [ascii] stands for the code
      point of the same number, so the texts covered are those over the
      code points 0..255.  The character predicates below ([isspace],
      [isalnum], the regular-expression classes) are the tables CPython
      uses on that range.
    - A Python exception is a value [Raise e] of the [result] type; a
      [while] loop is a function with an explicit iteration budget, and
      exhausting the budget is the distinguished outcome [Raise Diverges].
    - Regular expressions are syntax trees of type [Re.re] interpreted by a
      backtracking matcher that enumerates the matches in the priority
      order of CPython's engine (greedy: longest first, lazy: shortest
      first, alternatives left to right). *)

From Stdlib Require Import Ascii String DecimalString ZArith NArith Arith Bool Lia List.
Import ListNotations.

(** ** Outcomes of fallible code *)

Inductive pyexn : Type :=
| IndexError
| ValueError (msg : string)
| DatabaseError (msg : string)   (* pyodbc.DatabaseError and its subclasses *)
| OtherError (msg : string)      (* any other subclass of Exception *)
| Diverges.                      (* iteration budget exhausted *)

Inductive result (A : Type) : Type :=
| Ok (a : A)
| Raise (e : pyexn).

Arguments Ok {A} a.
Arguments Raise {A} e.

Definition bind {A B} (m : result A) (f : A -> result B) : result B :=
  match m with
  | Ok a => f a
  | Raise e => Raise e
  end.

Notation "x <- m ;; k" := (bind m (fun x => k))
  (at level 61, m at next level, right associativity).

(** ** Python strings *)

Module PyStr.

(** A Python [str]. *)
Abbreviation str := (list ascii).

Definition s2l (s : string) : str := list_ascii_of_string s.
Definition l2s (l : str) : string := string_of_list_ascii l.

Definition code (c : ascii) : N := N_of_ascii c.

Definition between (lo hi : N) (c : ascii) : bool :=
  (lo <=? code c)%N && (code c <=? hi)%N.

(** [str.isspace] on one character, which is also the class [\s]. *)
Definition isspace (c : ascii) : bool :=
  between 9 13 c || between 28 32 c || (code c =? 133)%N || (code c =? 160)%N.

(** [str.isalnum] on one character. *)
Definition isalnum (c : ascii) : bool :=
  between 48 57 c || between 65 90 c || between 97 122 c
  || (code c =? 170)%N || between 178 179 c || (code c =? 181)%N
  || between 185 186 c || between 188 190 c
  || between 192 214 c || between 216 246 c || between 248 255 c.

(** The class [\w]: alphanumeric or underscore. *)
Definition isword (c : ascii) : bool := isalnum c || (code c =? 95)%N.

(** [str.upper] on one character.  The three characters of the range whose
    upper case is not a single character of the range (181, 223, 255) are
    left unchanged: their images contain none of the letters the program
    compares against (B, E, G, I, N, D, C, R, A, T), so every comparison
    the program makes on an upper-cased text has the same outcome. *)
Definition upper_char (c : ascii) : ascii :=
  if between 97 122 c || between 224 246 c || between 248 254 c
  then ascii_of_N (code c - 32) else c.

Definition upper (s : str) : str := map upper_char s.

Fixpoint eqb (a b : str) : bool :=
  match a, b with
  | [], [] => true
  | x :: a', y :: b' => Ascii.eqb x y && eqb a' b'
  | _, _ => false
  end.

Definition nonempty (s : str) : bool :=
  match s with [] => false | _ :: _ => true end.

Fixpoint lstrip (s : str) : str :=
  match s with
  | c :: s' => if isspace c then lstrip s' else s
  | [] => []
  end.

Definition rstrip (s : str) : str := rev (lstrip (rev s)).

Definition strip (s : str) : str := rstrip (lstrip s).

Fixpoint startswith (p s : str) : bool :=
  match p, s with
  | [], _ => true
  | x :: p', y :: s' => Ascii.eqb x y && startswith p' s'
  | _ :: _, [] => false
  end.

(** [s.find(sub)]: index of the first occurrence, [None] for -1. *)
Fixpoint find (sub s : str) : option nat :=
  if startswith sub s then Some 0
  else match s with
       | [] => None
       | _ :: s' => option_map S (find sub s')
       end.

(** [s[lo:hi]] for non-negative bounds. *)
Definition slice (s : str) (lo hi : nat) : str := firstn (hi - lo) (skipn lo s).

(** [s[i]] for a non-negative index. *)
Definition getitem (s : str) (i : nat) : result ascii :=
  match nth_error s i with
  | Some c => Ok c
  | None => Raise IndexError
  end.

(** [s.split(sep)] for a one-character separator. *)
Fixpoint split_chr (sep : ascii) (s : str) : list str :=
  match s with
  | [] => [[]]
  | c :: s' =>
      if Ascii.eqb c sep then [] :: split_chr sep s'
      else match split_chr sep s' with
           | l :: ls => (c :: l) :: ls
           | [] => [[c]]
           end
  end.

(** [sep.join(parts)]. *)
Fixpoint join (sep : str) (parts : list str) : str :=
  match parts with
  | [] => []
  | [p] => p
  | p :: ps => p ++ sep ++ join sep ps
  end.

Definition nl : ascii := ascii_of_N 10.

(** The double-quote character. *)
Definition dquote : ascii := ascii_of_N 34.

End PyStr.

Import PyStr.

(** ** Regular expressions *)

Module Re.

(** The fragment of the [re] syntax the program uses.  Repetition is only
    ever applied to a single character class in the source patterns. *)
Inductive re : Type :=
| Eps
| Chr (p : ascii -> bool)        (* one character of a class *)
| Seq (r1 r2 : re)
| Alt (r1 r2 : re)
| Star (p : ascii -> bool)       (* [p*], greedy *)
| Plus (p : ascii -> bool)       (* [p+], greedy *)
| StarLazy (p : ascii -> bool)   (* [p*?] *)
| Bol                            (* [^] under MULTILINE *)
| Eol                            (* [$] under MULTILINE *)
| WordB.                         (* [\b] *)

(** A position in the subject: the text before it, reversed, and the text
    after it. *)
Definition pos : Type := (str * str)%type.

Definition index (p : pos) : nat := List.length (fst p).

Fixpoint star_greedy (p : ascii -> bool) (b a : str) : list pos :=
  match a with
  | c :: a' => if p c then star_greedy p (c :: b) a' ++ [(b, a)] else [(b, a)]
  | [] => [(b, a)]
  end.

Fixpoint star_lazy (p : ascii -> bool) (b a : str) : list pos :=
  (b, a) :: match a with
            | c :: a' => if p c then star_lazy p (c :: b) a' else []
            | [] => []
            end.

Definition at_bol (b : str) : bool :=
  match b with [] => true | c :: _ => Ascii.eqb c nl end.

Definition at_eol (a : str) : bool :=
  match a with [] => true | c :: _ => Ascii.eqb c nl end.

Definition word_side (s : str) : bool :=
  match s with [] => false | c :: _ => isword c end.

Definition at_wordb (b a : str) : bool := xorb (word_side b) (word_side a).

(** [matches r (b, a)]: the positions at which a match of [r] starting at
    [(b, a)] can end, in the order the backtracking engine tries them. *)
Fixpoint matches (r : re) (st : pos) : list pos :=
  let '(b, a) := st in
  match r with
  | Eps => [st]
  | Chr p => match a with
             | c :: a' => if p c then [(c :: b, a')] else []
             | [] => []
             end
  | Seq r1 r2 => flat_map (matches r2) (matches r1 st)
  | Alt r1 r2 => matches r1 st ++ matches r2 st
  | Star p => star_greedy p b a
  | Plus p => match a with
              | c :: a' => if p c then star_greedy p (c :: b) a' else []
              | [] => []
              end
  | StarLazy p => star_lazy p b a
  | Bol => if at_bol b then [st] else []
  | Eol => if at_eol a then [st] else []
  | WordB => if at_wordb b a then [st] else []
  end.

(** The match the engine reports at a given start position. *)
Definition match_at (r : re) (st : pos) : option pos := hd_error (matches r st).

(** [re.search]: the leftmost start position that has a match, with the
    end position of the first match found there. *)
Fixpoint search_from (r : re) (b a : str) : option (pos * pos) :=
  match match_at r (b, a) with
  | Some e => Some ((b, a), e)
  | None => match a with
            | c :: a' => search_from r (c :: b) a'
            | [] => None
            end
  end.

Definition search (r : re) (s : str) : option (pos * pos) := search_from r [] s.

Definition found (r : re) (s : str) : bool :=
  match search r s with Some _ => true | None => false end.

(** Successive non-overlapping matches, as [re.split] and [re.sub] use
    them.  [skip] counts the characters of the current match still to be
    passed over; [piece] is the text since the end of the previous match,
    reversed.  [split_from] returns the pieces between the matches.  (A
    match of the empty string is followed by a step of one character; none
    of the patterns the program splits or substitutes with can match the
    empty string.) *)
Fixpoint split_from (r : re) (skip : nat) (piece b a : str) : list str :=
  match skip with
  | S k => match a with
           | c :: a' => split_from r k piece (c :: b) a'
           | [] => [rev piece]
           end
  | O => match match_at r (b, a) with
         | Some e =>
             rev piece ::
             match a with
             | c :: a' =>
                 match index e - List.length b with
                 | O => split_from r 0 [c] (c :: b) a'
                 | S k => split_from r k [] (c :: b) a'
                 end
             | [] => [[]]
             end
         | None => match a with
                   | c :: a' => split_from r 0 (c :: piece) (c :: b) a'
                   | [] => [rev piece]
                   end
         end
  end.

(** [re.split(r, s)] for a pattern without groups. *)
Definition split (r : re) (s : str) : list str := split_from r 0 [] [] s.

(** [re.sub(r, '', s)]. *)
Definition remove (r : re) (s : str) : str := concat (split r s).

(** Pattern construction. *)

Definition swapcase (c : ascii) : ascii :=
  if between 65 90 c then ascii_of_N (code c + 32)
  else if between 97 122 c then ascii_of_N (code c - 32)
  else c.

(** A literal character under IGNORECASE. *)
Definition ci (c : ascii) : ascii -> bool :=
  fun x => Ascii.eqb x c || Ascii.eqb x (swapcase c).

Definition is_chr (c : ascii) : ascii -> bool := fun x => Ascii.eqb x c.
Definition not_chr (c : ascii) : ascii -> bool := fun x => negb (Ascii.eqb x c).
Definition any : ascii -> bool := fun _ => true.   (* [.] under DOTALL *)

Fixpoint seqs (rs : list re) : re :=
  match rs with
  | [] => Eps
  | [r] => r
  | r :: rs' => Seq r (seqs rs')
  end.

(** A literal word under IGNORECASE. *)
Definition word (w : string) : re := seqs (map (fun c => Chr (ci c)) (s2l w)).

Fixpoint alts (rs : list re) : re :=
  match rs with
  | [] => Eps
  | [r] => r
  | r :: rs' => Alt r (alts rs')
  end.

End Re.

Import Re.

(** ** The statement splitter: [QueryExecutor._split_sql_statements] *)

Module Splitter.

(** The class [\s]. *)
Abbreviation ws := isspace.

(** [r'^\s*GO\s*$'] with MULTILINE and IGNORECASE. *)
Definition go_re : re :=
  seqs [Bol; Star ws; word "GO"; Star ws; Eol].

(** [r'(IF\s+OBJECT_ID\s*\([^)]+\)\s+IS\s+NOT\s+NULL\s+DROP\s+PROCEDURE\s+[^;]+;)']
    with DOTALL and IGNORECASE. *)
Definition if_drop_re : re :=
  seqs [word "IF"; Plus ws; word "OBJECT_ID"; Star ws; Chr (is_chr "(");
        Plus (not_chr ")"); Chr (is_chr ")"); Plus ws; word "IS"; Plus ws;
        word "NOT"; Plus ws; word "NULL"; Plus ws; word "DROP"; Plus ws;
        word "PROCEDURE"; Plus ws; Plus (not_chr ";"); Chr (is_chr ";")].

(** The one-group pattern [CREATE\s+PROCEDURE\s+.*] with DOTALL and
    IGNORECASE. *)
Definition create_re : re :=
  seqs [word "CREATE"; Plus ws; word "PROCEDURE"; Plus ws; Star any].

(** [r'/\*.*?\*/'] with DOTALL. *)
Definition block_comment_re : re :=
  seqs [Chr (is_chr "/"); Chr (is_chr "*"); StarLazy any;
        Chr (is_chr "*"); Chr (is_chr "/")].

(** [(CREATE|ALTER|DROP)] *)
Definition cad : re := alts [word "CREATE"; word "ALTER"; word "DROP"].

(** The list [complex_patterns], all searched with IGNORECASE and DOTALL. *)
Definition complex_patterns : list re :=
  [ (* r'\b(CREATE|ALTER|DROP)\s+(PROCEDURE|PROC)\s+' *)
    seqs [WordB; cad; Plus ws; alts [word "PROCEDURE"; word "PROC"]; Plus ws];
    (* r'\b(CREATE|ALTER|DROP)\s+(FUNCTION|FUNC)\s+' *)
    seqs [WordB; cad; Plus ws; alts [word "FUNCTION"; word "FUNC"]; Plus ws];
    (* r'\b(CREATE|ALTER|DROP)\s+TRIGGER\s+' *)
    seqs [WordB; cad; Plus ws; word "TRIGGER"; Plus ws];
    (* r'\b(CREATE|ALTER|DROP)\s+VIEW\s+.*?\bAS\b.*?\bSELECT\b' *)
    seqs [WordB; cad; Plus ws; word "VIEW"; Plus ws; StarLazy any;
          WordB; word "AS"; WordB; StarLazy any; WordB; word "SELECT"; WordB];
    (* r'\b(EXEC|EXECUTE)\s+\w+' *)
    seqs [WordB; alts [word "EXEC"; word "EXECUTE"]; Plus ws; Plus isword];
    (* r'\bDECLARE\s+@\w+' *)
    seqs [WordB; word "DECLARE"; Plus ws; Chr (is_chr "@"); Plus isword];
    (* r'\bBEGIN\b.*?\bEND\b' *)
    seqs [WordB; word "BEGIN"; WordB; StarLazy any; WordB; word "END"; WordB] ].

(** [r'\b(CREATE|ALTER|DROP)\s+(PROCEDURE|PROC|FUNCTION|FUNC|TRIGGER)\s+'] *)
Definition routine_re : re :=
  seqs [WordB; cad; Plus ws;
        alts [word "PROCEDURE"; word "PROC"; word "FUNCTION"; word "FUNC";
              word "TRIGGER"];
        Plus ws].

(** [r'\b(EXEC|EXECUTE)\s+\w+'] *)
Definition exec_re : re :=
  seqs [WordB; alts [word "EXEC"; word "EXECUTE"]; Plus ws; Plus isword].

(** [r'\b(CREATE|ALTER)\s+(PROCEDURE|PROC)\s+'] *)
Definition create_alter_proc_re : re :=
  seqs [WordB; alts [word "CREATE"; word "ALTER"]; Plus ws;
        alts [word "PROCEDURE"; word "PROC"]; Plus ws].

(** The loop over [create_lines] (source lines 105-114): comment lines
    before the CREATE line are skipped, the first comment line after it
    ends the loop. *)
Fixpoint clean_create_lines (lines : list str) (found_create : bool)
    (cleaned : list str) : list str :=
  match lines with
  | [] => cleaned
  | line :: rest =>
      let line_stripped := strip line in
      if startswith (s2l "--") line_stripped then
        if found_create then cleaned
        else clean_create_lines rest found_create cleaned
      else
        let found_create :=
          if startswith (s2l "CREATE") (upper line_stripped) then true
          else found_create in
        if found_create || nonempty line_stripped
        then clean_create_lines rest found_create (cleaned ++ [line])
        else clean_create_lines rest found_create cleaned
  end.

(** Source lines 79-118: [Some units] when the function returns there. *)
Definition drop_then_create (query : str) : option (list str) :=
  match search if_drop_re query, search create_re query with
  | Some (s, e), Some _ =>
      let drop_part := strip (firstn (index e - index s) (snd s)) in
      let create_part := strip (snd e) in
      let create_lines := split_chr nl create_part in
      let cleaned := clean_create_lines create_lines false [] in
      match cleaned with
      | _ :: _ => Some [drop_part; strip (join [nl] cleaned)]
      | [] => None
      end
  | _, _ => None
  end.

(** Source lines 123-128, one line. *)
Definition cut_line_comment (line : str) : str :=
  match find (s2l "--") line with
  | Some comment_pos => rstrip (firstn comment_pos line)
  | None => line
  end.

(** Source lines 121-133. *)
Definition strip_comments (query : str) : str :=
  let query := join [nl] (map cut_line_comment (split_chr nl query)) in
  strip (remove block_comment_re query).

(** Source lines 154-161: [Some units] when the loop returns. *)
Fixpoint complex_check (patterns : list re) (query : str) : option (list str) :=
  match patterns with
  | [] => None
  | pattern :: rest =>
      if found pattern query then
        if found routine_re query then Some [query]
        else if found exec_re query then Some [query]
        else complex_check rest query
      else complex_check rest query
  end.

(** The local variables of the character scan (source lines 164-173);
    [bracket_depth] is assigned once and never read, and is left out. *)
Record scan_state : Type := mkScan {
  statements : list str;
  current_statement : str;
  in_string : bool;
  string_char : option ascii;
  in_bracket : bool;
  paren_depth : Z;
  begin_end_depth : Z;
  i : nat
}.

Definition scan_init : scan_state := mkScan [] [] false None false 0 0 0.

(** [char == string_char] *)
Definition is_string_char (char : ascii) (sc : option ascii) : bool :=
  match sc with Some q => Ascii.eqb char q | None => false end.

Definition is_quote (char : ascii) : bool :=
  Ascii.eqb char "'" || Ascii.eqb char dquote.

(** [current_statement += char; i += 1] (source lines 218-219). *)
Definition append_advance (char : ascii) (s : scan_state) : scan_state :=
  mkScan (statements s) (current_statement s ++ [char]) (in_string s)
         (string_char s) (in_bracket s) (paren_depth s) (begin_end_depth s)
         (i s + 1).

(** [i == 0 or not query[i-1].isalnum()] *)
Definition boundary_before (query : str) (i : nat) : result bool :=
  if i =? 0 then Ok true
  else c <- getitem query (i - 1) ;; Ok (negb (isalnum c)).

(** [i+n >= len(query) or not query[i+n].isalnum()] *)
Definition boundary_after (query : str) (i n : nat) : result bool :=
  if length query <=? i + n then Ok true
  else c <- getitem query (i + n) ;; Ok (negb (isalnum c)).

(** [(... before ...) and (... after ...)], the second operand evaluated
    only when the first holds. *)
Definition word_boundary (query : str) (i n : nat) : result bool :=
  b <- boundary_before query i ;;
  if b then boundary_after query i n else Ok false.

(** One iteration of the [while] loop (source lines 175-219). *)
Definition scan_step (query : str) (s : scan_state) : result scan_state :=
  char <- getitem query (i s) ;;
  if is_quote char && negb (in_string s) then
    Ok (append_advance char
          (mkScan (statements s) (current_statement s) true (Some char)
                  (in_bracket s) (paren_depth s) (begin_end_depth s) (i s)))
  else if is_string_char char (string_char s) && in_string s then
    escaped <- (if i s + 1 <? length query
                then nxt <- getitem query (i s + 1) ;;
                     Ok (is_string_char nxt (string_char s))
                else Ok false) ;;
    if escaped then
      Ok (append_advance char
            (mkScan (statements s) (current_statement s ++ [char; char])
                    (in_string s) (string_char s) (in_bracket s)
                    (paren_depth s) (begin_end_depth s) (i s + 1)))
    else
      Ok (append_advance char
            (mkScan (statements s) (current_statement s) false None
                    (in_bracket s) (paren_depth s) (begin_end_depth s) (i s)))
  else if Ascii.eqb char "[" && negb (in_string s) then
    Ok (append_advance char
          (mkScan (statements s) (current_statement s) (in_string s)
                  (string_char s) true (paren_depth s) (begin_end_depth s)
                  (i s)))
  else if Ascii.eqb char "]" && in_bracket s && negb (in_string s) then
    Ok (append_advance char
          (mkScan (statements s) (current_statement s) (in_string s)
                  (string_char s) false (paren_depth s) (begin_end_depth s)
                  (i s)))
  else if negb (in_string s) && negb (in_bracket s) then
    if Ascii.eqb char "(" then
      Ok (append_advance char
            (mkScan (statements s) (current_statement s) (in_string s)
                    (string_char s) (in_bracket s) (paren_depth s + 1)
                    (begin_end_depth s) (i s)))
    else if Ascii.eqb char ")" then
      Ok (append_advance char
            (mkScan (statements s) (current_statement s) (in_string s)
                    (string_char s) (in_bracket s) (paren_depth s - 1)
                    (begin_end_depth s) (i s)))
    else if PyStr.eqb (upper (slice query (i s) (i s + 5))) (s2l "BEGIN") then
      wb <- word_boundary query (i s) 5 ;;
      Ok (append_advance char
            (mkScan (statements s) (current_statement s) (in_string s)
                    (string_char s) (in_bracket s) (paren_depth s)
                    (if wb then begin_end_depth s + 1 else begin_end_depth s)
                    (i s)))
    else if PyStr.eqb (upper (slice query (i s) (i s + 3))) (s2l "END") then
      wb <- word_boundary query (i s) 3 ;;
      Ok (append_advance char
            (mkScan (statements s) (current_statement s) (in_string s)
                    (string_char s) (in_bracket s) (paren_depth s)
                    (if wb then Z.max 0 (begin_end_depth s - 1)
                     else begin_end_depth s)
                    (i s)))
    else if Ascii.eqb char ";" && (paren_depth s =? 0)%Z
            && (begin_end_depth s =? 0)%Z then
      Ok (mkScan (if nonempty (strip (current_statement s))
                  then statements s ++ [strip (current_statement s)]
                  else statements s)
                 [] (in_string s) (string_char s) (in_bracket s)
                 (paren_depth s) (begin_end_depth s) (i s + 1))
    else Ok (append_advance char s)
  else Ok (append_advance char s).

(** [while i < len(query): ...] with an iteration budget. *)
Fixpoint scan_loop (fuel : nat) (query : str) (s : scan_state)
    : result scan_state :=
  if i s <? length query then
    match fuel with
    | O => Raise Diverges
    | S fuel' => s' <- scan_step query s ;; scan_loop fuel' query s'
    end
  else Ok s.

(** Source lines 221-230. *)
Definition scan_finish (s : scan_state) : list str :=
  let statements :=
    if nonempty (strip (current_statement s))
    then statements s ++ [strip (current_statement s)]
    else statements s in
  if (length statements =? 1)
     && match statements with
        | st :: _ => found create_alter_proc_re st
        | [] => false
        end
  then statements
  else filter (fun stmt => nonempty stmt && nonempty (strip stmt)) statements.

(** Source lines 163-230: the character scan of the whole text. *)
Definition char_scan (query : str) : result (list str) :=
  s <- scan_loop (length query) query scan_init ;;
  Ok (scan_finish s).

(** Source lines 61-72. *)
Definition go_batches (query : str) : list str :=
  let batches := Re.split go_re query in
  let statements := filter nonempty (map strip batches) in
  filter (fun stmt => nonempty stmt && nonempty (strip stmt)) statements.

Definition _split_sql_statements (query : str) : result (list str) :=
  let query := strip query in
  if negb (nonempty query) then Ok []
  else if found go_re query then Ok (go_batches query)
  else
    match drop_then_create query with
    | Some units => Ok units
    | None =>
        let query := strip_comments query in
        match complex_check complex_patterns query with
        | Some units => Ok units
        | None => char_scan query
        end
    end.

(** The splitter on [string] texts. *)
Definition split_sql (query : string) : result (list string) :=
  units <- _split_sql_statements (s2l query) ;; Ok (map l2s units).

End Splitter.

Import Splitter.

(** ** Text formatting helpers of the summary table *)

Module Fmt.

Local Open Scope string_scope.

(** [str(n)] for a non-negative integer. *)
Definition str_of_nat (n : nat) : string :=
  DecimalString.NilEmpty.string_of_uint (Nat.to_uint n).

(** [ch * n] *)
Fixpoint repeat_str (ch : string) (n : nat) : string :=
  match n with
  | O => ""
  | S n' => ch ++ repeat_str ch n'
  end.

(** The format spec [:<w]: left-justified in a field of at least [w]
    characters. *)
Definition ljust (w : nat) (s : string) : string :=
  s ++ repeat_str " " (w - String.length s).

(** [s[:n]] *)
Definition prefix_n (n : nat) (s : string) : string := substring 0 n s.

(** The format spec [:,] on a non-negative integer: digits in groups of
    three from the right, separated by commas. *)
Fixpoint group3 (digits_rev : list ascii) : list ascii :=
  match digits_rev with
  | a :: b :: c :: ((_ :: _) as rest) => a :: b :: c :: ","%char :: group3 rest
  | _ => digits_rev
  end.

Definition thousands (n : nat) : string :=
  l2s (rev (group3 (rev (s2l (str_of_nat n))))).

End Fmt.

(** ** The per-target executor and the run loop *)

Module Executor.

Import Fmt.
Local Open Scope string_scope.
Local Open Scope list_scope.

(** *** The driver *)

Definition row : Type := list string.

(** One result of an execution as the cursor exposes it:
    [cursor.description] ([None] when the statement produced no result
    set), the rows [fetchmany] will deliver, and [cursor.rowcount]. *)
Record result_set : Type := mkResultSet {
  description : option (list string);
  rows : list row;
  rowcount : Z
}.

(** An exception raised by a call into the driver: whether it is an
    instance of [pyodbc.DatabaseError], and its text [str(e)]. *)
Record raised : Type := mkRaised {
  is_database_error : bool;
  text : string
}.

Definition to_exn (e : raised) : pyexn :=
  if is_database_error e then DatabaseError (text e) else OtherError (text e).

(** What the driver does after the current result: [cursor.nextset()]
    raises, moves to a further result, or returns [False]; in the last
    case [conn.commit()] follows and may raise. *)
Inductive after_set : Type :=
| NextRaises (e : raised)
| NextSet (rs : result_set) (rest : after_set)
| NoNextSet (commit_error : option raised).

(** What the driver does on [cursor.execute(statement)]. *)
Inductive reaction : Type :=
| ExecuteRaises (e : raised)
| Executed (rs : result_set) (rest : after_set).

(** [str(e)] *)
Definition exn_text (e : pyexn) : string :=
  match e with
  | IndexError => "string index out of range"
  | ValueError msg => msg
  | DatabaseError msg => msg
  | OtherError msg => msg
  | Diverges => ""
  end.

(** *** Rendered blocks, messages and records *)

(** A rendered text block, identified by the template that produces it
    and the values substituted into it. *)
Inductive block : Type :=
| RowsBlock (description : list string) (rows : list row) (db_name : string)
            (statement_num : nat) (result_set_num : option nat)
    (* _format_query_results(description, rows, db, i, j) *)
| AffectedBlock (db : string) (i : nat) (data : Z)
    (* "Statement {i} executed on {db} ... Rows affected: {data}" *)
| CompletedBlock (db : string) (i : nat)
    (* "Statement {i} executed on {db} ... Command completed successfully" *)
| StatementErrorBlock (db : string) (i : nat) (msg : string)
    (* "Error in Statement {i} on {db}: {e}" *)
| ConnectionErrorBlock (db : string) (msg : string).
    (* "Connection error with {db}: {e}" *)

(** The items put on [message_queue]. *)
Inductive message : Type :=
| StatusConnecting (db : string)          (* ("status", "Connecting to {db}...") *)
| ExecutionSummary (summary : string)     (* ("execution_summary", summary) *)
| ResultMessage (result : block).         (* ("result", result) *)

Section Run.

(** The state of the server (and of the wall clock), the readings
    [time.time()] takes from it, and the driver's behaviour. *)
Variable DB : Type.
Variable Time : Type.
Variable time_now : DB -> Time.
Variable time_sub : Time -> Time -> Time.
Variable fmt3 : Time -> string.                  (* the format spec [:.3f] *)
Variable now_text : DB -> string.                (* datetime.now().strftime(...) *)
Variable connect : string -> DB -> DB * option raised.
Variable execute : string -> str -> DB -> DB * reaction.

(** The dictionary [_execute_on_database] returns. *)
Record db_info : Type := mkInfo {
  name : string;
  exec_time : Time;
  total_rows : nat;
  status : string;
  statement_count : nat;
  errors : list string;
  results : list block
}.

(** The world the executor acts on: the server, the message queue, and a
    log of the calls to [db_manager.database_connection]. *)
Record world : Type := mkWorld {
  server : DB;
  message_queue : list message;
  connection_log : list string
}.

Definition put (m : message) (w : world) : world :=
  mkWorld (server w) (message_queue w ++ [m]) (connection_log w).

(** The four accumulators of [_execute_on_database]. *)
Record acc : Type := mkAcc {
  db_total_rows : nat;
  db_errors : list string;
  db_statement_count : nat;
  db_results : list block
}.

Definition add_result (b : block) (a : acc) : acc :=
  mkAcc (db_total_rows a) (db_errors a) (db_statement_count a)
        (db_results a ++ [b]).

Definition add_error (e : string) (a : acc) : acc :=
  mkAcc (db_total_rows a) (db_errors a ++ [e]) (db_statement_count a)
        (db_results a).

Definition add_rows (n : nat) (a : acc) : acc :=
  mkAcc (db_total_rows a + n) (db_errors a) (db_statement_count a)
        (db_results a).

Definition count_statement (a : acc) : acc :=
  mkAcc (db_total_rows a) (db_errors a) (db_statement_count a + 1)
        (db_results a).

(** An entry of the list [result_sets]: [(cursor.description, rows)] or
    [(None, cursor.rowcount)]. *)
Inductive collected : Type :=
| WithColumns (description : list string) (data : list row)
| CountOnly (data : Z).

(** [if cursor.description:] a non-empty column tuple. *)
Definition has_columns (d : option (list string)) : option (list string) :=
  match d with
  | Some (c :: cs) => Some (c :: cs)
  | _ => None
  end.

(** Source lines 260-264: the rows of the current result in batches of
    1000. *)
Fixpoint fetch_all (fuel : nat) (pending rows : list row) : result (list row) :=
  match fuel with
  | O => Raise Diverges
  | S fuel' =>
      match firstn 1000 pending with
      | [] => Ok rows
      | batch => fetch_all fuel' (skipn 1000 pending) (rows ++ batch)
      end
  end.

(** Source lines 257-270: the current result is appended to
    [result_sets], unless it has columns and no rows. *)
Definition collect_current (rs : result_set) (result_sets : list collected)
    : result (list collected) :=
  match has_columns (description rs) with
  | Some d =>
      fetched <- fetch_all (S (length (rows rs))) (rows rs) [] ;;
      match fetched with
      | _ :: _ => Ok (result_sets ++ [WithColumns d fetched])
      | [] => Ok result_sets
      end
  | None => Ok (result_sets ++ [CountOnly (rowcount rs)])
  end.

(** Source lines 256-274: the loop over the results of one execution.
    It ends because the driver's sequence of results does. *)
Fixpoint drain (rest : after_set) (rs : result_set)
    (result_sets : list collected) : result (list collected * option pyexn) :=
  result_sets' <- collect_current rs result_sets ;;
  match rest with
  | NextRaises e => Raise (to_exn e)
  | NextSet rs' rest' => drain rest' rs' result_sets'
  | NoNextSet commit_error => Ok (result_sets', option_map to_exn commit_error)
  end.

(** Source lines 278-289. *)
Fixpoint format_results (db : string) (i : nat) (many : bool) (j : nat)
    (result_sets : list collected) (a : acc) : acc :=
  match result_sets with
  | [] => a
  | WithColumns d data :: more =>
      let result :=
        RowsBlock d data db i (if many then Some (j + 1) else None) in
      format_results db i many (j + 1) more
        (add_rows (length data) (add_result result a))
  | CountOnly data :: more =>
      let result :=
        if (data >? 0)%Z then AffectedBlock db i data
        else CompletedBlock db i in
      format_results db i many (j + 1) more (add_result result a)
  end.

(** Source lines 277-293. *)
Definition record_results (db : string) (i : nat)
    (result_sets : list collected) (a : acc) : acc :=
  match result_sets with
  | _ :: _ =>
      format_results db i (1 <? length result_sets)%nat 0 result_sets a
  | [] => add_result (CompletedBlock db i) a
  end.

(** The body of the inner [try] (source lines 251-296): the accumulators
    as it leaves them, and the exception it raises, if any. *)
Definition try_statement (db : string) (i : nat) (r : reaction) (a : acc)
    : acc * option pyexn :=
  match r with
  | ExecuteRaises e => (a, Some (to_exn e))
  | Executed rs rest =>
      match drain rest rs [] with
      | Raise e => (a, Some e)
      | Ok (result_sets, commit_error) =>
          (record_results db i result_sets a, commit_error)
      end
  end.

(** One iteration of the statement loop (source lines 247-302); the
    exception returned is one the inner handler does not catch. *)
Definition run_statement (db : string) (i : nat) (statement : str)
    (s : DB) (a : acc) : DB * acc * option pyexn :=
  let a := count_statement a in
  let '(s, r) := execute db statement s in
  match try_statement db i r a with
  | (a, None) => (s, a, None)
  | (a, Some (DatabaseError msg)) =>
      (s,
       add_error ("Statement " ++ str_of_nat i ++ ": " ++ msg)%string
         (add_result (StatementErrorBlock db i msg) a),
       None)
  | (a, Some e) => (s, a, Some e)
  end.

(** [for i, statement in enumerate(statements, 1): ...] *)
Fixpoint run_statements (db : string) (statements : list str) (i : nat)
    (s : DB) (a : acc) : DB * acc * option pyexn :=
  match statements with
  | [] => (s, a, None)
  | statement :: more =>
      match run_statement db i statement s a with
      | (s, a, None) => run_statements db more (i + 1) s a
      | (s, a, Some e) => (s, a, Some e)
      end
  end.

Definition acc_init : acc := mkAcc 0 [] 0 [].

(** [_execute_on_database(db, statements)] (source lines 232-319). *)
Definition _execute_on_database (db : string) (statements : list str)
    (w : world) : world * result db_info :=
  let db_start_time := time_now (server w) in
  let w := put (StatusConnecting db) w in
  let w := mkWorld (server w) (message_queue w) (connection_log w ++ [db]) in
  let '(s, a, escaped) :=
    match connect db (server w) with
    | (s, Some e) => (s, acc_init, Some (to_exn e))
    | (s, None) => run_statements db statements 1 s acc_init
    end in
  let w := mkWorld s (message_queue w) (connection_log w) in
  match escaped with
  | Some Diverges => (w, Raise Diverges)
  | _ =>
      let a :=
        match escaped with
        | Some e =>
            add_error ("Connection: " ++ exn_text e)%string
              (add_result (ConnectionErrorBlock db (exn_text e)) a)
        | None => a
        end in
      (w, Ok (mkInfo db
                     (time_sub (time_now (server w)) db_start_time)
                     (db_total_rows a)
                     (match db_errors a with [] => "Success" | _ => "Error" end)
                     (db_statement_count a)
                     (db_errors a)
                     (db_results a)))
  end.

(** *** The execution summary (source lines 405-469) *)

Definition headers : list string :=
  ["Database"; "Time(s)"; "Rows"; "Statements"; "Status"; "Errors"].

Definition col_widths : list nat := [20; 10; 12; 12; 10; 30].

(** [row += f" {data:<{width-1}}|"] over [zip(cells, col_widths)],
    starting from ["|"]. *)
Definition table_row (cells : list string) : string :=
  fold_left
    (fun r cw => (r ++ " " ++ ljust (snd cw - 1) (fst cw) ++ "|")%string)
    (combine cells col_widths) "|".

Definition sep_row : string :=
  fold_left (fun r width => (r ++ repeat_str "-" width ++ "|")%string)
            col_widths "|".

(** Source lines 449-455. *)
Definition error_summary (errs : list string) : string :=
  match errs with
  | [] => "None"
  | [e] => if (25 <? String.length e)%nat
           then (prefix_n 25 e ++ "...")%string else e
  | _ => (str_of_nat (length errs) ++ " error(s)")%string
  end.

(** Source lines 442-462: the table row of one record. *)
Definition data_row (info : db_info) : string :=
  table_row [prefix_n 19 (name info);
             fmt3 (exec_time info);
             thousands (total_rows info);
             str_of_nat (statement_count info);
             status info;
             error_summary (errors info)].

(** Source lines 410-438. *)
Definition summary_head (databases_info : list db_info)
    (total_exec_time : Time) (overall_total_rows : nat) (s : DB)
    : list string :=
  [repeat_str "=" 100;
   "EXECUTION SUMMARY";
   repeat_str "=" 100;
   ("Total Execution Time: " ++ fmt3 total_exec_time ++ " seconds")%string;
   ("Overall Total Rows  : " ++ thousands overall_total_rows)%string;
   ("Databases Processed : " ++ str_of_nat (length databases_info))%string;
   ("Executed At         : " ++ now_text s)%string;
   "";
   "DATABASE EXECUTION DETAILS";
   repeat_str "=" 100;
   table_row headers;
   sep_row].

(** Source lines 440-462: [for db_info in reversed(databases_info)],
    one appended line per record. *)
Definition summary_data_rows (databases_info : list db_info)
    (summary_lines : list string) : list string :=
  fold_left (fun lines info => lines ++ [data_row info])
            (rev databases_info) summary_lines.

Definition summary_lines (databases_info : list db_info)
    (total_exec_time : Time) (overall_total_rows : nat) (s : DB)
    : list string :=
  summary_data_rows databases_info
    (summary_head databases_info total_exec_time overall_total_rows s)
  ++ [sep_row; repeat_str "=" 100; ""].

(** ["\n".join(lines)] *)
Fixpoint join_lines (lines : list string) : string :=
  match lines with
  | [] => ""
  | [l] => l
  | l :: ls => (l ++ String nl (join_lines ls))%string
  end.

Definition _generate_execution_summary (databases_info : list db_info)
    (total_exec_time : Time) (overall_total_rows : nat) (s : DB) : string :=
  join_lines (summary_lines databases_info total_exec_time
                            overall_total_rows s).

(** [_send_results] (source lines 394-403). *)
Definition _send_results (databases_info : list db_info)
    (total_exec_time : Time) (overall_total_rows : nat) (w : world) : world :=
  let summary :=
    _generate_execution_summary databases_info total_exec_time
                                overall_total_rows (server w) in
  let w := put (ExecutionSummary summary) w in
  fold_left
    (fun w info =>
       fold_left (fun w result => put (ResultMessage result) w)
                 (results info) w)
    (rev databases_info) w.

(** *** [execute_query] (source lines 11-50) *)

(** The argument [query]: a text, or a list of texts that is joined with
    single spaces (source lines 14-15). *)
Inductive query_arg : Type :=
| QueryText (q : str)
| QueryList (parts : list str).

Definition query_text (query : query_arg) : str :=
  match query with
  | QueryText q => q
  | QueryList parts => join [" "%char] parts
  end.

(** The dictionary [execute_query] returns. *)
Record run_result : Type := mkRun {
  run_exec_time : Time;
  run_total_rows : nat;
  run_databases_info : list db_info
}.

(** Source lines 36-39. *)
Fixpoint run_databases (databases : list string) (statements : list str)
    (w : world) (databases_info : list db_info) (overall_total_rows : nat)
    : world * result (list db_info * nat) :=
  match databases with
  | [] => (w, Ok (databases_info, overall_total_rows))
  | db :: more =>
      match _execute_on_database db statements w with
      | (w, Ok info) =>
          run_databases more statements w (databases_info ++ [info])
                        (overall_total_rows + total_rows info)
      | (w, Raise e) => (w, Raise e)
      end
  end.

Definition execute_query (databases : list string) (query : query_arg)
    (w : world) : world * result run_result :=
  let query := query_text query in
  if negb (nonempty query) || negb (nonempty (strip query)) then
    (w, Raise (ValueError "Query cannot be empty"))
  else
    match databases with
    | [] => (w, Raise (ValueError "No databases selected"))
    | _ :: _ =>
        let start_time := time_now (server w) in
        match _split_sql_statements query with
        | Raise e => (w, Raise e)
        | Ok [] => (w, Raise (ValueError "No valid SQL statements found"))
        | Ok statements =>
            match run_databases databases statements w [] 0 with
            | (w, Raise e) => (w, Raise e)
            | (w, Ok (databases_info, overall_total_rows)) =>
                let total_exec_time :=
                  time_sub (time_now (server w)) start_time in
                let w := _send_results databases_info total_exec_time
                                       overall_total_rows w in
                (w, Ok (mkRun total_exec_time overall_total_rows
                              databases_info))
            end
        end
    end.

End Run.

Arguments mkInfo {Time}.
Arguments name {Time}.
Arguments exec_time {Time}.
Arguments total_rows {Time}.
Arguments status {Time}.
Arguments statement_count {Time}.
Arguments errors {Time}.
Arguments results {Time}.
Arguments mkWorld {DB}.
Arguments server {DB}.
Arguments message_queue {DB}.
Arguments connection_log {DB}.
Arguments put {DB}.
Arguments mkRun {Time}.
Arguments run_exec_time {Time}.
Arguments run_total_rows {Time}.
Arguments run_databases_info {Time}.

End Executor.

(** ** Notions used to state the properties *)

Module ScanSpec.

(** The states the scan of [query] passes through. *)
Inductive scanned (query : str) : scan_state -> Prop :=
| scanned_init : scanned query scan_init
| scanned_step s s' :
    scanned query s -> i s < length query -> scan_step query s = Ok s' ->
    scanned query s'.

(** What the scan does at a statement terminator (source lines 212-216). *)
Definition cut (s : scan_state) : scan_state :=
  mkScan (if nonempty (strip (current_statement s))
          then statements s ++ [strip (current_statement s)]
          else statements s)
         [] (in_string s) (string_char s) (in_bracket s)
         (paren_depth s) (begin_end_depth s) (i s + 1).

(** What holds of the quote tracking and of the block depth in every state
    of a scan. *)
Definition scan_wf (s : scan_state) : Prop :=
  (0 <= begin_end_depth s)%Z
  /\ match string_char s with
     | None => in_string s = false
     | Some q => is_quote q = true /\ in_string s = true
     end.

(** The four conditions under which a semicolon ends a unit. *)
Definition at_top_level (s : scan_state) : Prop :=
  in_string s = false /\ in_bracket s = false
  /\ paren_depth s = 0%Z /\ begin_end_depth s = 0%Z.

End ScanSpec.

Import ScanSpec.

Module ExecSpec.

Import Fmt Executor.
Local Open Scope string_scope.
Local Open Scope list_scope.

(** The entries one result contributes to [result_sets]: none when it has
    columns and no rows. *)
Definition kept (rs : result_set) : list collected :=
  match has_columns (description rs) with
  | Some d => match rows rs with
              | [] => []
              | _ :: _ => [WithColumns d (rows rs)]
              end
  | None => [CountOnly (rowcount rs)]
  end.

(** The results the driver moves to with [nextset], the exception
    [nextset] raises on the way, and the exception [commit] raises. *)
Fixpoint sets_after (rest : after_set) : list result_set :=
  match rest with
  | NextSet rs rest' => rs :: sets_after rest'
  | _ => []
  end.

Fixpoint nextset_error (rest : after_set) : option raised :=
  match rest with
  | NextRaises e => Some e
  | NextSet _ rest' => nextset_error rest'
  | NoNextSet _ => None
  end.

Fixpoint commit_error_of (rest : after_set) : option raised :=
  match rest with
  | NextRaises _ => None
  | NextSet _ rest' => commit_error_of rest'
  | NoNextSet c => c
  end.

Section Runs.

Variable DB : Type.
Variable Time : Type.
Variable time_now : DB -> Time.
Variable time_sub : Time -> Time -> Time.
Variable fmt3 : Time -> string.
Variable now_text : DB -> string.
Variable connect : string -> DB -> DB * option raised.
Variable execute : string -> str -> DB -> DB * reaction.

(** [ran_each statements w dbs infos w']: starting in [w], each target of
    [dbs] in turn was handed to [_execute_on_database], which returned the
    record at the same place in [infos]; [w'] is the world at the end. *)
Inductive ran_each (statements : list str)
    : world DB -> list string -> list (db_info Time) -> world DB -> Prop :=
| ran_none w : ran_each statements w [] [] w
| ran_next w db dbs w1 info infos w2 :
    _execute_on_database DB Time time_now time_sub connect execute
                         db statements w = (w1, Ok info) ->
    ran_each statements w1 dbs infos w2 ->
    ran_each statements w (db :: dbs) (info :: infos) w2.

(** The lines of a summary whose table rows follow the order of
    [databases_info], the order in which the targets completed. *)
Definition summary_lines_completion_order
    (databases_info : list (db_info Time))
    (total_exec_time : Time) (overall_total_rows : nat) (s : DB)
    : list string :=
  summary_head DB Time fmt3 now_text databases_info total_exec_time
               overall_total_rows s
  ++ map (data_row Time fmt3) databases_info
  ++ [sep_row; repeat_str "=" 100; ""].

End Runs.

End ExecSpec.

(** ** A small driver to run the executor on *)

Module Demo.

Import Fmt Executor.
Local Open Scope string_scope.
Local Open Scope list_scope.

(** The server state is a count of the statements executed, also used as
    the clock.  Target [B] cannot be reached. *)
Definition demo_connect (db : string) (s : nat) : nat * option raised :=
  if String.eqb db "B" then (s, Some (mkRaised false "login failed"))
  else (s, None).

Definition one_row : result_set := mkResultSet (Some ["c"]) [["1"]] (-1).
Definition no_rows : result_set := mkResultSet (Some ["c"]) [] (-1).

(** The statement [bad] is rejected by the server, [two] returns an empty
    result set and then one with a row, anything else returns one row. *)
Definition demo_execute (db : string) (statement : str) (s : nat)
    : nat * reaction :=
  if PyStr.eqb statement (s2l "bad")
  then (S s, ExecuteRaises (mkRaised true "syntax error"))
  else if PyStr.eqb statement (s2l "two")
  then (S s, Executed no_rows (NextSet one_row (NoNextSet None)))
  else (S s, Executed one_row (NoNextSet None)).

Definition demo_fmt3 (t : nat) : string := str_of_nat t ++ ".000".
Definition demo_now_text (s : nat) : string := "2024-01-01 00:00:00".

Definition demo_world : world nat := mkWorld 0 [] [].

Definition demo_execute_on_database :=
  _execute_on_database nat nat (fun s => s) Nat.sub demo_connect demo_execute.

Definition demo_execute_query :=
  execute_query nat nat (fun s => s) Nat.sub demo_fmt3 demo_now_text
                demo_connect demo_execute.

End Demo.

(** ** Splitting on batch separators, in the words of the specification *)

Module GoSpec.

(** A line is a separator when, trimmed, it equals GO in any letter case. *)
Definition is_go_line (line : str) : bool :=
  PyStr.eqb (upper (strip line)) (s2l "GO").

(** The lines between the separators: [current] holds the lines of the
    segment being read. *)
Fixpoint go_segments (current : list str) (lines : list str)
    : list (list str) :=
  match lines with
  | [] => [current]
  | line :: rest =>
      if is_go_line line then current :: go_segments [] rest
      else go_segments (current ++ [line]) rest
  end.

(** Each non-empty trimmed segment between separators is one unit, in
    order. *)
Definition go_units_spec (text : str) : list str :=
  filter nonempty
    (map (fun segment => strip (join [nl] segment))
         (go_segments [] (split_chr nl text))).

End GoSpec.

Import GoSpec.

(** ** Notions used in the proofs about the separator pattern *)

Module GoAux.

(** The units of the specification computed with the text of the current
    segment as the accumulator. *)
Definition unit_of (piece : str) : list str :=
  if nonempty (strip piece) then [strip piece] else [].

Fixpoint units_from (piece : str) (lines : list str) : list str :=
  match lines with
  | [] => unit_of piece
  | line :: rest =>
      if is_go_line line then unit_of piece ++ units_from [] rest
      else units_from (piece ++ line ++ [nl]) rest
  end.

(** The units of a list of pieces: trimmed, empty ones dropped. *)
Definition units (pieces : list str) : list str :=
  filter nonempty (map strip pieces).

(** The longest whitespace prefix of a text. *)
Fixpoint wsprefix (s : str) : str :=
  match s with
  | c :: s' => if isspace c then c :: wsprefix s' else []
  | [] => []
  end.

Definition blank (s : str) : bool := forallb isspace s.

Definition no_nl (s : str) : bool :=
  forallb (fun c => negb (Ascii.eqb c nl)) s.

(** The text that follows a line when [rest] are the lines after it. *)
Definition tl_text (rest : list str) : str :=
  match rest with
  | [] => []
  | _ :: _ => nl :: join [nl] rest
  end.

(** The least number of characters a match of a pattern consumes. *)
Fixpoint minlen (r : re) : nat :=
  match r with
  | Chr _ => 1
  | Plus _ => 1
  | Seq r1 r2 => minlen r1 + minlen r2
  | Alt r1 r2 => Nat.min (minlen r1) (minlen r2)
  | _ => 0
  end.

(** Passing over the characters of a class, then [f]. *)
Fixpoint skip_class (p : ascii -> bool) (f : pos -> list pos) (b a : str)
    : list pos :=
  match a with
  | c :: a' => if p c then skip_class p f (c :: b) a' else f (b, a)
  | [] => f (b, a)
  end.

(** The parts of [go_re] after the leading whitespace. *)
Definition go_tail : re := Seq (Star ws) Eol.
Definition go_after_ws : re := Seq (word "GO") go_tail.

(** [e] lies [m] ahead of the position [(b, a)]. *)
Definition ahead (m : str) (b a : str) (e : pos) : Prop :=
  fst e = rev m ++ b /\ a = m ++ snd e.

(** The lines of a text, read with the current line as accumulator. *)
Fixpoint lines_acc (current : str) (s : str) : list str :=
  match s with
  | [] => [current]
  | c :: s' =>
      if Ascii.eqb c nl then current :: lines_acc [] s'
      else lines_acc (current ++ [c]) s'
  end.

(** The text of a list of lines, each followed by a newline. *)
Definition lines_text (lines : list str) : str :=
  concat (map (fun l => l ++ [nl]) lines).

End GoAux.

Import GoAux.

(** ** Notions used to state further properties of the executor *)

Module ExecAux.

Import Executor.

(** The blocks that report a failure. *)
Definition is_error_block (b : block) : bool :=
  match b with
  | StatementErrorBlock _ _ _ => true
  | ConnectionErrorBlock _ _ => true
  | _ => false
  end.

Definition is_connection_error_block (b : block) : bool :=
  match b with
  | ConnectionErrorBlock _ _ => true
  | _ => false
  end.

(** The number of rows a block shows. *)
Definition block_rows (b : block) : nat :=
  match b with
  | RowsBlock _ rows _ _ _ => length rows
  | _ => 0
  end.

(** The number of elements of a list that satisfy a test. *)
Definition count {A} (p : A -> bool) (l : list A) : nat :=
  length (filter p l).

(** The accumulators agree with the blocks recorded so far. *)
Definition acc_agrees (a : acc) : Prop :=
  length (db_errors a) = count is_error_block (db_results a)
  /\ db_total_rows a = list_sum (map block_rows (db_results a))
  /\ count is_connection_error_block (db_results a) = 0.

(** The world with the messages [q0] put in front of its queue. *)
Definition requeue {DB} (q0 : list message) (w : world DB) : world DB :=
  mkWorld (server w) (q0 ++ message_queue w) (connection_log w).

End ExecAux.

Import ExecAux.

(** ** Notions used to state further properties of the splitter *)

Module SplitAux.

(** A unit that is not empty and has no whitespace at either end. *)
Definition good_unit (u : str) : Prop := nonempty u = true /\ strip u = u.

(** A line that is a comment once trimmed (source line 107). *)
Definition is_comment_line (line : str) : bool :=
  startswith (s2l "--") (strip line).

(** A line that starts with CREATE once trimmed (source line 111). *)
Definition is_create_line (line : str) : bool :=
  startswith (s2l "CREATE") (upper (strip line)).

(** The pattern of [routine_re] and of the first three entries of
    [complex_patterns], with the keyword alternatives left open. *)
Definition routine_like (keywords : re) : re :=
  seqs [WordB; cad; Plus ws; keywords; Plus ws].

(** The number of semicolons of a text. *)
Definition semicolons (q : str) : nat := length (filter (Ascii.eqb ";") q).

(** The state after the characters [a] were appended one at a time
    (source lines 218-219, repeated). *)
Definition advance_by (a : str) (s : scan_state) : scan_state :=
  mkScan (statements s) (current_statement s ++ a) (in_string s)
         (string_char s) (in_bracket s) (paren_depth s) (begin_end_depth s)
         (i s + length a).

(** [steps query s s']: the loop of the scan goes from [s] to [s'] in
    zero or more iterations. *)
Inductive steps (query : str) : scan_state -> scan_state -> Prop :=
| steps_refl s : steps query s s
| steps_next s s1 s' :
    i s < length query -> scan_step query s = Ok s1 -> steps query s1 s' ->
    steps query s s'.

End SplitAux.

Import SplitAux.

(** ** A driver that loses its connection *)

Module DemoMore.

Import Fmt Executor Demo.
Local Open Scope string_scope.
Local Open Scope list_scope.

(** As [demo_execute], but the statement [boom] makes the driver raise an
    exception that is not a [pyodbc.DatabaseError], [half] returns a row
    and then fails on [nextset], and [nocommit] returns a row and then
    fails on [commit]. *)
Definition lossy_execute (db : string) (statement : str) (s : nat)
    : nat * reaction :=
  if PyStr.eqb statement (s2l "boom")
  then (S s, ExecuteRaises (mkRaised false "connection lost"))
  else if PyStr.eqb statement (s2l "half")
  then (S s, Executed one_row (NextRaises (mkRaised true "next failed")))
  else if PyStr.eqb statement (s2l "nocommit")
  then (S s, Executed one_row
                      (NoNextSet (Some (mkRaised true "commit failed"))))
  else demo_execute db statement s.

Definition lossy_execute_on_database :=
  _execute_on_database nat nat (fun s => s) Nat.sub demo_connect lossy_execute.

End DemoMore.

(** ** The table of a result set: [QueryExecutor._format_query_results]

    The rendered text holds characters beyond the range of [ascii], so it
    is a list of code points.  A value of a row stands for its [str]. *)

Module Formatter.

Import Fmt Executor.
Local Open Scope string_scope.
Local Open Scope list_scope.

Abbreviation utext := (list N).

(** The code points of a text of the range 0..255. *)
Definition u (s : string) : utext := map N_of_ascii (list_ascii_of_string s).

(** [ch * n] *)
Definition fill (ch : N) (n : nat) : utext := repeat ch n.

(** [sep.join(parts)] *)
Fixpoint ujoin (sep : utext) (parts : list utext) : utext :=
  match parts with
  | [] => []
  | [p] => p
  | p :: ps => p ++ sep ++ ujoin sep ps
  end.

(** [text.ljust(width)] *)
Definition uljust (width : nat) (text : utext) : utext :=
  text ++ fill 32%N (width - length text).

(** [l[:k]] for an integer [k] of either sign. *)
Definition py_prefix {A} (l : list A) (k : Z) : list A :=
  if (k <? 0)%Z then firstn (Z.to_nat (Z.of_nat (length l) + k)) l
  else firstn (Z.to_nat k) l.

(** A list comprehension whose element expression may raise. *)
Fixpoint collect {A B} (f : A -> result B) (l : list A) : result (list B) :=
  match l with
  | [] => Ok []
  | x :: l' => y <- f x ;; ys <- collect f l' ;; Ok (y :: ys)
  end.

(** [row[i]] *)
Definition cell (r : row) (i : nat) : result string :=
  match nth_error r i with
  | Some v => Ok v
  | None => Raise IndexError
  end.

Definition rule : N := 9552%N.        (* the double horizontal line *)
Definition dash : N := 9472%N.        (* the light horizontal line *)
Definition bar : N := 9474%N.         (* the light vertical line *)
Definition lf : N := 10%N.

(** Source lines 324-326. *)
Definition title (db_name : string) (statement_num : nat)
    (result_set_num : option nat) : utext :=
  let title :=
    [128203%N] ++ u " Results from Statement "
    ++ u (str_of_nat statement_num) ++ u " on " ++ u db_name in
  match result_set_num with
  | Some (S n) => title ++ u " (Result Set " ++ u (str_of_nat (S n)) ++ u ")"
  | _ => title
  end.

(** Source line 329. *)
Definition no_rows_text (title : utext) : utext :=
  [lf] ++ fill rule 80 ++ [lf] ++ title ++ [lf] ++ fill rule 80 ++ [lf]
  ++ [9888%N; 65039%N] ++ u "  No rows returned" ++ [lf]
  ++ fill rule 80 ++ [lf].

(** Source lines 338-346, one column: the width is taken from the name
    and from the values of the first 100 rows, and kept between
    [min_width] and [max_width]. *)
Definition column_width (i : nat) (name : string) (rows : list row)
    : result nat :=
  data_widths <- collect (fun r => v <- cell r i ;; Ok (String.length v))
                         (firstn 100 rows) ;;
  let max_data_width :=
    match data_widths with [] => 0 | _ :: _ => list_max data_widths end in
  Ok (Nat.max 8 (Nat.min 30 (Nat.max (String.length name) max_data_width))).

(** [for i, name in enumerate(column_names): ...] *)
Fixpoint col_widths_from (i : nat) (column_names : list string)
    (rows : list row) : result (list nat) :=
  match column_names with
  | [] => Ok []
  | name :: more =>
      width <- column_width i name rows ;;
      widths <- col_widths_from (S i) more rows ;;
      Ok (width :: widths)
  end.

(** Source lines 349-353. *)
Definition truncate_text (text : utext) (width : nat) : utext :=
  if (length text <=? width)%nat then text
  else py_prefix text (Z.of_nat width - 3) ++ u "...".

(** A horizontal border: a corner, the columns joined by a junction, a
    corner (source lines 361, 365, 377). *)
Definition border (left mid right : N) (col_widths : list nat) : utext :=
  [left] ++ ujoin [mid] (map (fun width => fill dash (width + 2)) col_widths)
  ++ [right].

Definition header_top := border 9484%N 9516%N 9488%N.
Definition header_bottom := border 9500%N 9532%N 9508%N.
Definition table_footer := border 9492%N 9524%N 9496%N.

(** Source lines 362-364. *)
Definition header_content (column_names : list string)
    (col_widths : list nat) : utext :=
  [bar; 32%N]
  ++ ujoin [32%N; bar; 32%N]
       (map (fun nw => uljust (snd nw) (u (fst nw)))
            (combine column_names col_widths))
  ++ [32%N; bar].

(** Source lines 369-374, one row. *)
Definition row_content (r : row) (col_widths : list nat) : utext :=
  [bar; 32%N]
  ++ ujoin [32%N; bar; 32%N]
       (map (fun vw => uljust (snd vw) (truncate_text (u (fst vw)) (snd vw)))
            (combine r col_widths))
  ++ [32%N; bar].

(** The lines of the table, from its top border to its bottom border. *)
Definition table_lines (column_names : list string) (rows : list row)
    (col_widths : list nat) : list utext :=
  [header_top col_widths; header_content column_names col_widths;
   header_bottom col_widths]
  ++ map (fun r => row_content r col_widths) rows
  ++ [table_footer col_widths].

(** [_format_query_results(description, rows, db_name, statement_num,
    result_set_num)] (source lines 321-392); [description] is given by
    its column names. *)
Definition _format_query_results (description : list string)
    (rows : list row) (db_name : string) (statement_num : nat)
    (result_set_num : option nat) : result utext :=
  let title := title db_name statement_num result_set_num in
  match rows with
  | [] => Ok (no_rows_text title)
  | _ :: _ =>
      let column_names := description in
      col_widths <- col_widths_from 0 column_names rows ;;
      let header_line := [lf] ++ fill rule 100 ++ [lf] in
      let title_line :=
        title ++ u " (Showing " ++ u (thousands (length rows))
        ++ u " rows)" ++ [lf] in
      let separator_line := fill rule 100 ++ [lf] in
      let table_parts :=
        [header_line; title_line; separator_line]
        ++ table_lines column_names rows col_widths
        ++ [[lf; 9989%N] ++ u " Total rows: " ++ u (thousands (length rows))
            ++ [lf] ++ fill rule 100 ++ [lf]] in
      Ok (ujoin [lf] table_parts)
  end.

End Formatter.

(** ** The query history: [app/utils/query_history.py] *)

Module History.

Section Manager.

(** The type of [datetime.now()], the state of the disk, and what the
    two accesses to [HISTORY_FILE] do.  [dump h d] is the disk after the
    attempt to pickle [h] into the file, whether the attempt succeeds or
    raises (the exception is caught and printed, source lines 32-36). *)
Variable Stamp : Type.
Variable Disk : Type.
Variable dump : list (Stamp * str) -> Disk -> Disk.

(** What [load_history] finds (source lines 22-28). *)
Inductive load_outcome : Type :=
| NoFile
| Loaded (h : list (Stamp * str))
| LoadRaises.

Variable load : Disk -> load_outcome.

Definition MAX_HISTORY_ENTRIES : nat := 50.

Record manager : Type := mkManager {
  query_history : list (Stamp * str);
  disk : Disk
}.

Definition save_history (m : manager) : manager :=
  mkManager (query_history m) (dump (query_history m) (disk m)).

Definition load_history (m : manager) : manager :=
  match load (disk m) with
  | NoFile => m
  | Loaded h => mkManager h (disk m)
  | LoadRaises => mkManager [] (disk m)
  end.

(** [QueryHistoryManager()] *)
Definition init (d : Disk) : manager := load_history (mkManager [] d).

(** [add_query(query)], with the reading [now] of the clock. *)
Definition add_query (now : Stamp) (query : str) (m : manager) : manager :=
  let h := query_history m ++ [(now, query)] in
  let h := if MAX_HISTORY_ENTRIES <? length h then tl h else h in
  save_history (mkManager h (disk m)).

Definition get_history (m : manager) : list (Stamp * str) := query_history m.

Definition clear_history (m : manager) : manager :=
  save_history (mkManager [] (disk m)).

(** A sequence of calls to [add_query]. *)
Definition add_queries (entries : list (Stamp * str)) (m : manager)
    : manager :=
  fold_left (fun m e => add_query (fst e) (snd e) m) entries m.

End Manager.

Arguments mkManager {Stamp Disk}.
Arguments query_history {Stamp Disk}.
Arguments disk {Stamp Disk}.
Arguments NoFile {Stamp}.
Arguments Loaded {Stamp}.
Arguments LoadRaises {Stamp}.

(** The last [n] elements of a list. *)
Definition lastn {A} (n : nat) (l : list A) : list A :=
  skipn (length l - n) l.

End History.

(** ** File names: [FileOperationsManager.get_safe_filename] *)

Module FileOps.

Import Formatter.

(** The character class of the pattern: less-than, greater-than, colon,
    double quote, slash, backslash, vertical bar, question mark, star. *)
Definition unsafe (c : ascii) : bool :=
  existsb (Ascii.eqb c) (s2l "<>:" ++ [dquote] ++ s2l "/\|?*").

(** [re.sub] of that class by an underscore: the class matches one
    character, so every character of the class is replaced on its own. *)
Definition sub_unsafe (filename : str) : str :=
  map (fun c => if unsafe c then "_"%char else c) filename.

(** [s.rfind(c)] for a character [c]: the last index, or -1. *)
Fixpoint rfind_chr (c : ascii) (s : str) : Z :=
  match s with
  | [] => -1
  | x :: s' =>
      let r := rfind_chr c s' in
      if (0 <=? r)%Z then (r + 1)%Z
      else if Ascii.eqb x c then 0%Z else (-1)%Z
  end.

(** [os.path.splitext(p)] as the standard library computes it from the
    platform's separators: the extension starts at the last dot of the
    last component, unless only dots precede it there. *)
Definition splitext (sep : ascii) (altsep : option ascii) (p : str)
    : str * str :=
  let sepIndex := rfind_chr sep p in
  let sepIndex :=
    match altsep with
    | Some a => Z.max sepIndex (rfind_chr a p)
    | None => sepIndex
    end in
  let dotIndex := rfind_chr "." p in
  if (sepIndex <? dotIndex)%Z then
    if forallb (Ascii.eqb ".")
               (slice p (Z.to_nat (sepIndex + 1)) (Z.to_nat dotIndex))
    then (p, [])
    else (firstn (Z.to_nat dotIndex) p, skipn (Z.to_nat dotIndex) p)
  else (p, []).

(** [get_safe_filename(filename)] (source lines 180-190). *)
Definition get_safe_filename (sep : ascii) (altsep : option ascii)
    (filename : str) : str :=
  let safe_filename := sub_unsafe filename in
  if 200 <? length safe_filename then
    let '(name, ext) := splitext sep altsep safe_filename in
    py_prefix name (200 - Z.of_nat (length ext)) ++ ext
  else safe_filename.

(** The extension [get_safe_filename] sees. *)
Definition extension (sep : ascii) (altsep : option ascii) (filename : str)
    : str :=
  snd (splitext sep altsep (sub_unsafe filename)).

End FileOps.

(** ** The controller: [app/core/app_controller.py]

    The part of [SQLToolApp] that runs a query: [start_query_thread], the
    thread body [_execute_query_thread], the queue handler [check_queue]
    and [save_query_log], with the widgets of [main_ui.py] and the text
    area of [result_viewer.py] they act on.  The thread body is run to its
    end before the queue is checked; the messages are handled in the order
    they were put. *)

Module Controller.

Import Fmt Executor History.
Local Open Scope string_scope.
Local Open Scope list_scope.

(** The items on the queue of the application: those the executor puts,
    and those the controller puts itself. *)
Inductive app_message : Type :=
| FromExecutor (m : message)
| MsgSuccess (text : string)             (* ("success", text) *)
| MsgError (text : string)               (* ("error", text) *)
| MsgDone (text : string)                (* ("done", text) *)
| MsgEnableLogButton.                    (* ("enable_log_button", True) *)

(** The three widgets [set_query_running_state] and
    [enable_save_log_button] configure ([main_ui.py], lines 313-325):
    [true] for the state [normal], [false] for [disabled]. *)
Record widgets : Type := mkWidgets {
  run_query_btn : bool;
  save_log_btn : bool;
  query_editor : bool
}.

Definition set_query_running_state (is_running : bool) (u : widgets)
    : widgets :=
  mkWidgets (negb is_running)
            (if is_running then false else save_log_btn u)
            (negb is_running).

Definition enable_save_log_button (u : widgets) : widgets :=
  mkWidgets (run_query_btn u) true (query_editor u).

(** What the text area of the result viewer holds, piece by piece
    ([result_viewer.py], lines 71-105). *)
Inductive viewer_item : Type :=
| StatusLine (text : string)             (* the text and a line feed *)
| ConnectingLine (db : string)           (* the status text of the executor *)
| SummaryText (summary : string)         (* the summary and a line feed *)
| ResultText (result : block)
| ErrorLine (text : string).             (* ERROR: the text, a line feed *)

(** An entry of the list [save_query_log] of [file_operations.py] reads
    under the key [results] (source lines 50-57 there). *)
Record log_entry : Type := mkLogEntry {
  entry_database : string;
  entry_statement_num : nat;
  entry_success : bool;
  entry_error : string;
  entry_result : string
}.

(** The calls that leave the part modelled here. *)
Inductive outside_call : Type :=
| ShowWarning (title text : string)      (* messagebox.showwarning *)
| AskYesNo (title : string)              (* messagebox.askyesno *)
| ShowInfo (title text : string)         (* messagebox.showinfo *)
| ShowErrorBox (title text : string)     (* messagebox.showerror *)
| ConnectionShowSuccess (text : string)  (* connection_ui.show_success *)
| ConnectionShowError (text : string)    (* connection_ui.show_error *)
| AfterSwitchToMainUi.                   (* root.after(1000, ...) *)

Section App.

Variable DB : Type.
Variable Time : Type.
Variable time_now : DB -> Time.
Variable time_sub : Time -> Time -> Time.
Variable fmt3 : Time -> string.
Variable now_text : DB -> string.
Variable connect : string -> DB -> DB * option raised.
Variable execute : string -> str -> DB -> DB * reaction.

Variable Stamp : Type.
Variable Disk : Type.
Variable dump : list (Stamp * str) -> Disk -> Disk.

(** [QueryValidator.contains_dangerous_sql], whose module is not part of
    the sources at hand, and the truth value of a float. *)
Variable contains_dangerous_sql : str -> bool.
Variable nonzero : Time -> bool.

(** The values the dictionary [current_query] holds. *)
Inductive value : Type :=
| VText (s : str)
| VNames (l : list string)
| VStamp (t : Stamp)
| VList (items : list log_entry)
| VTime (t : Time)
| VInt (n : nat)
| VInfos (l : list (db_info Time)).

(** A dictionary with text keys, in insertion order. *)
Definition dict : Type := list (string * value).

(** [d.get(k)] *)
Fixpoint dict_get (k : string) (d : dict) : option value :=
  match d with
  | [] => None
  | (k', v) :: d' => if String.eqb k k' then Some v else dict_get k d'
  end.

(** [d[k] = v] *)
Fixpoint dict_set (k : string) (v : value) (d : dict) : dict :=
  match d with
  | [] => [(k, v)]
  | (k', v') :: d' =>
      if String.eqb k k' then (k, v) :: d' else (k', v') :: dict_set k v d'
  end.

(** [d.update(other)] *)
Definition dict_update (d other : dict) : dict :=
  fold_left (fun d kv => dict_set (fst kv) (snd kv) d) other d.

(** The truth value of [d.get(k)]. *)
Definition truthy (v : option value) : bool :=
  match v with
  | None => false
  | Some (VText s) => nonempty s
  | Some (VNames l) => match l with [] => false | _ :: _ => true end
  | Some (VStamp _) => true
  | Some (VList items) => match items with [] => false | _ :: _ => true end
  | Some (VTime t) => nonzero t
  | Some (VInt n) => negb (n =? 0)%nat
  | Some (VInfos l) => match l with [] => false | _ :: _ => true end
  end.

(** What [file_manager.save_query_log] answers for a dictionary. *)
Variable file_save : dict -> bool * string.

(** The dictionary [execute_query] returns (source lines 46-50 of
    [query_executor.py]). *)
Definition result_dict (r : run_result Time) : dict :=
  [("exec_time", VTime (run_exec_time r));
   ("total_rows", VInt (run_total_rows r));
   ("databases_info", VInfos (run_databases_info r))].

(** The state of the application the run of a query reads or writes. *)
Record app : Type := mkApp {
  query_running : bool;
  current_query : option dict;
  queue : list app_message;
  db_server : DB;
  connections : list string;
  history_manager : manager Stamp Disk;
  main_ui : widgets;
  viewer : list viewer_item;
  calls : list outside_call
}.

Definition post (m : app_message) (c : app) : app :=
  mkApp (query_running c) (current_query c) (queue c ++ [m]) (db_server c)
        (connections c) (history_manager c) (main_ui c) (viewer c) (calls c).

Definition call (o : outside_call) (c : app) : app :=
  mkApp (query_running c) (current_query c) (queue c) (db_server c)
        (connections c) (history_manager c) (main_ui c) (viewer c)
        (calls c ++ [o]).

Definition set_viewer (v : list viewer_item) (c : app) : app :=
  mkApp (query_running c) (current_query c) (queue c) (db_server c)
        (connections c) (history_manager c) (main_ui c) v (calls c).

Definition set_running (is_running : bool) (c : app) : app :=
  mkApp is_running (current_query c) (queue c) (db_server c)
        (connections c) (history_manager c)
        (set_query_running_state is_running (main_ui c)) (viewer c) (calls c).

(** [start_query_thread(selected_databases, query)] up to the start of
    the thread (source lines 145-190): the state it leaves, and whether
    the thread is started.  [confirm] is the answer to the dialog,
    [start_time] and [now] are the two readings of the clock. *)
Definition start_query_thread (selected_databases : list string)
    (query : str) (confirm : bool) (start_time now : Stamp) (c : app)
    : app * bool :=
  if query_running c then
    (call (ShowWarning "Wait" "Query already running") c, false)
  else
    match selected_databases with
    | [] =>
        (call (ShowWarning "Selection Error" "Select at least one database.")
              c, false)
    | _ :: _ =>
        if negb (nonempty (strip query)) then
          (call (ShowWarning "Input Error" "Enter a SQL query.") c, false)
        else
          let asked := contains_dangerous_sql query in
          let c :=
            if asked then call (AskYesNo "Confirm Destructive Query") c
            else c in
          if asked && negb confirm then (c, false)
          else
            let current :=
              [("query", VText query);
               ("databases", VNames selected_databases);
               ("start_time", VStamp start_time);
               ("results", VList [])] in
            let c :=
              mkApp (query_running c) (Some current) (queue c) (db_server c)
                    (connections c)
                    (add_query Stamp Disk dump now query (history_manager c))
                    (main_ui c) (viewer c) (calls c) in
            let c := set_running true c in
            let c := set_viewer [] c in
            let c := set_viewer (viewer c ++ [StatusLine "Executing query..."])
                                c in
            (c, true)
    end.

(** The [except] branch of the thread body (source lines 199-201). *)
Definition failed (text : string) (c : app) : app :=
  post (MsgDone "Query execution failed")
       (post (MsgError ("Query execution failed: " ++ text)) c).

(** [_execute_query_thread(databases, query)] (source lines 192-201).
    The executor never reads the queue, so it is run on an empty one and
    what it puts is appended to the queue of the application. *)
Definition _execute_query_thread (databases : list string) (query : str)
    (c : app) : app :=
  let '(w, outcome) :=
    execute_query DB Time time_now time_sub fmt3 now_text connect execute
                  databases (QueryText query)
                  (mkWorld (db_server c) [] (connections c)) in
  let c :=
    mkApp (query_running c) (current_query c)
          (queue c ++ map FromExecutor (message_queue w))
          (server w) (connection_log w) (history_manager c) (main_ui c)
          (viewer c) (calls c) in
  match outcome with
  | Ok result =>
      match current_query c with
      | Some d =>
          let c :=
            mkApp (query_running c)
                  (Some (dict_update d (result_dict result)))
                  (queue c) (db_server c) (connections c)
                  (history_manager c) (main_ui c) (viewer c) (calls c) in
          post MsgEnableLogButton
               (post (MsgDone "Query execution completed") c)
      | None => failed "'NoneType' object has no attribute 'update'" c
      end
  | Raise e => failed (exn_text e) c
  end.

(** [handle_error_message(msg)] (source lines 261-266). *)
Definition handle_error_message (msg : string) (c : app) : app :=
  if query_running c then set_viewer (viewer c ++ [ErrorLine msg]) c
  else call (ConnectionShowError msg) c.

(** [handle_success_message(msg)] (source lines 255-259). *)
Definition handle_success_message (msg : string) (c : app) : app :=
  call AfterSwitchToMainUi (call (ConnectionShowSuccess msg) c).

(** The body of the loop of [check_queue] (source lines 232-248). *)
Definition handle (c : app) (m : app_message) : app :=
  match m with
  | MsgEnableLogButton =>
      mkApp (query_running c) (current_query c) (queue c) (db_server c)
            (connections c) (history_manager c)
            (enable_save_log_button (main_ui c)) (viewer c) (calls c)
  | MsgSuccess msg => handle_success_message msg c
  | MsgError msg => handle_error_message msg c
  | FromExecutor (ExecutionSummary summary) =>
      set_viewer [SummaryText summary] c
  | FromExecutor (ResultMessage result) =>
      set_viewer (viewer c ++ [ResultText result]) c
  | FromExecutor (StatusConnecting db) =>
      set_viewer (viewer c ++ [ConnectingLine db]) c
  | MsgDone _ => set_running false c
  end.

(** [check_queue()] (source lines 228-253): every message on the queue
    is handled, in order. *)
Definition check_queue (c : app) : app :=
  fold_left handle (queue c)
    (mkApp (query_running c) (current_query c) [] (db_server c)
           (connections c) (history_manager c) (main_ui c) (viewer c)
           (calls c)).

(** [save_query_log()] (source lines 204-215). *)
Definition save_query_log (c : app) : result app :=
  match current_query c with
  | None => Raise (OtherError "'NoneType' object has no attribute 'get'")
  | Some d =>
      if negb (truthy (dict_get "results" d)) then
        Ok (call (ShowWarning "No Results" "No query results to save") c)
      else
        let '(success, message) := file_save d in
        if success then Ok (call (ShowInfo "Success" message) c)
        else Ok (call (ShowErrorBox "Error" message) c)
  end.

(** A query from the button to the drained queue: the thread is started,
    runs to its end, and the queue is checked. *)
Definition run_to_completion (selected_databases : list string)
    (query : str) (confirm : bool) (start_time now : Stamp) (c : app)
    : app :=
  let '(c, started) :=
    start_query_thread selected_databases query confirm start_time now c in
  if started then check_queue (_execute_query_thread selected_databases query c)
  else c.

End App.

Arguments mkApp {DB Time Stamp Disk}.
Arguments query_running {DB Time Stamp Disk}.
Arguments current_query {DB Time Stamp Disk}.
Arguments queue {DB Time Stamp Disk}.
Arguments db_server {DB Time Stamp Disk}.
Arguments connections {DB Time Stamp Disk}.
Arguments history_manager {DB Time Stamp Disk}.
Arguments main_ui {DB Time Stamp Disk}.
Arguments viewer {DB Time Stamp Disk}.
Arguments calls {DB Time Stamp Disk}.
Arguments VText {Time Stamp}.
Arguments VNames {Time Stamp}.
Arguments VStamp {Time Stamp}.
Arguments VList {Time Stamp}.
Arguments VTime {Time Stamp}.
Arguments VInt {Time Stamp}.
Arguments VInfos {Time Stamp}.
Arguments dict_get {Time Stamp}.
Arguments dict_set {Time Stamp}.
Arguments dict_update {Time Stamp}.
Arguments result_dict {Time Stamp}.
Arguments post {DB Time Stamp Disk}.
Arguments call {DB Time Stamp Disk}.

End Controller.

(** ** An application to run the controller on *)

Module DemoApp.

Import Fmt Executor Demo History Controller.
Local Open Scope string_scope.
Local Open Scope list_scope.

(** Stamps are numbers, the disk holds nothing, no query is held to be
    dangerous, and the file manager always answers that it saved. *)
Definition demo_dump (h : list (nat * str)) (d : unit) : unit := d.
Definition demo_dangerous (query : str) : bool := false.
Definition demo_nonzero (t : nat) : bool := negb (t =? 0)%nat.
Definition demo_file_save (d : dict nat nat) : bool * string :=
  (true, "saved").

Definition demo_app : app nat nat nat unit :=
  mkApp false None [] 0 [] (mkManager [] tt) (mkWidgets true false true)
        [] [].

Definition demo_start :=
  start_query_thread nat nat nat unit demo_dump demo_dangerous.

Definition demo_thread :=
  _execute_query_thread nat nat (fun s => s) Nat.sub demo_fmt3 demo_now_text
                        demo_connect demo_execute nat unit.

Definition demo_run_to_completion :=
  run_to_completion nat nat (fun s => s) Nat.sub demo_fmt3 demo_now_text
                    demo_connect demo_execute nat unit demo_dump
                    demo_dangerous.

Definition demo_save_query_log :=
  save_query_log nat nat nat unit demo_nonzero demo_file_save.

End DemoApp.

(** ** Connections: [app/database/connection.py] *)

Module Connection.

Import Executor.
Local Open Scope string_scope.
Local Open Scope list_scope.

(** The calls into the driver that went through. *)
Inductive driver_call : Type :=
| Opened (database : string)     (* pyodbc.connect returned a connection *)
| Ran (sql : string)             (* cursor.execute(sql) was called *)
| Fetched                        (* cursor.fetchone() was called *)
| Closed.                        (* conn.close() was called *)

Definition is_opened (c : driver_call) : bool :=
  match c with Opened _ => true | _ => false end.

Definition is_closed (c : driver_call) : bool :=
  match c with Closed => true | _ => false end.

Section Manager.

(** The state of the server, the dictionary [current_server], and what
    the driver does: each call gives the next state of the server and the
    exception it raises, if any.  [cursor_execute] stands for
    [conn.cursor()] followed by [cursor.execute(sql)]. *)
Variable DB : Type.
Variable Config : Type.
Variable pyodbc_connect : Config -> string -> DB -> DB * option raised.
Variable cursor_execute : string -> DB -> DB * option raised.
Variable cursor_fetchone : DB -> DB * option raised.
Variable conn_close : DB -> DB * option raised.

Record db_manager : Type := mkDbManager {
  current_server : option Config;
  db : DB;
  driver_calls : list driver_call
}.

Definition with_db (s : DB) (m : db_manager) : db_manager :=
  mkDbManager (current_server m) s (driver_calls m).

Definition logged (c : driver_call) (m : db_manager) : db_manager :=
  mkDbManager (current_server m) (db m) (driver_calls m ++ [c]).

(** [set_server_config(server, username, password)] *)
Definition set_server_config (config : Config) (m : db_manager)
    : db_manager :=
  mkDbManager (Some config) (db m) (driver_calls m).

(** [with self.database_connection(database) as conn: body] (source
    lines 9-26): the configuration is checked, the connection is opened,
    the body runs, and the [finally] clause closes the connection when
    one was opened; an exception of [close] replaces the outcome of the
    body. *)
Definition database_connection {A} (database : string)
    (body : db_manager -> db_manager * result A) (m : db_manager)
    : db_manager * result A :=
  match current_server m with
  | None => (m, Raise (ValueError "No server configuration available"))
  | Some config =>
      let '(s, e) := pyodbc_connect config database (db m) in
      match e with
      | Some e => (with_db s m, Raise (to_exn e))
      | None =>
          let m := logged (Opened database) (with_db s m) in
          let '(m, outcome) := body m in
          let '(s, e) := conn_close (db m) in
          let m := logged Closed (with_db s m) in
          match e with
          | Some e => (m, Raise (to_exn e))
          | None => (m, outcome)
          end
      end
  end.

(** The body of the [with] statement of [test_connection] (source lines
    38-41). *)
Definition test_body (m : db_manager) : db_manager * result (bool * string) :=
  let '(s, e) := cursor_execute "SELECT 1" (db m) in
  let m := logged (Ran "SELECT 1") (with_db s m) in
  match e with
  | Some e => (m, Raise (to_exn e))
  | None =>
      let '(s, e) := cursor_fetchone (db m) in
      let m := logged Fetched (with_db s m) in
      match e with
      | Some e => (m, Raise (to_exn e))
      | None => (m, Ok (true, "Connected successfully"))
      end
  end.

(** [test_connection()] (source lines 35-43). *)
Definition test_connection (m : db_manager) : db_manager * (bool * string) :=
  match database_connection "master" test_body m with
  | (m, Ok r) => (m, r)
  | (m, Raise e) => (m, (false, exn_text e))
  end.

End Manager.

Arguments mkDbManager {DB Config}.
Arguments current_server {DB Config}.
Arguments db {DB Config}.
Arguments driver_calls {DB Config}.

End Connection.

(** ** What a statement leaves in the record of its target *)

Module RunSpec.

Import Fmt Executor ExecSpec.
Local Open Scope string_scope.
Local Open Scope list_scope.

(** The exception the handling of a statement ends with: that of
    [execute], of the first [nextset] that fails, or of [commit]. *)
Definition raised_by (r : reaction) : option raised :=
  match r with
  | ExecuteRaises e => Some e
  | Executed _ rest =>
      match nextset_error rest with
      | Some e => Some e
      | None => commit_error_of rest
      end
  end.

(** Whether the results of the statement were formatted: [execute] and
    every [nextset] went through. *)
Definition formatted (r : reaction) : bool :=
  match r with
  | ExecuteRaises _ => false
  | Executed _ rest =>
      match nextset_error rest with Some _ => false | None => true end
  end.

(** The result sets of the statement that are kept once formatted. *)
Definition kept_sets (r : reaction) : list collected :=
  match r with
  | ExecuteRaises _ => []
  | Executed rs rest =>
      match nextset_error rest with
      | Some _ => []
      | None => flat_map kept (rs :: sets_after rest)
      end
  end.

(** The block of the kept result set at position [j] (from 0): a rows
    block for a result set with columns, numbered when [many] are kept;
    for one without, the rows-affected block when the count is positive
    and the command-completed block otherwise. *)
Definition block_of (db : string) (i : nat) (many : bool) (j : nat)
    (c : collected) : block :=
  match c with
  | WithColumns d data =>
      RowsBlock d data db i (if many then Some (j + 1) else None)
  | CountOnly data =>
      if (data >? 0)%Z then AffectedBlock db i data else CompletedBlock db i
  end.

(** The rows a kept result set shows. *)
Definition rows_of (c : collected) : nat :=
  match c with
  | WithColumns _ data => length data
  | CountOnly _ => 0
  end.

(** The elements of a list with their positions, counted from [i]. *)
Definition numbered {A} (i : nat) (l : list A) : list (nat * A) :=
  combine (seq i (length l)) l.

(** The blocks of the kept result sets of a statement, in order; the
    single command-completed block when none is kept. *)
Definition result_blocks (db : string) (i : nat) (cs : list collected)
    : list block :=
  match cs with
  | [] => [CompletedBlock db i]
  | _ :: _ =>
      map (fun jc => block_of db i (1 <? length cs)%nat (fst jc) (snd jc))
          (numbered 0 cs)
  end.

(** The blocks recorded before any exception of the statement. *)
Definition kept_blocks (db : string) (i : nat) (r : reaction) : list block :=
  if formatted r then result_blocks db i (kept_sets r) else [].

(** The rows the statement adds to the total of its target. *)
Definition statement_rows (r : reaction) : nat :=
  list_sum (map rows_of (kept_sets r)).

(** What a statement that raises nothing or a database error leaves in
    the results and in the error list of its target. *)
Definition statement_blocks (db : string) (i : nat) (r : reaction)
    : list block :=
  kept_blocks db i r
  ++ match raised_by r with
     | Some e => [StatementErrorBlock db i (text e)]
     | None => []
     end.

Definition statement_errors (i : nat) (r : reaction) : list string :=
  match raised_by r with
  | Some e => [("Statement " ++ str_of_nat i ++ ": " ++ text e)%string]
  | None => []
  end.

(** The statement raises nothing, or a [pyodbc.DatabaseError]. *)
Definition database_error_or_none (r : reaction) : bool :=
  match raised_by r with
  | Some e => is_database_error e
  | None => true
  end.

(** The accumulators with rows, error messages, statements and blocks
    added. *)
Definition acc_plus (a : acc) (rows : nat) (errs : list string) (n : nat)
    (blocks : list block) : acc :=
  mkAcc (db_total_rows a + rows) (db_errors a ++ errs)
        (db_statement_count a + n) (db_results a ++ blocks).

Section Loop.

Variable DB : Type.
Variable execute : string -> str -> DB -> DB * reaction.

(** The reactions of the driver when every statement of the list is
    executed in turn, and the server at the end. *)
Fixpoint reactions (db : string) (statements : list str) (s : DB)
    : list reaction :=
  match statements with
  | [] => []
  | statement :: more =>
      let '(s1, r) := execute db statement s in r :: reactions db more s1
  end.

Fixpoint server_after (db : string) (statements : list str) (s : DB) : DB :=
  match statements with
  | [] => s
  | statement :: more => server_after db more (fst (execute db statement s))
  end.

End Loop.

End RunSpec.

(** * Properties *)

(** ** Strings *)

Module PyStrFacts.

Lemma getitem_ok (s : str) (n : nat) :
  n < length s -> exists c, getitem s n = Ok c /\ nth_error s n = Some c.
Proof.
  intros H. unfold getitem.
  destruct (nth_error s n) as [c|] eqn:E.
  - exists c. split; reflexivity.
  - apply nth_error_None in E. lia.
Qed.

Lemma lstrip_spaces (s : str) : forallb isspace s = true -> lstrip s = [].
Proof.
  induction s as [|c s IH]; simpl; intros H; [reflexivity|].
  apply andb_true_iff in H as [Hc Hs]. rewrite Hc. auto.
Qed.

Lemma strip_spaces (s : str) : forallb isspace s = true -> strip s = [].
Proof.
  intros H. unfold strip. rewrite (lstrip_spaces _ H). reflexivity.
Qed.

End PyStrFacts.

(** ** Trimming *)

Module StripFacts.

Lemma wsprefix_lstrip (s : str) : s = wsprefix s ++ lstrip s.
Proof.
  induction s as [|c s IH]; [reflexivity|]. cbn [wsprefix lstrip].
  destruct (isspace c); [cbn [app]; f_equal; exact IH|reflexivity].
Qed.

Lemma wsprefix_blank (s : str) : blank (wsprefix s) = true.
Proof.
  induction s as [|c s IH]; [reflexivity|]. cbn [wsprefix].
  destruct (isspace c) eqn:E; [|reflexivity].
  unfold blank. cbn [forallb]. rewrite E. exact IH.
Qed.

Lemma lstrip_head (s : str) :
  match lstrip s with [] => True | c :: _ => isspace c = false end.
Proof.
  induction s as [|c s IH]; [exact I|]. cbn [lstrip].
  destruct (isspace c) eqn:E; [exact IH|exact E].
Qed.

Lemma blank_app (a b : str) : blank (a ++ b) = blank a && blank b.
Proof. apply forallb_app. Qed.

Lemma blank_cons (c : ascii) (a : str) : blank (c :: a) = isspace c && blank a.
Proof. reflexivity. Qed.

Lemma blank_rev (a : str) : blank (rev a) = blank a.
Proof.
  induction a as [|c a IH]; [reflexivity|]. cbn [rev].
  rewrite blank_app, IH, blank_cons. cbn [blank forallb].
  rewrite andb_true_r. apply andb_comm.
Qed.

Lemma lstrip_blank (w : str) : blank w = true -> lstrip w = [].
Proof. exact (PyStrFacts.lstrip_spaces w). Qed.

Lemma lstrip_app_blank (w s : str) : blank w = true -> lstrip (w ++ s) = lstrip s.
Proof.
  induction w as [|c w IH]; intros H; [reflexivity|].
  rewrite blank_cons in H. apply andb_true_iff in H as [Hc Hw].
  cbn [app lstrip]. rewrite Hc. exact (IH Hw).
Qed.

Lemma lstrip_app (a b : str) :
  lstrip (a ++ b) = if blank a then lstrip b else lstrip a ++ b.
Proof.
  induction a as [|c a IH]; [reflexivity|].
  rewrite blank_cons. cbn [app lstrip].
  destruct (isspace c); [exact IH|reflexivity].
Qed.

Lemma lstrip_blank_inv (s : str) : lstrip s = [] -> blank s = true.
Proof.
  induction s as [|c s IH]; [reflexivity|]. cbn [lstrip]. rewrite blank_cons.
  destruct (isspace c); [exact IH|discriminate].
Qed.

Lemma rstrip_app_blank (s w : str) : blank w = true -> rstrip (s ++ w) = rstrip s.
Proof.
  intros H. unfold rstrip. rewrite rev_app_distr, lstrip_app_blank; [reflexivity|].
  rewrite blank_rev. exact H.
Qed.

Lemma rstrip_blank (w : str) : blank w = true -> rstrip w = [].
Proof.
  intros H. unfold rstrip. rewrite lstrip_blank; [reflexivity|].
  rewrite blank_rev. exact H.
Qed.

(** A text is its right-trimmed part followed by whitespace. *)
Lemma rstrip_split (s : str) :
  exists w, s = rstrip s ++ w /\ blank w = true.
Proof.
  exists (rev (wsprefix (rev s))). split.
  - unfold rstrip. rewrite <- rev_app_distr, <- wsprefix_lstrip, rev_involutive.
    reflexivity.
  - rewrite blank_rev. apply wsprefix_blank.
Qed.

Lemma rstrip_cons (c : ascii) (s : str) :
  isspace c = false -> exists s', rstrip (c :: s) = c :: s'.
Proof.
  intros Hc. unfold rstrip. cbn [rev]. rewrite lstrip_app.
  destruct (blank (rev s)).
  - cbn [lstrip]. rewrite Hc. exists []. reflexivity.
  - rewrite rev_app_distr. cbn [rev app]. eauto.
Qed.

Lemma rstrip_last (s : str) :
  match rev (rstrip s) with [] => True | c :: _ => isspace c = false end.
Proof. unfold rstrip. rewrite rev_involutive. apply lstrip_head. Qed.

Lemma rstrip_idem (s : str) : rstrip (rstrip s) = rstrip s.
Proof.
  pose proof (rstrip_last s) as H. unfold rstrip at 1.
  destruct (rev (rstrip s)) as [|c r] eqn:E.
  - cbn [lstrip rev]. apply (f_equal (@rev ascii)) in E.
    rewrite rev_involutive in E. symmetry. exact E.
  - cbn [lstrip]. rewrite H. rewrite <- E. apply rev_involutive.
Qed.

Lemma strip_app_blank_l (w s : str) : blank w = true -> strip (w ++ s) = strip s.
Proof. intros H. unfold strip. rewrite lstrip_app_blank by exact H. reflexivity. Qed.

Lemma strip_app_blank_r (s w : str) : blank w = true -> strip (s ++ w) = strip s.
Proof.
  intros H. unfold strip. rewrite lstrip_app.
  destruct (blank s) eqn:E.
  - rewrite (lstrip_blank _ H), (lstrip_blank _ E). reflexivity.
  - apply rstrip_app_blank. exact H.
Qed.

Lemma strip_blank (w : str) : blank w = true -> strip w = [].
Proof. exact (PyStrFacts.strip_spaces w). Qed.

Lemma strip_idem (s : str) : strip (strip s) = strip s.
Proof.
  unfold strip.
  pose proof (lstrip_head s) as H.
  destruct (lstrip s) as [|c l] eqn:E; [reflexivity|].
  destruct (rstrip_cons c l H) as (s' & Hs).
  rewrite Hs at 1. cbn [lstrip]. rewrite H, <- Hs. apply rstrip_idem.
Qed.

(** A text is whitespace, its trimmed part, whitespace. *)
Lemma strip_split (s : str) :
  exists w1 w2, s = w1 ++ strip s ++ w2 /\ blank w1 = true /\ blank w2 = true.
Proof.
  destruct (rstrip_split (lstrip s)) as (w2 & H2 & Hw2).
  exists (wsprefix s), w2. repeat split.
  - unfold strip. rewrite <- H2. apply wsprefix_lstrip.
  - apply wsprefix_blank.
  - exact Hw2.
Qed.

Lemma strip_nonblank (s : str) : blank s = false -> nonempty (strip s) = true.
Proof.
  intros H. unfold strip.
  pose proof (lstrip_head s) as Hh.
  destruct (lstrip s) as [|c l] eqn:E.
  - apply lstrip_blank_inv in E. congruence.
  - destruct (rstrip_cons c l Hh) as (s' & ->). reflexivity.
Qed.

Lemma unit_of_app_blank_r (p w : str) :
  blank w = true -> unit_of (p ++ w) = unit_of p.
Proof. intros H. unfold unit_of. rewrite strip_app_blank_r by exact H. reflexivity. Qed.

Lemma unit_of_app_blank_l (w p : str) :
  blank w = true -> unit_of (w ++ p) = unit_of p.
Proof. intros H. unfold unit_of. rewrite strip_app_blank_l by exact H. reflexivity. Qed.

Lemma unit_of_blank (w : str) : blank w = true -> unit_of w = [].
Proof. intros H. unfold unit_of. rewrite strip_blank by exact H. reflexivity. Qed.

End StripFacts.

(** ** The matcher *)

Module ReFacts.

Lemma ahead_step (c : ascii) (m b a : str) (e : pos) :
  ahead m (c :: b) a e -> ahead (c :: m) b (c :: a) e.
Proof.
  intros [H1 H2]. split.
  - rewrite H1. cbn [rev]. rewrite <- app_assoc. reflexivity.
  - rewrite H2. reflexivity.
Qed.

Lemma star_greedy_ahead (p : ascii -> bool) (b a : str) (e : pos) :
  In e (star_greedy p b a) -> exists m, ahead m b a e.
Proof.
  revert b. induction a as [|c a IH]; intros b H; cbn [star_greedy] in H.
  - destruct H as [<-|[]]. exists []. split; reflexivity.
  - destruct (p c).
    + apply in_app_or in H as [H|[<-|[]]].
      * destruct (IH _ H) as (m & Hm). exists (c :: m).
        apply ahead_step. exact Hm.
      * exists []. split; reflexivity.
    + destruct H as [<-|[]]. exists []. split; reflexivity.
Qed.

Lemma star_lazy_ahead (p : ascii -> bool) (b a : str) (e : pos) :
  In e (star_lazy p b a) -> exists m, ahead m b a e.
Proof.
  revert b. induction a as [|c a IH]; intros b H; cbn [star_lazy] in H.
  - destruct H as [<-|[]]. exists []. split; reflexivity.
  - destruct H as [<-|H]; [exists []; split; reflexivity|].
    destruct (p c); [|destruct H].
    destruct (IH _ H) as (m & Hm). exists (c :: m).
    apply ahead_step. exact Hm.
Qed.

(** Every match consumes a stretch of the text after the start position,
    at least [minlen r] characters long. *)
Lemma matches_ahead (r : re) (b a : str) (e : pos) :
  In e (matches r (b, a)) ->
  exists m, ahead m b a e /\ minlen r <= length m.
Proof.
  revert b a e.
  induction r as [|p|r1 IH1 r2 IH2|r1 IH1 r2 IH2|p|p|p| | |];
    intros b a e H; cbn [matches minlen] in *.
  - destruct H as [<-|[]]. exists []. repeat split. cbn. lia.
  - destruct a as [|c a]; [destruct H|].
    destruct (p c); [|destruct H]. destruct H as [<-|[]].
    exists [c]. repeat split. cbn. lia.
  - apply in_flat_map in H as ([b1 a1] & H1 & H2).
    destruct (IH1 _ _ _ H1) as (m1 & [E1 E1'] & L1).
    destruct (IH2 _ _ _ H2) as (m2 & [E2 E2'] & L2).
    cbn [fst snd] in *. exists (m1 ++ m2). repeat split.
    + rewrite E2, E1, rev_app_distr, app_assoc. reflexivity.
    + rewrite E1', E2', app_assoc. reflexivity.
    + rewrite length_app. lia.
  - apply in_app_or in H as [H|H].
    + destruct (IH1 _ _ _ H) as (m & Hm & L). exists m. split; [exact Hm|lia].
    + destruct (IH2 _ _ _ H) as (m & Hm & L). exists m. split; [exact Hm|lia].
  - destruct (star_greedy_ahead _ _ _ _ H) as (m & Hm).
    exists m. split; [exact Hm|lia].
  - destruct a as [|c a]; [destruct H|].
    destruct (p c); [|destruct H].
    destruct (star_greedy_ahead _ _ _ _ H) as (m & Hm).
    exists (c :: m). split; [apply ahead_step; exact Hm|cbn; lia].
  - destruct (star_lazy_ahead _ _ _ _ H) as (m & Hm).
    exists m. split; [exact Hm|lia].
  - destruct (at_bol b); [|destruct H]. destruct H as [<-|[]].
    exists []. repeat split. cbn. lia.
  - destruct (at_eol a); [|destruct H]. destruct H as [<-|[]].
    exists []. repeat split. cbn. lia.
  - destruct (at_wordb b a); [|destruct H]. destruct H as [<-|[]].
    exists []. repeat split. cbn. lia.
Qed.

Lemma match_at_ahead (r : re) (b a : str) (e : pos) :
  match_at r (b, a) = Some e ->
  exists m, ahead m b a e /\ minlen r <= length m.
Proof.
  unfold match_at. intros H. apply matches_ahead.
  destruct (matches r (b, a)); [discriminate|].
  injection H as ->. left. reflexivity.
Qed.

(** Passing over the rest of a match. *)
Lemma split_from_skip (r : re) (m piece b a : str) :
  split_from r (length m) piece b (m ++ a)
  = split_from r 0 piece (rev m ++ b) a.
Proof.
  revert b. induction m as [|c m IH]; intros b; [reflexivity|].
  cbn [length app split_from rev]. rewrite IH, <- app_assoc. reflexivity.
Qed.

(** After a non-empty match the piece read so far is emitted and the scan
    goes on from the end of the match with an empty piece. *)
Lemma split_from_match (r : re) (piece b a : str) (e : pos) :
  0 < minlen r -> match_at r (b, a) = Some e ->
  split_from r 0 piece b a
  = rev piece :: split_from r 0 [] (fst e) (snd e).
Proof.
  intros Hr H. destruct (match_at_ahead r b a e H) as (m & [E1 E2] & L).
  destruct m as [|c m]; [cbn in L; lia|].
  subst a. cbn [app] in *. cbn [split_from]. rewrite H.
  unfold index. rewrite E1, length_app, length_rev.
  replace (length (c :: m) + length b - length b) with (S (length m))
    by (cbn [length]; lia).
  rewrite split_from_skip. cbn [rev]. rewrite <- app_assoc. reflexivity.
Qed.

(** With no match at the position the character is added to the piece. *)
Lemma split_from_no_match (r : re) (piece b : str) (c : ascii) (a : str) :
  match_at r (b, c :: a) = None ->
  split_from r 0 piece b (c :: a) = split_from r 0 (c :: piece) (c :: b) a.
Proof.
  intros H. cbn [split_from]. unfold pos in *. rewrite H. reflexivity.
Qed.

Lemma hd_error_app {A} (l1 l2 : list A) :
  hd_error (l1 ++ l2)
  = match hd_error l1 with Some x => Some x | None => hd_error l2 end.
Proof. destruct l1; reflexivity. Qed.

(** A greedy repetition followed by something that cannot start with a
    character of the class: only the longest repetition matters. *)
Lemma star_greedy_then (p : ascii -> bool) (f : pos -> list pos) (b a : str) :
  (forall b' c a', p c = true -> f (b', c :: a') = []) ->
  flat_map f (star_greedy p b a) = skip_class p f b a.
Proof.
  intros Hf. revert b. induction a as [|c a IH]; intros b;
    cbn [star_greedy skip_class].
  - cbn [flat_map]. apply app_nil_r.
  - destruct (p c) eqn:E.
    + rewrite flat_map_app, IH. cbn [flat_map].
      rewrite (Hf b c a E). rewrite !app_nil_r. reflexivity.
    + cbn [flat_map]. apply app_nil_r.
Qed.

Lemma skip_class_app (p : ascii -> bool) (f : pos -> list pos) (w b a : str) :
  forallb p w = true ->
  skip_class p f b (w ++ a) = skip_class p f (rev w ++ b) a.
Proof.
  revert b. induction w as [|c w IH]; intros b H; [reflexivity|].
  cbn [forallb] in H. apply andb_true_iff in H as [Hc Hw].
  cbn [app skip_class rev]. rewrite Hc, (IH _ Hw), <- app_assoc. reflexivity.
Qed.

End ReFacts.

(** ** The batch-separator pattern *)

Module GoFacts.

Import StripFacts ReFacts.

Lemma isspace_nl : isspace nl = true.
Proof. reflexivity. Qed.

Lemma upper_is_G (c : ascii) : Ascii.eqb (upper_char c) "G" = ci "G" c.
Proof. destruct c as [[] [] [] [] [] [] [] []]; reflexivity. Qed.

Lemma upper_is_O (c : ascii) : Ascii.eqb (upper_char c) "O" = ci "O" c.
Proof. destruct c as [[] [] [] [] [] [] [] []]; reflexivity. Qed.

Lemma ci_G_not_space (c : ascii) : ci "G" c = true -> isspace c = false.
Proof.
  destruct c as [[] [] [] [] [] [] [] []]; intros H;
    solve [reflexivity | discriminate H].
Qed.

Lemma ci_O_not_space (c : ascii) : ci "O" c = true -> isspace c = false.
Proof.
  destruct c as [[] [] [] [] [] [] [] []]; intros H;
    solve [reflexivity | discriminate H].
Qed.

Lemma space_not_ci_G (c : ascii) : isspace c = true -> ci "G" c = false.
Proof.
  intros H. destruct (ci "G" c) eqn:E; [|reflexivity].
  apply ci_G_not_space in E. congruence.
Qed.

Lemma not_space_not_nl (c : ascii) : isspace c = false -> Ascii.eqb c nl = false.
Proof.
  intros H. destruct (Ascii.eqb_spec c nl) as [->|]; [|reflexivity].
  discriminate H.
Qed.

(** *** Separator lines *)

Lemma go_line_intro (w w' : str) (g o : ascii) :
  blank w = true -> blank w' = true -> ci "G" g = true -> ci "O" o = true ->
  is_go_line (w ++ g :: o :: w') = true.
Proof.
  intros Hw Hw' Hg Ho. unfold is_go_line.
  rewrite strip_app_blank_l by exact Hw.
  change (g :: o :: w') with ([g; o] ++ w').
  rewrite strip_app_blank_r by exact Hw'.
  unfold strip. cbn [lstrip]. rewrite (ci_G_not_space g Hg).
  unfold rstrip. cbn [rev app lstrip]. rewrite (ci_O_not_space o Ho).
  cbn [rev app upper map PyStr.eqb].
  change (s2l "GO") with ["G"; "O"]%char. cbn [PyStr.eqb].
  rewrite upper_is_G, upper_is_O, Hg, Ho. reflexivity.
Qed.

Lemma go_line_elim (l : str) :
  is_go_line l = true ->
  exists w g o w',
    l = w ++ g :: o :: w' /\ blank w = true /\ blank w' = true
    /\ ci "G" g = true /\ ci "O" o = true.
Proof.
  unfold is_go_line. intros H.
  destruct (strip_split l) as (w1 & w2 & El & H1 & H2).
  change (s2l "GO") with ["G"; "O"]%char in H.
  destruct (strip l) as [|g [|o [|x t]]]; cbn [upper map PyStr.eqb] in H.
  - discriminate H.
  - rewrite andb_false_r in H. discriminate H.
  - rewrite upper_is_G, upper_is_O in H.
    apply andb_true_iff in H as [Hg H]. apply andb_true_iff in H as [Ho _].
    exists w1, g, o, w2. repeat split; assumption.
  - rewrite !andb_false_r in H. discriminate H.
Qed.

Lemma blank_not_go_line (l : str) : blank l = true -> is_go_line l = false.
Proof. intros H. unfold is_go_line. rewrite strip_blank by exact H. reflexivity. Qed.

(** *** The pattern at the start of a line *)

Lemma go_re_unfold :
  go_re = Seq Bol (Seq (Star ws) go_after_ws).
Proof. reflexivity. Qed.

Lemma go_not_bol (b a : str) : at_bol b = false -> matches go_re (b, a) = [].
Proof. intros H. rewrite go_re_unfold. cbn [matches]. rewrite H. reflexivity. Qed.

Lemma go_after_ws_eq (b a : str) :
  matches go_after_ws (b, a)
  = match a with
    | g :: o :: a2 =>
        if ci "G" g && ci "O" o then matches go_tail (o :: g :: b, a2) else []
    | _ => []
    end.
Proof.
  unfold go_after_ws.
  change (word "GO") with (Seq (Chr (ci "G")) (Chr (ci "O"))).
  cbn [matches]. destruct a as [|g [|o a2]]; cbn [flat_map]; try reflexivity.
  - destruct (ci "G" g); reflexivity.
  - destruct (ci "G" g); [|reflexivity]. cbn [flat_map app].
    destruct (ci "O" o); [|reflexivity]. cbn [flat_map app andb].
    rewrite !app_nil_r. reflexivity.
Qed.

Lemma go_after_ws_space (b : str) (c : ascii) (a : str) :
  ws c = true -> matches go_after_ws (b, c :: a) = [].
Proof.
  intros H. rewrite go_after_ws_eq. destruct a as [|o a2]; [reflexivity|].
  rewrite (space_not_ci_G c H). reflexivity.
Qed.

Lemma go_at_bol (b a : str) :
  at_bol b = true ->
  matches go_re (b, a) = skip_class ws (matches go_after_ws) b a.
Proof.
  intros H. rewrite go_re_unfold. cbn [matches]. rewrite H.
  cbn [flat_map]. rewrite app_nil_r.
  apply star_greedy_then. intros b' c a' Hc. apply go_after_ws_space. exact Hc.
Qed.

(** From the start of a blank line the pattern matches what it matches
    from the start of the next line. *)
Lemma go_blank_line (b l rest : str) :
  at_bol b = true -> blank l = true ->
  matches go_re (b, l ++ nl :: rest)
  = matches go_re (nl :: rev l ++ b, rest).
Proof.
  intros Hb Hl. rewrite (go_at_bol _ _ Hb), go_at_bol by reflexivity.
  change (l ++ nl :: rest) with (l ++ [nl] ++ rest). rewrite app_assoc.
  rewrite skip_class_app.
  - rewrite rev_app_distr. reflexivity.
  - fold (blank (l ++ [nl])). rewrite blank_app, Hl. reflexivity.
Qed.

(** *** The end of the pattern: whitespace up to an end of line *)

Lemma go_tail_nil (b : str) : matches go_tail (b, []) = [(b, [])].
Proof. reflexivity. Qed.

Lemma go_tail_space (b : str) (c : ascii) (a : str) :
  ws c = true ->
  matches go_tail (b, c :: a)
  = matches go_tail (c :: b, a)
    ++ (if Ascii.eqb c nl then [(b, c :: a)] else []).
Proof.
  intros H. unfold go_tail. cbn [matches star_greedy]. rewrite H.
  rewrite flat_map_app. cbn [flat_map matches at_eol].
  rewrite app_nil_r. reflexivity.
Qed.

Lemma go_tail_other (b : str) (c : ascii) (a : str) :
  ws c = false -> matches go_tail (b, c :: a) = [].
Proof.
  intros H. unfold go_tail. cbn [matches star_greedy]. rewrite H.
  cbn [flat_map matches at_eol]. rewrite (not_space_not_nl c H). reflexivity.
Qed.

Lemma go_tail_to_end (b w : str) :
  blank w = true -> hd_error (matches go_tail (b, w)) = Some (rev w ++ b, []).
Proof.
  revert b. induction w as [|c w IH]; intros b H; [reflexivity|].
  rewrite blank_cons in H. apply andb_true_iff in H as [Hc Hw].
  rewrite (go_tail_space b c w Hc), hd_error_app, (IH _ Hw).
  cbn [rev]. rewrite <- app_assoc. reflexivity.
Qed.

Lemma go_tail_same_line (b w : str) (x : ascii) (r : str) :
  blank w = true -> no_nl w = true -> ws x = false ->
  matches go_tail (b, w ++ x :: r) = [].
Proof.
  revert b. induction w as [|c w IH]; intros b Hw Hn Hx.
  - apply go_tail_other. exact Hx.
  - rewrite blank_cons in Hw. apply andb_true_iff in Hw as [Hc Hw].
    unfold no_nl in Hn. cbn [forallb] in Hn.
    apply andb_true_iff in Hn as [Hcn Hn].
    cbn [app]. rewrite (go_tail_space b c _ Hc), (IH _ Hw Hn Hx).
    apply negb_true_iff in Hcn. rewrite Hcn. reflexivity.
Qed.

Lemma go_tail_to_line_end (b u v : str) (x : ascii) (r : str) :
  blank u = true -> blank v = true -> no_nl v = true -> ws x = false ->
  hd_error (matches go_tail (b, u ++ nl :: v ++ x :: r))
  = Some (rev u ++ b, nl :: v ++ x :: r).
Proof.
  revert b. induction u as [|c u IH]; intros b Hu Hv Hn Hx.
  - cbn [app rev]. rewrite (go_tail_space b nl _ isspace_nl).
    rewrite (go_tail_same_line _ v x r Hv Hn Hx). reflexivity.
  - rewrite blank_cons in Hu. apply andb_true_iff in Hu as [Hc Hu].
    cbn [app]. rewrite (go_tail_space b c _ Hc), hd_error_app.
    rewrite (IH _ Hu Hv Hn Hx). cbn [rev]. rewrite <- app_assoc. reflexivity.
Qed.

(** *** Lines *)

Lemma join_cons (l : str) (rest : list str) :
  join [nl] (l :: rest) = l ++ tl_text rest.
Proof. destruct rest; [symmetry; apply app_nil_r|reflexivity]. Qed.

Lemma no_nl_app (a b : str) : no_nl (a ++ b) = no_nl a && no_nl b.
Proof. apply forallb_app. Qed.

Lemma no_nl_last (x : ascii) (l b : str) :
  no_nl (x :: l) = true -> at_bol (rev l ++ x :: b) = false.
Proof.
  revert x b. induction l as [|y l IH]; intros x b H.
  - unfold no_nl in H. cbn [forallb] in H. apply andb_true_iff in H as [H _].
    apply negb_true_iff in H. exact H.
  - cbn [rev]. rewrite <- app_assoc. cbn [app]. apply IH.
    unfold no_nl in *. cbn [forallb] in *.
    apply andb_true_iff in H as [_ H]. exact H.
Qed.

Lemma nonblank_split (l : str) :
  blank l = false ->
  exists v x r, l = v ++ x :: r /\ blank v = true /\ ws x = false.
Proof.
  intros H. pose proof (lstrip_head l) as Hh.
  destruct (lstrip l) as [|x r] eqn:E.
  - apply lstrip_blank_inv in E. congruence.
  - exists (wsprefix l), x, r. repeat split.
    + rewrite <- E. apply wsprefix_lstrip.
    + apply wsprefix_blank.
    + exact Hh.
Qed.

(** At the start of a separator line the pattern matches, and the match
    ends where the trailing whitespace reaches an end of line. *)
Lemma go_on_go_line (b w w' tail : str) (g o : ascii) :
  at_bol b = true -> blank w = true ->
  ci "G" g = true -> ci "O" o = true ->
  matches go_re (b, (w ++ g :: o :: w') ++ tail)
  = matches go_tail (o :: g :: rev w ++ b, w' ++ tail).
Proof.
  intros Hb Hw Hg Ho. rewrite (go_at_bol _ _ Hb), <- app_assoc.
  rewrite skip_class_app by exact Hw.
  cbn [app skip_class]. rewrite (ci_G_not_space g Hg).
  rewrite go_after_ws_eq, Hg, Ho. reflexivity.
Qed.

(** At the start of a line that is neither blank nor a separator the
    pattern does not match. *)
Lemma go_on_other_line (b l tail : str) :
  at_bol b = true -> no_nl l = true -> blank l = false ->
  is_go_line l = false ->
  tail = [] \/ (exists rest, tail = nl :: rest) ->
  matches go_re (b, l ++ tail) = [].
Proof.
  intros Hb Hn Hl Hg Ht.
  destruct (nonblank_split l Hl) as (v & x & r & -> & Hv & Hx).
  rewrite (go_at_bol _ _ Hb), <- app_assoc, skip_class_app by exact Hv.
  cbn [app skip_class]. rewrite Hx, go_after_ws_eq.
  destruct r as [|o r2].
  - destruct Ht as [->|(rest & ->)]; [reflexivity|].
    cbn [app]. change (ci "O" nl) with false. rewrite andb_false_r. reflexivity.
  - cbn [app]. destruct (ci "G" x && ci "O" o) eqn:E; [|reflexivity].
    apply andb_true_iff in E as [Eg Eo].
    destruct (blank r2) eqn:Er.
    + rewrite (go_line_intro v r2 x o Hv Er Eg Eo) in Hg. discriminate Hg.
    + destruct (nonblank_split r2 Er) as (v2 & x2 & r3 & -> & Hv2 & Hx2).
      rewrite <- app_assoc. cbn [app].
      apply go_tail_same_line; [exact Hv2| |exact Hx2].
      rewrite no_nl_app in Hn. apply andb_true_iff in Hn as [_ Hn].
      change (x :: o :: v2 ++ x2 :: r3) with ([x; o] ++ v2 ++ x2 :: r3) in Hn.
      rewrite !no_nl_app in Hn.
      apply andb_true_iff in Hn as [_ Hn]. apply andb_true_iff in Hn as [Hn _].
      exact Hn.
Qed.

(** On a blank last line the pattern does not match. *)
Lemma go_on_blank_end (b l : str) :
  blank l = true -> matches go_re (b, l) = [].
Proof.
  intros Hl. destruct (at_bol b) eqn:Hb; [|apply go_not_bol; exact Hb].
  rewrite (go_at_bol _ _ Hb). rewrite <- (app_nil_r l).
  rewrite skip_class_app by exact Hl. reflexivity.
Qed.

Lemma match_at_nil (l : list pos) : l = [] -> hd_error l = None.
Proof. intros ->. reflexivity. Qed.

(** *** The split, line by line *)

Lemma units_cons (p : str) (ps : list str) :
  units (p :: ps) = unit_of p ++ units ps.
Proof.
  unfold units, unit_of. cbn [map filter].
  destruct (nonempty (strip p)); reflexivity.
Qed.

Lemma minlen_go : 0 < minlen go_re.
Proof. cbn. lia. Qed.

(** A line at whose start the pattern does not match is added to the
    piece, with the newline that follows it. *)
Lemma split_no_match_line (l tail piece b : str) :
  no_nl l = true -> match_at go_re (b, l ++ tail) = None ->
  split_from go_re 0 piece b (l ++ tail)
  = match tail with
    | [] => [rev (rev l ++ piece)]
    | c :: rest =>
        split_from go_re 0 (c :: rev l ++ piece) (c :: rev l ++ b) rest
    end.
Proof.
  revert piece b. induction l as [|x l IH]; intros piece b Hn Hm.
  - cbn [app rev] in *. destruct tail as [|c rest].
    + cbn [split_from]. unfold pos in *. rewrite Hm. reflexivity.
    + apply split_from_no_match. exact Hm.
  - cbn [app] in *. rewrite (split_from_no_match _ _ _ _ _ Hm).
    assert (Hx : at_bol (x :: b) = false).
    { unfold no_nl in Hn. cbn [forallb] in Hn.
      apply andb_true_iff in Hn as [Hn _]. apply negb_true_iff in Hn.
      exact Hn. }
    rewrite IH.
    + cbn [rev]. rewrite <- !app_assoc. reflexivity.
    + unfold no_nl in *. cbn [forallb] in Hn.
      apply andb_true_iff in Hn as [_ Hn]. exact Hn.
    + unfold match_at. rewrite (go_not_bol _ _ Hx). reflexivity.
Qed.

(** Reading a newline into an empty piece: the units are those read from
    the next line on. *)
Lemma split_newline_step (b a : str) :
  units (split_from go_re 0 [] b (nl :: a))
  = units (split_from go_re 0 [nl] (nl :: b) a).
Proof.
  destruct (match_at go_re (b, nl :: a)) as [e|] eqn:E.
  - assert (Hb : at_bol b = true).
    { destruct (at_bol b) eqn:Hb; [reflexivity|].
      unfold match_at in E. rewrite (go_not_bol _ _ Hb) in E. discriminate E. }
    assert (E' : match_at go_re (nl :: b, a) = Some e).
    { pose proof (go_blank_line b [] a Hb eq_refl) as G.
      cbn [rev app] in G. unfold match_at in *. rewrite <- G. exact E. }
    rewrite (split_from_match go_re [] b _ e minlen_go E).
    rewrite (split_from_match go_re [nl] _ _ e minlen_go E').
    rewrite !units_cons. reflexivity.
  - rewrite (split_from_no_match _ _ _ _ _ E). reflexivity.
Qed.

(** Whitespace at the start of the piece does not change the units. *)
Lemma units_from_blank_prefix (w piece : str) (lines : list str) :
  blank w = true -> units_from (w ++ piece) lines = units_from piece lines.
Proof.
  intros Hw. revert piece.
  induction lines as [|l lines IH]; intros piece; cbn [units_from].
  - apply unit_of_app_blank_l. exact Hw.
  - destruct (is_go_line l).
    + rewrite unit_of_app_blank_l by exact Hw. reflexivity.
    + rewrite <- app_assoc. apply IH.
Qed.

Lemma units_from_blank (w : str) (lines : list str) :
  blank w = true -> units_from w lines = units_from [] lines.
Proof.
  intros Hw. rewrite <- (app_nil_r w). apply units_from_blank_prefix. exact Hw.
Qed.

Section Lines.

(** The units of the split started at the beginning of a line, for texts
    of at most [n] lines. *)
Variable n : nat.
Hypothesis split_lines_upto :
  forall (lines : list str) (piece b : str),
    length lines <= n -> lines <> [] -> forallb no_nl lines = true ->
    at_bol b = true ->
    units (split_from go_re 0 piece b (join [nl] lines))
    = units_from (rev piece) lines.

(** After the letters of a separator line: the match ends, and the units
    read from its end on are those of the lines after the separator. *)
Lemma split_after_go (lines : list str) (u b0 : str) :
  length lines <= n -> forallb no_nl lines = true -> blank u = true ->
  exists e,
    hd_error (matches go_tail (b0, u ++ tl_text lines)) = Some e
    /\ units (split_from go_re 0 [] (fst e) (snd e)) = units_from [] lines.
Proof.
  revert u. induction lines as [|l1 lines IH]; intros u Hlen Hn Hu.
  - cbn [tl_text]. rewrite app_nil_r.
    exists (rev u ++ b0, []). split; [apply go_tail_to_end; exact Hu|].
    cbn [fst snd split_from]. unfold match_at.
    rewrite (go_on_blank_end (rev u ++ b0) [] eq_refl). reflexivity.
  - cbn [forallb] in Hn. apply andb_true_iff in Hn as [Hn1 Hn].
    change (tl_text (l1 :: lines)) with (nl :: join [nl] (l1 :: lines)).
    rewrite join_cons.
    destruct (blank l1) eqn:Hb1.
    + destruct (IH (u ++ nl :: l1)) as (e & He & Hunits).
      * cbn [length] in Hlen. lia.
      * exact Hn.
      * rewrite blank_app, blank_cons, Hu, Hb1. reflexivity.
      * exists e. split.
        -- rewrite <- He, <- !app_assoc. reflexivity.
        -- rewrite Hunits. cbn [units_from].
           rewrite (blank_not_go_line l1 Hb1). cbn [app].
           symmetry. apply units_from_blank.
           rewrite blank_app, Hb1. reflexivity.
    + destruct (nonblank_split l1 Hb1) as (v & x & r & El & Hv & Hx).
      exists (rev u ++ b0, nl :: l1 ++ tl_text lines). split.
      * rewrite El, <- !app_assoc. cbn [app].
        apply go_tail_to_line_end; try assumption.
        rewrite El, no_nl_app in Hn1.
        apply andb_true_iff in Hn1 as [Hn1 _]. exact Hn1.
      * cbn [fst snd]. rewrite split_newline_step, <- join_cons.
        rewrite split_lines_upto; try assumption; try reflexivity.
        -- apply (units_from_blank [nl]). reflexivity.
        -- discriminate.
        -- cbn [forallb]. rewrite Hn1, Hn. reflexivity.
Qed.

End Lines.

(** The units of the pieces between the matches of the pattern, when the
    split starts at the beginning of a line, are the units of the lines
    between the separator lines. *)
Lemma split_lines (n : nat) (lines : list str) (piece b : str) :
  length lines <= n -> lines <> [] -> forallb no_nl lines = true ->
  at_bol b = true ->
  units (split_from go_re 0 piece b (join [nl] lines))
  = units_from (rev piece) lines.
Proof.
  revert lines piece b.
  induction n as [|n IHn]; intros lines piece b Hlen Hne Hn Hb.
  { destruct lines; [contradiction|cbn [length] in Hlen; lia]. }
  destruct lines as [|l lines]; [contradiction|].
  cbn [forallb] in Hn. apply andb_true_iff in Hn as [Hnl Hn].
  cbn [length] in Hlen. assert (Hlen' : length lines <= n) by lia.
  rewrite join_cons. cbn [units_from].
  destruct (is_go_line l) eqn:EG.
  - destruct (go_line_elim l EG) as (w & g & o & w' & -> & Hw & Hw' & Hg & Ho).
    destruct (split_after_go n IHn lines w' (o :: g :: rev w ++ b)
                Hlen' Hn Hw') as (e & He & Hunits).
    rewrite <- (go_on_go_line b w w' (tl_text lines) g o Hb Hw Hg Ho) in He.
    rewrite (split_from_match go_re piece b _ e minlen_go He).
    rewrite units_cons, Hunits. reflexivity.
  - destruct (match_at go_re (b, l ++ tl_text lines)) as [e|] eqn:EM.
    + assert (Hbl : blank l = true).
      { destruct (blank l) eqn:Hbl; [reflexivity|].
        unfold match_at in EM. rewrite go_on_other_line in EM;
          try assumption; [discriminate EM|].
        destruct lines; [left; reflexivity|right; eexists; reflexivity]. }
      destruct lines as [|l1 lines].
      { cbn [tl_text] in EM. rewrite app_nil_r in EM. unfold match_at in EM.
        rewrite (go_on_blank_end b l Hbl) in EM. discriminate EM. }
      change (tl_text (l1 :: lines)) with (nl :: join [nl] (l1 :: lines)) in *.
      assert (EM' : match_at go_re (nl :: rev l ++ b, join [nl] (l1 :: lines))
                    = Some e).
      { unfold match_at in *. rewrite <- (go_blank_line b l _ Hb Hbl). exact EM. }
      rewrite (split_from_match go_re piece b _ e minlen_go EM).
      pose proof (IHn (l1 :: lines) (nl :: rev l ++ piece) (nl :: rev l ++ b)
                      Hlen' ltac:(discriminate) Hn eq_refl) as IH.
      rewrite (split_from_match go_re _ _ _ e minlen_go EM') in IH.
      rewrite units_cons in *. cbn [rev] in IH.
      rewrite rev_app_distr, rev_involutive, <- app_assoc in IH.
      rewrite <- IH. f_equal.
      symmetry. apply unit_of_app_blank_r.
      rewrite blank_app, Hbl. reflexivity.
    + rewrite (split_no_match_line l _ piece b Hnl EM).
      destruct lines as [|l1 lines].
      * cbn [tl_text units_from]. rewrite units_cons. cbn [units map filter].
        rewrite app_nil_r, rev_app_distr, rev_involutive, app_assoc.
        apply (eq_sym (unit_of_app_blank_r (rev piece ++ l) [nl] eq_refl)).
      * cbn [tl_text].
        rewrite IHn; try assumption; try reflexivity; [|discriminate].
        cbn [rev]. rewrite rev_app_distr, rev_involutive, <- app_assoc.
        reflexivity.
Qed.

(** *** The lines of a text *)

Lemma split_chr_cons (s : str) : exists l ls, split_chr nl s = l :: ls.
Proof.
  induction s as [|c s (l & ls & IH)]; cbn [split_chr]; [eauto|].
  destruct (Ascii.eqb c nl); [eauto|]. rewrite IH. eauto.
Qed.

Lemma split_chr_acc (current s : str) :
  lines_acc current s
  = match split_chr nl s with
    | l :: ls => (current ++ l) :: ls
    | [] => [current]
    end.
Proof.
  revert current. induction s as [|c s IH]; intros current;
    cbn [lines_acc split_chr].
  - rewrite app_nil_r. reflexivity.
  - destruct (split_chr_cons s) as (l & ls & E). rewrite E in *.
    destruct (Ascii.eqb c nl).
    + rewrite app_nil_r, IH. reflexivity.
    + rewrite IH, <- app_assoc. reflexivity.
Qed.

Lemma split_chr_lines (s : str) : split_chr nl s = lines_acc [] s.
Proof.
  rewrite split_chr_acc. destruct (split_chr_cons s) as (l & ls & ->).
  reflexivity.
Qed.

Lemma join_split_chr (s : str) : join [nl] (split_chr nl s) = s.
Proof.
  induction s as [|c s IH]; [reflexivity|]. cbn [split_chr].
  destruct (Ascii.eqb_spec c nl) as [->|Hc].
  - rewrite join_cons. destruct (split_chr_cons s) as (l & ls & E).
    rewrite E in *. cbn [tl_text]. rewrite IH. reflexivity.
  - destruct (split_chr_cons s) as (l & ls & E). rewrite E in *.
    rewrite join_cons in *. cbn [app]. rewrite IH. reflexivity.
Qed.

Lemma split_chr_no_nl (s : str) : forallb no_nl (split_chr nl s) = true.
Proof.
  induction s as [|c s IH]; [reflexivity|]. cbn [split_chr].
  destruct (Ascii.eqb c nl) eqn:Ec.
  - cbn [forallb]. rewrite IH. reflexivity.
  - destruct (split_chr_cons s) as (l & ls & E). rewrite E in *.
    cbn [forallb] in *. apply andb_true_iff in IH as [Hl Hls].
    rewrite Hls, andb_true_r. unfold no_nl. cbn [forallb].
    rewrite Ec. exact Hl.
Qed.

Lemma go_line_blank_suffix (l w : str) :
  blank w = true -> is_go_line (l ++ w) = is_go_line l.
Proof.
  intros H. unfold is_go_line. rewrite strip_app_blank_r by exact H. reflexivity.
Qed.

Lemma go_line_blank_prefix (w l : str) :
  blank w = true -> is_go_line (w ++ l) = is_go_line l.
Proof.
  intros H. unfold is_go_line. rewrite strip_app_blank_l by exact H. reflexivity.
Qed.

Lemma lines_acc_prefix (current s : str) :
  exists l ls,
    lines_acc [] s = l :: ls /\ lines_acc current s = (current ++ l) :: ls.
Proof.
  rewrite !split_chr_acc. destruct (split_chr_cons s) as (l & ls & ->).
  exists l, ls. split; reflexivity.
Qed.

(** Whitespace after the text changes neither the units nor the presence
    of a separator line. *)
Lemma units_from_blank_only (piece current w : str) :
  blank w = true ->
  units_from piece (lines_acc current w) = units_from piece [current].
Proof.
  revert piece current. induction w as [|c w IH]; intros piece current H;
    [reflexivity|].
  rewrite blank_cons in H. apply andb_true_iff in H as [Hc Hw].
  cbn [lines_acc]. destruct (Ascii.eqb c nl).
  - cbn [units_from]. rewrite !(IH _ [] Hw). cbn [units_from].
    change (is_go_line []) with false. cbn [app].
    destruct (is_go_line current).
    + rewrite (unit_of_blank [nl] eq_refl). reflexivity.
    + apply unit_of_app_blank_r. reflexivity.
  - rewrite (IH _ _ Hw). cbn [units_from].
    rewrite (go_line_blank_suffix current [c]) by (cbn; rewrite Hc; reflexivity).
    destruct (is_go_line current); [reflexivity|].
    transitivity (unit_of (piece ++ current)).
    + replace (piece ++ (current ++ [c]) ++ [nl])
        with ((piece ++ current) ++ [c; nl])
        by (rewrite <- !app_assoc; reflexivity).
      apply unit_of_app_blank_r. cbn. rewrite Hc. reflexivity.
    + symmetry. rewrite app_assoc. apply unit_of_app_blank_r. reflexivity.
Qed.

Lemma units_from_blank_suffix (piece current a w : str) :
  blank w = true ->
  units_from piece (lines_acc current (a ++ w))
  = units_from piece (lines_acc current a).
Proof.
  intros Hw. revert piece current.
  induction a as [|c a IH]; intros piece current.
  - cbn [app]. rewrite units_from_blank_only by exact Hw. reflexivity.
  - cbn [app lines_acc]. destruct (Ascii.eqb c nl).
    + cbn [units_from]. rewrite !IH. reflexivity.
    + apply IH.
Qed.

Lemma has_go_blank_only (current w : str) :
  blank w = true ->
  existsb is_go_line (lines_acc current w) = is_go_line current.
Proof.
  revert current. induction w as [|c w IH]; intros current H.
  - cbn. apply orb_false_r.
  - rewrite blank_cons in H. apply andb_true_iff in H as [Hc Hw].
    cbn [lines_acc]. destruct (Ascii.eqb c nl).
    + cbn [existsb]. rewrite (IH [] Hw). apply orb_false_r.
    + rewrite (IH _ Hw). apply go_line_blank_suffix.
      cbn. rewrite Hc. reflexivity.
Qed.

Lemma has_go_blank_suffix (current a w : str) :
  blank w = true ->
  existsb is_go_line (lines_acc current (a ++ w))
  = existsb is_go_line (lines_acc current a).
Proof.
  intros Hw. revert current. induction a as [|c a IH]; intros current.
  - cbn [app]. rewrite has_go_blank_only by exact Hw. cbn.
    symmetry. apply orb_false_r.
  - cbn [app lines_acc]. destruct (Ascii.eqb c nl).
    + cbn [existsb]. rewrite IH. reflexivity.
    + apply IH.
Qed.

(** Whitespace before the text changes neither. *)
Lemma units_from_blank_current (current a : str) :
  blank current = true ->
  units_from [] (lines_acc current a) = units_from [] (lines_acc [] a).
Proof.
  intros H. destruct (lines_acc_prefix current a) as (l & ls & -> & ->).
  cbn [units_from]. rewrite (go_line_blank_prefix current l H).
  destruct (is_go_line l); [reflexivity|].
  cbn [app]. rewrite <- app_assoc. apply units_from_blank_prefix. exact H.
Qed.

Lemma units_from_blank_before (current w a : str) :
  blank current = true -> blank w = true ->
  units_from [] (lines_acc current (w ++ a)) = units_from [] (lines_acc [] a).
Proof.
  revert current. induction w as [|c w IH]; intros current Hc Hw.
  - apply units_from_blank_current. exact Hc.
  - rewrite blank_cons in Hw. apply andb_true_iff in Hw as [Hx Hw].
    cbn [app lines_acc]. destruct (Ascii.eqb c nl).
    + cbn [units_from]. rewrite (blank_not_go_line current Hc). cbn [app].
      rewrite units_from_blank
        by (rewrite blank_app, Hc; reflexivity).
      apply (IH [] eq_refl Hw).
    + apply IH; [|exact Hw]. rewrite blank_app, Hc. cbn. rewrite Hx. reflexivity.
Qed.

Lemma has_go_blank_before (current w a : str) :
  blank current = true -> blank w = true ->
  existsb is_go_line (lines_acc current (w ++ a))
  = existsb is_go_line (lines_acc [] a).
Proof.
  revert current. induction w as [|c w IH]; intros current Hc Hw.
  - cbn [app]. destruct (lines_acc_prefix current a) as (l & ls & -> & ->).
    cbn [existsb]. rewrite (go_line_blank_prefix current l Hc). reflexivity.
  - rewrite blank_cons in Hw. apply andb_true_iff in Hw as [Hx Hw].
    cbn [app lines_acc]. destruct (Ascii.eqb c nl).
    + cbn [existsb]. rewrite (blank_not_go_line current Hc). cbn [orb].
      apply (IH [] eq_refl Hw).
    + apply IH; [|exact Hw]. rewrite blank_app, Hc. cbn. rewrite Hx. reflexivity.
Qed.

(** Trimming the text changes neither. *)
Lemma units_from_strip (s : str) :
  units_from [] (split_chr nl (strip s)) = units_from [] (split_chr nl s).
Proof.
  destruct (strip_split s) as (w1 & w2 & E & H1 & H2).
  rewrite E at 2. rewrite !split_chr_lines.
  rewrite (units_from_blank_before [] w1 _ eq_refl H1).
  rewrite units_from_blank_suffix by exact H2. reflexivity.
Qed.

Lemma has_go_strip (s : str) :
  existsb is_go_line (split_chr nl (strip s))
  = existsb is_go_line (split_chr nl s).
Proof.
  destruct (strip_split s) as (w1 & w2 & E & H1 & H2).
  rewrite E at 2. rewrite !split_chr_lines.
  rewrite (has_go_blank_before [] w1 _ eq_refl H1).
  rewrite has_go_blank_suffix by exact H2. reflexivity.
Qed.

(** *** The search *)

Lemma search_from_later (r : re) (m b a : str) :
  search_from r (rev m ++ b) a <> None -> search_from r b (m ++ a) <> None.
Proof.
  revert b. induction m as [|c m IH]; intros b H; [exact H|].
  cbn [app search_from]. destruct (match_at r (b, c :: m ++ a)); [discriminate|].
  apply IH. cbn [rev] in H. rewrite <- app_assoc in H. exact H.
Qed.

Lemma search_from_match (r : re) (b a : str) (e : pos) :
  match_at r (b, a) = Some e -> search_from r b a = Some ((b, a), e).
Proof.
  intros H. destruct a; cbn [search_from]; unfold pos in *; rewrite H;
    reflexivity.
Qed.

(** A text with a separator line is found by the search. *)
Lemma search_go_line (lines : list str) (b : str) :
  forallb no_nl lines = true -> existsb is_go_line lines = true ->
  at_bol b = true ->
  search_from go_re b (join [nl] lines) <> None.
Proof.
  revert b. induction lines as [|l lines IH]; intros b Hn H Hb;
    [discriminate H|].
  cbn [existsb] in H. cbn [forallb] in Hn.
  apply andb_true_iff in Hn as [Hnl Hn]. rewrite join_cons.
  destruct (is_go_line l) eqn:EG.
  - destruct (go_line_elim l EG) as (w & g & o & w' & -> & Hw & Hw' & Hg & Ho).
    destruct (split_after_go (length lines) (split_lines (length lines))
                lines w' (o :: g :: rev w ++ b) (le_n _) Hn Hw')
      as (e & He & _).
    rewrite <- (go_on_go_line b w w' (tl_text lines) g o Hb Hw Hg Ho) in He.
    rewrite (search_from_match _ _ _ e He). discriminate.
  - cbn [orb] in H. destruct lines as [|l1 lines]; [discriminate H|].
    cbn [tl_text].
    change (l ++ nl :: join [nl] (l1 :: lines))
      with (l ++ [nl] ++ join [nl] (l1 :: lines)).
    rewrite app_assoc. apply search_from_later.
    apply IH; [exact Hn|exact H|].
    rewrite rev_app_distr. reflexivity.
Qed.

(** *** The two forms of the reference units *)

Lemma lines_text_snoc (lines : list str) (l : str) :
  lines_text (lines ++ [l]) = lines_text lines ++ l ++ [nl].
Proof.
  unfold lines_text. rewrite map_app, concat_app. cbn [map concat].
  rewrite app_nil_r. reflexivity.
Qed.

Lemma lines_text_join (lines : list str) :
  exists w, lines_text lines = join [nl] lines ++ w /\ blank w = true.
Proof.
  induction lines as [|l lines (w & IH & Hw)].
  - exists []. split; reflexivity.
  - destruct lines as [|l1 lines].
    + exists [nl]. split; [|reflexivity].
      unfold lines_text. cbn. rewrite app_nil_r. reflexivity.
    + exists w. split; [|exact Hw].
      change (lines_text (l :: l1 :: lines))
        with ((l ++ [nl]) ++ lines_text (l1 :: lines)).
      rewrite IH. cbn [join]. rewrite <- !app_assoc. reflexivity.
Qed.

Lemma strip_lines_text (lines : list str) :
  strip (join [nl] lines) = strip (lines_text lines).
Proof.
  destruct (lines_text_join lines) as (w & -> & Hw).
  symmetry. apply strip_app_blank_r. exact Hw.
Qed.

Lemma go_segments_units (current lines : list str) :
  filter nonempty
    (map (fun segment => strip (join [nl] segment))
         (go_segments current lines))
  = units_from (lines_text current) lines.
Proof.
  revert current. induction lines as [|l lines IH]; intros current;
    cbn [go_segments units_from].
  - cbn [map filter]. unfold unit_of. rewrite strip_lines_text. reflexivity.
  - destruct (is_go_line l).
    + cbn [map filter]. rewrite IH. unfold unit_of.
      rewrite strip_lines_text.
      destruct (nonempty (strip (lines_text current))); reflexivity.
    + rewrite IH, lines_text_snoc. reflexivity.
Qed.

Lemma go_units_spec_eq (text : str) :
  go_units_spec text = units_from [] (split_chr nl text).
Proof. unfold go_units_spec. apply go_segments_units. Qed.

(** The second filter of the source (line 72) removes nothing. *)
Lemma units_filter (pieces : list str) :
  filter (fun stmt => nonempty stmt && nonempty (strip stmt)) (units pieces)
  = units pieces.
Proof.
  induction pieces as [|p pieces IH]; [reflexivity|].
  rewrite units_cons, filter_app, IH. f_equal.
  unfold unit_of. destruct (nonempty (strip p)) eqn:E; [|reflexivity].
  cbn [filter]. rewrite strip_idem, E. reflexivity.
Qed.

(** What the separator branch returns. *)
Lemma go_batches_units (text : str) :
  go_batches text = units_from [] (split_chr nl text).
Proof.
  unfold go_batches. fold (units (Re.split go_re text)).
  rewrite units_filter. unfold Re.split.
  rewrite <- (join_split_chr text) at 1.
  destruct (split_chr_cons text) as (l & ls & E).
  apply (split_lines (length (split_chr nl text))).
  - apply le_n.
  - rewrite E. discriminate.
  - apply split_chr_no_nl.
  - reflexivity.
Qed.

End GoFacts.

(** ** The character scan *)

Module ScanFacts.

Import PyStrFacts.

Lemma word_boundary_ok (query : str) (k n : nat) :
  k < length query -> exists b, word_boundary query k n = Ok b.
Proof.
  intros Hk. unfold word_boundary, boundary_before, boundary_after.
  destruct (k =? 0) eqn:E0; simpl.
  - destruct (length query <=? k + n) eqn:E1; [eauto|].
    apply Nat.leb_gt in E1.
    destruct (getitem_ok query _ E1) as (c & -> & _). simpl.
    destruct (negb (isalnum c)); eauto.
  - apply Nat.eqb_neq in E0.
    assert (Hp : k - 1 < length query) by lia.
    destruct (getitem_ok query _ Hp) as (c & -> & _). simpl.
    destruct (negb (isalnum c)); [|eauto].
    destruct (length query <=? k + n) eqn:E1; [eauto|].
    apply Nat.leb_gt in E1.
    destruct (getitem_ok query _ E1) as (c' & -> & _). simpl. eauto.
Qed.

(** An iteration of the loop raises nothing and moves the index forward,
    never beyond the end of the text. *)
Lemma scan_step_ok (query : str) (s : scan_state) :
  i s < length query ->
  exists s', scan_step query s = Ok s' /\ i s < i s' <= length query.
Proof.
  intros Hi. unfold scan_step.
  destruct (getitem_ok query _ Hi) as (char & -> & _). cbn [bind].
  destruct (is_quote char && negb (in_string s));
    [eexists; split; [reflexivity|simpl; lia]|].
  destruct (is_string_char char (string_char s) && in_string s).
  { destruct (i s + 1 <? length query) eqn:E.
    - apply Nat.ltb_lt in E.
      destruct (getitem_ok query _ E) as (nxt & -> & _). cbn [bind].
      destruct (is_string_char nxt (string_char s));
        eexists; (split; [reflexivity|simpl; lia]).
    - cbn [bind]. eexists; split; [reflexivity|simpl; lia]. }
  destruct (Ascii.eqb char "[" && negb (in_string s));
    [eexists; split; [reflexivity|simpl; lia]|].
  destruct (Ascii.eqb char "]" && in_bracket s && negb (in_string s));
    [eexists; split; [reflexivity|simpl; lia]|].
  destruct (negb (in_string s) && negb (in_bracket s));
    [|eexists; split; [reflexivity|simpl; lia]].
  destruct (Ascii.eqb char "("); [eexists; split; [reflexivity|simpl; lia]|].
  destruct (Ascii.eqb char ")"); [eexists; split; [reflexivity|simpl; lia]|].
  destruct (PyStr.eqb (upper (slice query (i s) (i s + 5))) (s2l "BEGIN")).
  { destruct (word_boundary_ok query (i s) 5 Hi) as (b & ->). cbn [bind].
    eexists; split; [reflexivity|simpl; lia]. }
  destruct (PyStr.eqb (upper (slice query (i s) (i s + 3))) (s2l "END")).
  { destruct (word_boundary_ok query (i s) 3 Hi) as (b & ->). cbn [bind].
    eexists; split; [reflexivity|simpl; lia]. }
  destruct (Ascii.eqb char ";" && (paren_depth s =? 0)%Z
            && (begin_end_depth s =? 0)%Z);
    eexists; (split; [reflexivity|simpl; lia]).
Qed.

(** Case analysis on an iteration of the loop that returned a state. *)
Ltac step_cases H :=
  repeat
    (match type of H with
     | bind ?m _ = Ok _ =>
         let E := fresh "E" in
         destruct m eqn:E; cbn [bind] in H; [|discriminate H]
     | (if ?b then _ else _) = Ok _ =>
         let E := fresh "E" in destruct b eqn:E
     end).

Lemma scan_step_wf (query : str) (s s' : scan_state) :
  scan_wf s -> scan_step query s = Ok s' -> scan_wf s'.
Proof.
  intros [Hd Hq] H. unfold scan_step in H.
  step_cases H; injection H as <-; unfold scan_wf; simpl;
    try (split; [assumption|assumption]).
  - apply andb_true_iff in E0 as [E0 _]. auto.
  - auto.
  - split; [|assumption]. destruct a0; lia.
  - split; [|assumption]. destruct a0; lia.
Qed.

Lemma scanned_wf (query : str) (s : scan_state) :
  scanned query s -> scan_wf s.
Proof.
  induction 1 as [|s s' _ IH _ Hs].
  - unfold scan_wf; simpl. split; [lia|reflexivity].
  - exact (scan_step_wf query s s' IH Hs).
Qed.

Lemma skipn_nth (query : str) (k : nat) (c : ascii) :
  nth_error query k = Some c -> skipn k query = c :: skipn (S k) query.
Proof.
  revert k. induction query as [|x q IH]; intros [|k] H; simpl in *;
    try discriminate.
  - injection H as ->. reflexivity.
  - apply IH. assumption.
Qed.

Lemma slice_head (query : str) (k n : nat) (c : ascii) :
  nth_error query k = Some c ->
  slice query k (k + S n) = c :: firstn n (skipn (S k) query).
Proof.
  intros H. unfold slice. rewrite (skipn_nth query k c H).
  replace (k + S n - k) with (S n) by lia. reflexivity.
Qed.

(** What one iteration does at a semicolon. *)
Lemma semicolon_step (query : str) (s : scan_state) :
  scan_wf s -> nth_error query (i s) = Some ";"%char ->
  scan_step query s =
  Ok (if negb (in_string s) && negb (in_bracket s)
         && (paren_depth s =? 0)%Z && (begin_end_depth s =? 0)%Z
      then cut s else append_advance ";" s).
Proof.
  intros [_ Hq] Hc. unfold scan_step, getitem. rewrite Hc. cbn [bind].
  assert (Hs : is_string_char ";" (string_char s) = false).
  { destruct (string_char s) as [q|]; [|reflexivity].
    destruct Hq as [Hq _]. unfold is_string_char.
    destruct (Ascii.eqb_spec ";" q) as [<-|]; [discriminate Hq|reflexivity]. }
  rewrite Hs.
  rewrite (slice_head query (i s) 4 ";" Hc), (slice_head query (i s) 2 ";" Hc).
  change (is_quote ";") with false.
  change (Ascii.eqb ";" "[") with false.
  change (Ascii.eqb ";" "]") with false.
  change (Ascii.eqb ";" "(") with false.
  change (Ascii.eqb ";" ")") with false.
  change (Ascii.eqb ";" ";") with true.
  cbn [andb].
  destruct (in_string s) eqn:Ei, (in_bracket s) eqn:Eb; cbn [negb andb];
    try reflexivity.
  assert (HB : forall t, PyStr.eqb (upper (";"%char :: t)) (s2l "BEGIN") = false)
    by reflexivity.
  assert (HE : forall t, PyStr.eqb (upper (";"%char :: t)) (s2l "END") = false)
    by reflexivity.
  rewrite HB, HE.
  destruct (paren_depth s =? 0)%Z, (begin_end_depth s =? 0)%Z; cbn [andb];
    try reflexivity.
  unfold cut. rewrite Ei, Eb. reflexivity.
Qed.

(** What one iteration does at a closing parenthesis outside strings and
    brackets. *)
Lemma close_paren_step (query : str) (s : scan_state) :
  in_string s = false -> in_bracket s = false ->
  nth_error query (i s) = Some ")"%char ->
  scan_step query s =
  Ok (append_advance ")"
        (mkScan (statements s) (current_statement s) (in_string s)
                (string_char s) (in_bracket s) (paren_depth s - 1)
                (begin_end_depth s) (i s))).
Proof.
  intros Hs Hb Hc. unfold scan_step, getitem. rewrite Hc. cbn [bind].
  rewrite Hs, Hb.
  change (is_quote ")") with false.
  change (Ascii.eqb ")" "[") with false.
  change (Ascii.eqb ")" "]") with false.
  change (Ascii.eqb ")" "(") with false.
  change (Ascii.eqb ")" ")") with true.
  rewrite andb_false_r. reflexivity.
Qed.

Lemma upper_E_cases (c x : ascii) :
  Ascii.eqb (upper_char c) "E" = true ->
  Ascii.eqb (upper_char x) "E" = false -> Ascii.eqb c x = false.
Proof.
  intros Hc Hx. destruct (Ascii.eqb_spec c x) as [->|]; [|reflexivity].
  rewrite Hc in Hx. discriminate.
Qed.

(** What one iteration does at the keyword END outside strings and
    brackets. *)
Lemma end_keyword_step (query : str) (s : scan_state) (wb : bool) :
  in_string s = false -> in_bracket s = false -> i s < length query ->
  PyStr.eqb (upper (slice query (i s) (i s + 3))) (s2l "END") = true ->
  word_boundary query (i s) 3 = Ok wb ->
  exists s', scan_step query s = Ok s'
    /\ begin_end_depth s' =
       (if wb then Z.max 0 (begin_end_depth s - 1) else begin_end_depth s).
Proof.
  intros Hs Hb Hi He Hw.
  destruct (getitem_ok query _ Hi) as (c & Hg & Hc).
  assert (HE : Ascii.eqb (upper_char c) "E" = true).
  { rewrite (slice_head query (i s) 2 c Hc) in He. cbn [upper map] in He.
    change (s2l "END") with ["E"; "N"; "D"]%char in He. cbn [PyStr.eqb] in He.
    apply andb_true_iff in He as [He _]. exact He. }
  assert (HB : PyStr.eqb (upper (slice query (i s) (i s + 5))) (s2l "BEGIN")
               = false).
  { rewrite (slice_head query (i s) 4 c Hc). cbn [upper map].
    change (s2l "BEGIN") with ["B"; "E"; "G"; "I"; "N"]%char. cbn [PyStr.eqb].
    apply Ascii.eqb_eq in HE. rewrite HE. reflexivity. }
  unfold scan_step. rewrite Hg. cbn [bind]. rewrite Hs, Hb.
  unfold is_quote.
  rewrite (upper_E_cases c "'" HE eq_refl), (upper_E_cases c dquote HE eq_refl),
    (upper_E_cases c "[" HE eq_refl), (upper_E_cases c "]" HE eq_refl),
    (upper_E_cases c "(" HE eq_refl), (upper_E_cases c ")" HE eq_refl).
  rewrite andb_false_r. cbn [orb andb negb].
  rewrite HB, He, Hw. cbn [bind].
  eexists. split; [reflexivity|]. reflexivity.
Qed.

(** What one iteration does inside a string at a quote character that is
    followed by the same character. *)
Lemma doubled_quote_step (query : str) (s : scan_state) (q : ascii) :
  in_string s = true -> string_char s = Some q ->
  nth_error query (i s) = Some q -> nth_error query (i s + 1) = Some q ->
  scan_step query s =
  Ok (append_advance q
        (mkScan (statements s) (current_statement s ++ [q; q]) (in_string s)
                (string_char s) (in_bracket s) (paren_depth s)
                (begin_end_depth s) (i s + 1))).
Proof.
  intros Hs Hq Hc Hn. unfold scan_step, getitem. rewrite Hc. cbn [bind].
  assert (Hlt : (i s + 1 <? length query) = true).
  { apply Nat.ltb_lt. apply nth_error_Some. rewrite Hn. discriminate. }
  rewrite Hlt, Hn. cbn [bind]. rewrite Hq. unfold is_string_char.
  rewrite Ascii.eqb_refl, Hs, andb_false_r. reflexivity.
Qed.

(** C2. In the character scan a semicolon ends a statement unit exactly
    when the scanner is outside string literals, outside bracketed
    identifiers, at parenthesis depth 0 and at block depth 0; otherwise it
    is appended to the current unit.  Inside a string a doubled quote is
    passed over as a pair and leaves the scanner inside the string.  The
    two sample texts split into two units each, the quoted semicolon kept
    in the first unit. *)
Theorem semicolon_ends_unit_iff_top_level :
  (forall query s,
     scanned query s -> nth_error query (i s) = Some ";"%char ->
     exists s', scan_step query s = Ok s'
       /\ (at_top_level s <-> s' = cut s)
       /\ (~ at_top_level s -> s' = append_advance ";" s))
  /\ (forall query s q,
        in_string s = true -> string_char s = Some q ->
        nth_error query (i s) = Some q ->
        nth_error query (i s + 1) = Some q ->
        exists s', scan_step query s = Ok s'
          /\ in_string s' = true /\ string_char s' = Some q
          /\ statements s' = statements s /\ i s' = i s + 2)
  /\ split_sql "SELECT 1; SELECT 2;" = Ok ["SELECT 1"; "SELECT 2"]%string
  /\ split_sql "SELECT ';' AS x; SELECT 2;"
     = Ok ["SELECT ';' AS x"; "SELECT 2"]%string.
Proof.
  split; [|split; [|split; vm_compute; reflexivity]].
  2:{ intros query s q Hs Hq Hc Hn.
      rewrite (doubled_quote_step query s q Hs Hq Hc Hn).
      eexists. split; [reflexivity|]. cbn. repeat split; try assumption. lia. }
  intros query s Hsc Hc.
  rewrite (semicolon_step query s (scanned_wf query s Hsc) Hc).
  eexists. split; [reflexivity|].
  unfold at_top_level.
  destruct (in_string s), (in_bracket s); cbn [negb andb];
    try (split; [split; [intros (? & ? & ? & ?); discriminate
                        |intros H; apply (f_equal current_statement) in H;
                         simpl in H; destruct (current_statement s); discriminate]
                |reflexivity]).
  destruct (Z.eqb_spec (paren_depth s) 0) as [Hp|Hp];
    destruct (Z.eqb_spec (begin_end_depth s) 0) as [Hd|Hd]; cbn [andb];
    try (split; [split; [intros (? & ? & ? & ?); contradiction
                        |intros H; apply (f_equal current_statement) in H;
                         simpl in H; destruct (current_statement s); discriminate]
                |reflexivity]).
  split; [split; [reflexivity|auto]|].
  intros H. exfalso. apply H. auto.
Qed.

Lemma semicolon_ends_unit_iff_top_level_witness :
  scan_step (s2l "a;b") (mkScan [] (s2l "a") false None false 0 0 1)
  = Ok (mkScan [s2l "a"] [] false None false 0 0 2).
Proof.
  destruct (proj1 semicolon_ends_unit_iff_top_level (s2l "a;b")
              (mkScan [] (s2l "a") false None false 0 0 1))
    as (s' & Hs & Hcut & _).
  - apply (scanned_step (s2l "a;b") scan_init); [constructor|simpl; lia|reflexivity].
  - reflexivity.
  - rewrite Hs. f_equal. apply Hcut. unfold at_top_level. simpl. auto.
Defined.

(** C10. The block depth never goes below zero: an END at depth 0 leaves
    the depth at 0.  The parenthesis depth has no such bound: a closing
    parenthesis outside strings and brackets lowers it by one, below zero
    when no parenthesis is open, and while the depth is not zero no
    semicolon ends a unit; so the sample text with an unmatched closing
    parenthesis comes back as a single unit. *)
Theorem block_depth_clamped_paren_depth_unbounded :
  (forall query s, scanned query s -> (0 <= begin_end_depth s)%Z)
  /\ (forall query s,
        in_string s = false -> in_bracket s = false -> i s < length query ->
        PyStr.eqb (upper (slice query (i s) (i s + 3))) (s2l "END") = true ->
        word_boundary query (i s) 3 = Ok true ->
        exists s', scan_step query s = Ok s'
          /\ begin_end_depth s' = Z.max 0 (begin_end_depth s - 1)
          /\ (begin_end_depth s = 0%Z -> begin_end_depth s' = 0%Z))
  /\ (forall query s,
        in_string s = false -> in_bracket s = false ->
        nth_error query (i s) = Some ")"%char ->
        exists s', scan_step query s = Ok s'
          /\ paren_depth s' = (paren_depth s - 1)%Z
          /\ (paren_depth s = 0%Z -> (paren_depth s' < 0)%Z))
  /\ (forall query s,
        scanned query s -> nth_error query (i s) = Some ";"%char ->
        paren_depth s <> 0%Z ->
        scan_step query s = Ok (append_advance ";" s))
  /\ split_sql "x); a; b" = Ok ["x); a; b"]%string.
Proof.
  repeat split.
  - intros query s Hsc. exact (proj1 (scanned_wf query s Hsc)).
  - intros query s Hs Hb Hi He Hw.
    destruct (end_keyword_step query s true Hs Hb Hi He Hw) as (s' & H1 & H2).
    exists s'. repeat split; [exact H1|exact H2|].
    intros H0. rewrite H2, H0. reflexivity.
  - intros query s Hs Hb Hc.
    rewrite (close_paren_step query s Hs Hb Hc).
    eexists. repeat split. simpl. lia.
  - intros query s Hsc Hc Hp.
    rewrite (semicolon_step query s (scanned_wf query s Hsc) Hc).
    apply Z.eqb_neq in Hp. rewrite Hp.
    rewrite andb_false_r. reflexivity.
Qed.

Lemma block_depth_clamped_paren_depth_unbounded_witness :
  scan_step (s2l "x); a") (mkScan [] (s2l "x)") false None false (-1) 0 2)
  = Ok (mkScan [] (s2l "x);") false None false (-1) 0 3).
Proof.
  apply (proj1 (proj2 (proj2 (proj2
           block_depth_clamped_paren_depth_unbounded)))
           (s2l "x); a") (mkScan [] (s2l "x)") false None false (-1) 0 2)).
  - apply (scanned_step (s2l "x); a")
             (mkScan [] (s2l "x") false None false 0 0 1)).
    + apply (scanned_step (s2l "x); a") scan_init);
        [constructor|simpl; lia|reflexivity].
    + simpl; lia.
    + reflexivity.
  - reflexivity.
  - simpl. lia.
Defined.

(** The budget [length query] is enough for the loop. *)
Lemma scan_loop_ok (query : str) (fuel : nat) (s : scan_state) :
  i s <= length query -> length query - i s <= fuel ->
  exists s', scan_loop fuel query s = Ok s'.
Proof.
  revert s. induction fuel as [|fuel IH]; intros s Hle Hf; simpl.
  - destruct (i s <? length query) eqn:E; [|eauto].
    apply Nat.ltb_lt in E. lia.
  - destruct (i s <? length query) eqn:E; [|eauto].
    apply Nat.ltb_lt in E.
    destruct (scan_step_ok query s E) as (s' & -> & Hs'). simpl.
    apply IH; lia.
Qed.

Lemma char_scan_ok (query : str) : exists units, char_scan query = Ok units.
Proof.
  unfold char_scan.
  destruct (scan_loop_ok query (length query) scan_init) as (s & ->);
    simpl; try lia.
  eauto.
Qed.

End ScanFacts.

Module SplitterFacts.

Import PyStrFacts ScanFacts.

Lemma split_returns (query : str) :
  exists units, _split_sql_statements query = Ok units.
Proof.
  unfold _split_sql_statements.
  destruct (negb (nonempty (strip query))); [eauto|].
  destruct (found go_re (strip query)); [eauto|].
  destruct (drop_then_create (strip query)); [eauto|].
  destruct (complex_check complex_patterns (strip_comments (strip query)));
    [eauto|].
  apply char_scan_ok.
Qed.

(** C9. [_split_sql_statements] returns a sequence of units for every
    input text: no exception is raised and the scanning loop ends within
    its budget; for an empty or whitespace-only text the sequence is
    empty. *)
Theorem split_total_and_blank_is_empty (query : str) :
  (exists units, _split_sql_statements query = Ok units)
  /\ (forallb isspace query = true -> _split_sql_statements query = Ok []).
Proof.
  split.
  - apply split_returns.
  - intros H. unfold _split_sql_statements.
    rewrite (strip_spaces _ H). reflexivity.
Qed.

Lemma split_total_and_blank_is_empty_witness :
  forallb isspace (s2l "  ") = true /\ _split_sql_statements (s2l "  ") = Ok [].
Proof.
  split; [reflexivity|].
  apply (proj2 (split_total_and_blank_is_empty (s2l "  "))). reflexivity.
Defined.

(** C3 (the code at a text of the DECLARE class). The text has no GO line
    and no drop-then-create pair, and after comment stripping it matches
    the DECLARE pattern of [complex_patterns]; it is nevertheless handed to
    the character scan and comes back as two units.  The same happens for a
    text of the BEGIN...END class and for one of the VIEW class. *)
Theorem declare_text_is_split_by_the_scan :
  found go_re (s2l "DECLARE @x INT; SELECT @x") = false
  /\ drop_then_create (s2l "DECLARE @x INT; SELECT @x") = None
  /\ found (nth 5 complex_patterns Eps)
           (strip_comments (s2l "DECLARE @x INT; SELECT @x")) = true
  /\ split_sql "DECLARE @x INT; SELECT @x"
     = Ok ["DECLARE @x INT"; "SELECT @x"]%string
  /\ found (nth 6 complex_patterns Eps)
           (strip_comments (s2l "BEGIN SELECT 1; END; SELECT 2")) = true
  /\ split_sql "BEGIN SELECT 1; END; SELECT 2"
     = Ok ["BEGIN SELECT 1; END"; "SELECT 2"]%string
  /\ found (nth 3 complex_patterns Eps)
           (strip_comments (s2l "CREATE VIEW v AS SELECT 1; SELECT 2")) = true
  /\ split_sql "CREATE VIEW v AS SELECT 1; SELECT 2"
     = Ok ["CREATE VIEW v AS SELECT 1"; "SELECT 2"]%string.
Proof. repeat split; vm_compute; reflexivity. Qed.

(** C4. When some line of the text, trimmed, equals GO in any letter
    case, the units are exactly the non-empty trimmed segments between the
    separator lines, in order: the text is divided on those lines only and
    no other step (drop-then-create pairing, comment stripping, atomic
    detection, character scan) touches a segment.  The sample text gives
    its three statements in order. *)
Theorem go_lines_alone_divide_the_text :
  (forall query,
     existsb is_go_line (split_chr nl query) = true ->
     _split_sql_statements query = Ok (go_units_spec query))
  /\ _split_sql_statements
       (s2l "stmt1" ++ nl :: s2l "GO" ++ nl :: s2l "stmt2" ++ nl
        :: s2l "GO" ++ nl :: s2l "stmt3")
     = Ok [s2l "stmt1"; s2l "stmt2"; s2l "stmt3"].
Proof.
  split; [|vm_compute; reflexivity].
  intros query H. rewrite <- GoFacts.has_go_strip in H.
  unfold _split_sql_statements.
  destruct (strip query) as [|c t] eqn:E; [discriminate H|].
  cbn [nonempty negb]. rewrite <- E in *. clear E c t.
  assert (Hf : found go_re (strip query) = true).
  { unfold found, search.
    pose proof (GoFacts.search_go_line (split_chr nl (strip query)) []
                  (GoFacts.split_chr_no_nl _) H eq_refl) as Hs.
    rewrite GoFacts.join_split_chr in Hs.
    destruct (search_from go_re [] (strip query)); [reflexivity|].
    contradiction. }
  rewrite Hf, GoFacts.go_batches_units, GoFacts.units_from_strip.
  rewrite GoFacts.go_units_spec_eq. reflexivity.
Qed.

Lemma go_lines_alone_divide_the_text_witness :
  _split_sql_statements (s2l "a; b" ++ nl :: s2l " go " ++ nl :: s2l "c; d")
  = Ok [s2l "a; b"; s2l "c; d"].
Proof.
  apply (proj1 go_lines_alone_divide_the_text
           (s2l "a; b" ++ nl :: s2l " go " ++ nl :: s2l "c; d")).
  reflexivity.
Defined.

End SplitterFacts.

(** ** The executor *)

Module ExecutorFacts.

Import Fmt Executor ExecSpec Demo RunSpec.
Local Open Scope string_scope.
Local Open Scope list_scope.

Lemma firstn_nil_inv {A} (n : nat) (l : list A) :
  firstn (S n) l = [] -> l = [].
Proof. destruct l; [reflexivity|discriminate]. Qed.

(** The batch loop delivers every pending row within its budget. *)
Lemma fetch_all_ok (fuel : nat) (pending fetched : list row) :
  length pending < fuel ->
  fetch_all fuel pending fetched = Ok (fetched ++ pending).
Proof.
  revert pending fetched.
  induction fuel as [|fuel IH]; intros pending fetched Hlt; [lia|].
  cbn [fetch_all].
  destruct (firstn 1000 pending) as [|r batch] eqn:E.
  - apply firstn_nil_inv in E. subst. rewrite app_nil_r. reflexivity.
  - rewrite IH.
    + rewrite <- app_assoc, <- E, firstn_skipn. reflexivity.
    + rewrite length_skipn. destruct pending; [discriminate E|].
      cbn [length] in *. lia.
Qed.

Lemma collect_current_ok (rs : result_set) (result_sets : list collected) :
  collect_current rs result_sets = Ok (result_sets ++ kept rs).
Proof.
  unfold collect_current, kept.
  destruct (has_columns (description rs)) as [d|]; [|reflexivity].
  rewrite fetch_all_ok by lia. cbn [bind app].
  destruct (rows rs); [rewrite app_nil_r|]; reflexivity.
Qed.

(** What the loop over the results of one execution returns. *)
Lemma drain_ok (rest : after_set) (rs : result_set)
    (result_sets : list collected) :
  drain rest rs result_sets =
  match nextset_error rest with
  | Some e => Raise (to_exn e)
  | None => Ok (result_sets ++ flat_map kept (rs :: sets_after rest),
                option_map to_exn (commit_error_of rest))
  end.
Proof.
  revert rs result_sets.
  induction rest as [e|rs' rest IH|c]; intros rs result_sets;
    cbn [drain]; rewrite collect_current_ok; cbn [bind].
  - reflexivity.
  - rewrite IH. cbn [nextset_error sets_after commit_error_of].
    destruct (nextset_error rest); [reflexivity|].
    cbn [flat_map]. rewrite <- app_assoc. reflexivity.
  - cbn [nextset_error sets_after commit_error_of flat_map].
    rewrite app_nil_r. reflexivity.
Qed.

Lemma to_exn_not_diverges (e : raised) : to_exn e <> Diverges.
Proof. unfold to_exn. destruct (is_database_error e); discriminate. Qed.

Lemma try_statement_returns (db : string) (i : nat) (r : reaction) (a : acc) :
  snd (try_statement db i r a) <> Some Diverges.
Proof.
  unfold try_statement. destruct r as [e|rs rest]; cbn [snd].
  - intros H. injection H as H. exact (to_exn_not_diverges e H).
  - rewrite drain_ok. destruct (nextset_error rest) as [e|]; cbn [snd].
    + intros H. injection H as H. exact (to_exn_not_diverges e H).
    + destruct (commit_error_of rest) as [e|]; cbn [option_map];
        [|discriminate].
      intros H. injection H as H. exact (to_exn_not_diverges e H).
Qed.

(** *** What a statement leaves in the record *)

Ltac acc_eq :=
  unfold acc_plus, add_rows, add_result, add_error, count_statement;
  cbn [db_total_rows db_errors db_statement_count db_results];
  f_equal; rewrite <- ?app_assoc, ?app_nil_r; try reflexivity; try lia.

Lemma acc_plus_zero (a : acc) : acc_plus a 0 [] 0 [] = a.
Proof. destruct a. acc_eq. Qed.

Lemma acc_plus_plus (a : acc) (r1 : nat) (e1 : list string) (n1 : nat)
    (b1 : list block) (r2 : nat) (e2 : list string) (n2 : nat)
    (b2 : list block) :
  acc_plus (acc_plus a r1 e1 n1 b1) r2 e2 n2 b2
  = acc_plus a (r1 + r2) (e1 ++ e2) (n1 + n2) (b1 ++ b2).
Proof. acc_eq. Qed.

Lemma list_sum_cons (x : nat) (l : list nat) :
  list_sum (x :: l) = x + list_sum l.
Proof. reflexivity. Qed.

Lemma numbered_cons {A} (i : nat) (x : A) (l : list A) :
  numbered i (x :: l) = (i, x) :: numbered (S i) l.
Proof. reflexivity. Qed.

Lemma format_results_exact (db : string) (i : nat) (many : bool)
    (cs : list collected) :
  forall (j : nat) (a : acc),
    format_results db i many j cs a
    = acc_plus a (list_sum (map rows_of cs)) [] 0
        (map (fun jc => block_of db i many (fst jc) (snd jc))
             (numbered j cs)).
Proof.
  induction cs as [|c cs IH]; intros j a; cbn [format_results].
  - symmetry. apply acc_plus_zero.
  - rewrite numbered_cons. cbn [map fst snd]. rewrite list_sum_cons.
    destruct c as [d data|data]; rewrite IH; cbn [block_of rows_of];
      rewrite !Nat.add_1_r; acc_eq.
Qed.

Lemma record_results_exact (db : string) (i : nat) (cs : list collected)
    (a : acc) :
  record_results db i cs a
  = acc_plus a (list_sum (map rows_of cs)) [] 0 (result_blocks db i cs).
Proof.
  unfold record_results, result_blocks. destruct cs as [|c cs].
  - cbn [map list_sum fold_right]. acc_eq.
  - apply format_results_exact.
Qed.

Lemma to_exn_database (e : raised) :
  is_database_error e = true -> to_exn e = DatabaseError (text e).
Proof. intros H. unfold to_exn. rewrite H. reflexivity. Qed.

Lemma to_exn_other (e : raised) :
  is_database_error e = false -> to_exn e = OtherError (text e).
Proof. intros H. unfold to_exn. rewrite H. reflexivity. Qed.

(** The body of the inner [try]: the blocks and rows of the kept result
    sets when the results were formatted, and the exception of the
    statement. *)
Lemma try_statement_exact (db : string) (i : nat) (r : reaction) (a : acc) :
  try_statement db i r a
  = (acc_plus a (statement_rows r) [] 0 (kept_blocks db i r),
     option_map to_exn (raised_by r)).
Proof.
  unfold try_statement, statement_rows, kept_blocks, kept_sets, formatted,
    raised_by.
  destruct r as [e|rs rest].
  - cbn [map list_sum fold_right option_map]. rewrite acc_plus_zero.
    reflexivity.
  - rewrite drain_ok. destruct (nextset_error rest) as [e|].
    + cbn [map list_sum fold_right option_map]. rewrite acc_plus_zero.
      reflexivity.
    + cbn [app]. rewrite record_results_exact. reflexivity.
Qed.


Section Run.

Variable DB : Type.
Variable Time : Type.
Variable time_now : DB -> Time.
Variable time_sub : Time -> Time -> Time.
Variable fmt3 : Time -> string.
Variable now_text : DB -> string.
Variable connect : string -> DB -> DB * option raised.
Variable execute : string -> str -> DB -> DB * reaction.

Local Abbreviation run_statement := (run_statement DB execute).
Local Abbreviation run_statements := (run_statements DB execute).
Local Abbreviation execute_on_database :=
  (_execute_on_database DB Time time_now time_sub connect execute).
Local Abbreviation run_databases :=
  (run_databases DB Time time_now time_sub connect execute).
Local Abbreviation execute_query :=
  (execute_query DB Time time_now time_sub fmt3 now_text connect execute).
Local Abbreviation ran_each :=
  (ran_each DB Time time_now time_sub connect execute).

Lemma run_statement_returns (db : string) (i : nat) (statement : str)
    (s : DB) (a : acc) :
  snd (run_statement db i statement s a) <> Some Diverges.
Proof.
  unfold Executor.run_statement.
  destruct (execute db statement s) as [s1 r].
  pose proof (try_statement_returns db i r (count_statement a)) as H.
  destruct (try_statement db i r (count_statement a)) as [a1 [e|]];
    cbn [snd] in *; [|discriminate].
  destruct e; cbn [snd]; try discriminate. exact H.
Qed.

Lemma run_statements_returns (db : string) (statements : list str) (i : nat)
    (s : DB) (a : acc) :
  snd (run_statements db statements i s a) <> Some Diverges.
Proof.
  revert i s a. induction statements as [|st more IH]; intros i s a;
    cbn [Executor.run_statements]; [discriminate|].
  pose proof (run_statement_returns db i st s a) as H.
  destruct (run_statement db i st s a) as [[s1 a1] [e|]]; cbn [snd] in *.
  - exact H.
  - apply IH.
Qed.

(** [_execute_on_database] returns a record whatever the driver does. *)
Lemma execute_on_database_returns (db : string) (statements : list str)
    (w : world DB) :
  exists w' info,
    execute_on_database db statements w = (w', Ok info)
    /\ name info = db
    /\ status info
       = match errors info with [] => "Success" | _ :: _ => "Error" end.
Proof.
  unfold _execute_on_database. cbn [server message_queue connection_log put].
  destruct (connect db (server w)) as [s1 [e|]].
  - pose proof (to_exn_not_diverges e) as H.
    destruct (to_exn e); try contradiction;
      (do 2 eexists; split; [reflexivity|split; reflexivity]).
  - pose proof (run_statements_returns db statements 1 s1 acc_init) as H.
    destruct (run_statements db statements 1 s1 acc_init) as [[s2 a] [e|]];
      cbn [snd] in H.
    + destruct e; try contradiction;
        (do 2 eexists; split; [reflexivity|split; [reflexivity|]]);
        cbn [errors add_error add_result db_errors];
        destruct (db_errors a); reflexivity.
    + do 2 eexists; split; [reflexivity|split; [reflexivity|]].
      cbn [errors]. destruct (db_errors a); reflexivity.
Qed.

Lemma run_databases_ok (dbs : list string) (statements : list str)
    (w : world DB) (databases_info : list (db_info Time)) (total : nat) :
  exists w' infos,
    run_databases dbs statements w databases_info total
    = (w', Ok (databases_info ++ infos,
               total + list_sum (map total_rows infos)))
    /\ map name infos = dbs
    /\ ran_each statements w dbs infos w'.
Proof.
  revert w databases_info total.
  induction dbs as [|db dbs IH]; intros w databases_info total;
    cbn [Executor.run_databases].
  - exists w, []. rewrite app_nil_r. cbn [map list_sum].
    rewrite Nat.add_0_r. repeat split. constructor.
  - destruct (execute_on_database_returns db statements w)
      as (w1 & info & Hrun & Hname & _).
    rewrite Hrun.
    destruct (IH w1 (databases_info ++ [info]) (total + total_rows info))
      as (w2 & infos & Hrest & Hnames & Hran).
    exists w2, (info :: infos). rewrite Hrest.
    cbn [map list_sum fold_right]. fold (list_sum (map total_rows infos)).
    rewrite <- app_assoc, Nat.add_assoc.
    repeat split.
    + rewrite Hname, Hnames. reflexivity.
    + econstructor; eassumption.
Qed.

Lemma put_all_queue (rs : list block) (w : world DB) :
  message_queue (fold_left (fun w r => put (ResultMessage r) w) rs w)
  = message_queue w ++ map ResultMessage rs
  /\ server (fold_left (fun w r => put (ResultMessage r) w) rs w) = server w.
Proof.
  revert w. induction rs as [|r rs IH]; intros w; cbn [fold_left map].
  - rewrite app_nil_r. split; reflexivity.
  - destruct (IH (put (ResultMessage r) w)) as [-> ->].
    cbn [put message_queue server]. rewrite <- app_assoc. split; reflexivity.
Qed.

Lemma put_each_queue (infos : list (db_info Time)) (w : world DB) :
  message_queue
    (fold_left
       (fun w info =>
          fold_left (fun w r => put (ResultMessage r) w) (results info) w)
       infos w)
  = message_queue w ++ map ResultMessage (flat_map results infos).
Proof.
  revert w. induction infos as [|info infos IH]; intros w;
    cbn [fold_left flat_map map].
  - rewrite app_nil_r. reflexivity.
  - rewrite IH. destruct (put_all_queue (results info) w) as [-> _].
    rewrite map_app, app_assoc. reflexivity.
Qed.

Lemma put_all_log (rs : list block) (w : world DB) :
  connection_log (fold_left (fun w r => put (ResultMessage r) w) rs w)
  = connection_log w.
Proof.
  revert w. induction rs as [|r rs IH]; intros w; cbn [fold_left];
    [reflexivity|].
  rewrite IH. reflexivity.
Qed.

Lemma put_each_log (infos : list (db_info Time)) (w : world DB) :
  connection_log
    (fold_left
       (fun w info =>
          fold_left (fun w r => put (ResultMessage r) w) (results info) w)
       infos w)
  = connection_log w.
Proof.
  revert w. induction infos as [|info infos IH]; intros w; cbn [fold_left];
    [reflexivity|].
  rewrite IH. apply put_all_log.
Qed.

Lemma send_results_log (infos : list (db_info Time)) (t : Time) (n : nat)
    (w : world DB) :
  connection_log (_send_results DB Time fmt3 now_text infos t n w)
  = connection_log w.
Proof. unfold _send_results. rewrite put_each_log. reflexivity. Qed.

(** Every call of [_execute_on_database] is one call of
    [database_connection]. *)
Lemma execute_on_database_log (db : string) (statements : list str)
    (w : world DB) :
  connection_log (fst (execute_on_database db statements w))
  = connection_log w ++ [db].
Proof.
  unfold _execute_on_database. cbn [server message_queue connection_log put].
  destruct (connect db (server w)) as [s1 [e|]].
  - destruct (to_exn e); reflexivity.
  - destruct (run_statements db statements 1 s1 acc_init) as [[s2 a] [e|]];
      [destruct e|]; reflexivity.
Qed.

Lemma ran_each_log (statements : list str) (w w' : world DB)
    (dbs : list string) (infos : list (db_info Time)) :
  ran_each statements w dbs infos w' ->
  connection_log w' = connection_log w ++ dbs.
Proof.
  induction 1 as [w|w db dbs w1 info infos w2 Hrun _ IH].
  - symmetry. apply app_nil_r.
  - rewrite IH. pose proof (execute_on_database_log db statements w) as Hl.
    rewrite Hrun in Hl. cbn [fst] in Hl. rewrite Hl, <- app_assoc. reflexivity.
Qed.

Lemma summary_data_rows_eq (infos : list (db_info Time)) (lines : list string) :
  summary_data_rows Time fmt3 infos lines
  = lines ++ map (data_row Time fmt3) (rev infos).
Proof.
  unfold summary_data_rows. generalize (rev infos) as l. clear infos.
  intros l. revert lines.
  induction l as [|info l IH]; intros lines; cbn [fold_left map].
  - rewrite app_nil_r. reflexivity.
  - rewrite IH, <- app_assoc. reflexivity.
Qed.

Lemma format_results_blocks (db : string) (i : nat) (many : bool) (j : nat)
    (result_sets : list collected) (a : acc) :
  exists blocks,
    db_results (format_results db i many j result_sets a)
    = db_results a ++ blocks
    /\ length blocks = length result_sets.
Proof.
  revert j a. induction result_sets as [|c more IH]; intros j a;
    cbn [format_results].
  - exists []. rewrite app_nil_r. split; reflexivity.
  - destruct c as [d data|data];
      match goal with
      | |- context [format_results _ _ _ _ _ ?a'] =>
          destruct (IH (j + 1) a') as (blocks & -> & Hlen)
      end;
      cbn [db_results add_rows add_result]; rewrite <- app_assoc;
      eexists; (split; [reflexivity|]); cbn [length app]; lia.
Qed.

(** One iteration of the statement loop, by the exception of the
    statement. *)
Lemma run_statement_exact (db : string) (i : nat) (statement : str)
    (s s1 : DB) (a : acc) (r : reaction) :
  execute db statement s = (s1, r) ->
  run_statement db i statement s a
  = match raised_by r with
    | None =>
        (s1, acc_plus a (statement_rows r) [] 1 (kept_blocks db i r), None)
    | Some e =>
        if is_database_error e
        then (s1,
              acc_plus a (statement_rows r)
                [("Statement " ++ str_of_nat i ++ ": " ++ text e)%string] 1
                (kept_blocks db i r ++ [StatementErrorBlock db i (text e)]),
              None)
        else (s1, acc_plus a (statement_rows r) [] 1 (kept_blocks db i r),
              Some (OtherError (text e)))
    end.
Proof.
  intros Hex. unfold Executor.run_statement.
  rewrite Hex, try_statement_exact.
  destruct (raised_by r) as [e|]; cbn [option_map].
  - destruct (is_database_error e) eqn:Ed.
    + rewrite (to_exn_database e Ed). cbv beta iota.
      f_equal. f_equal. acc_eq.
    + rewrite (to_exn_other e Ed). cbv beta iota.
      f_equal. f_equal. acc_eq.
  - cbv beta iota. f_equal. f_equal. acc_eq.
Qed.

Lemma run_statement_continues (db : string) (i : nat) (statement : str)
    (s s1 : DB) (a : acc) (r : reaction) :
  execute db statement s = (s1, r) -> database_error_or_none r = true ->
  run_statement db i statement s a
  = (s1,
     acc_plus a (statement_rows r) (statement_errors i r) 1
              (statement_blocks db i r),
     None).
Proof.
  intros Hex Hd. rewrite (run_statement_exact db i statement s s1 a r Hex).
  unfold database_error_or_none, statement_errors, statement_blocks in *.
  destruct (raised_by r) as [e|]; [rewrite Hd; reflexivity|].
  rewrite app_nil_r. reflexivity.
Qed.

(** The statement loop when no statement raises anything but a database
    error: every statement is executed and leaves its blocks, rows and
    error message. *)
Lemma run_statements_exact (db : string) (statements : list str) :
  forall (i : nat) (s : DB) (a : acc),
    forallb database_error_or_none (reactions DB execute db statements s)
    = true ->
    run_statements db statements i s a
    = (server_after DB execute db statements s,
       acc_plus a
         (list_sum (map statement_rows
                        (reactions DB execute db statements s)))
         (flat_map (fun ir => statement_errors (fst ir) (snd ir))
                   (numbered i (reactions DB execute db statements s)))
         (length statements)
         (flat_map (fun ir => statement_blocks db (fst ir) (snd ir))
                   (numbered i (reactions DB execute db statements s))),
       None).
Proof.
  induction statements as [|statement more IH]; intros i s a H;
    cbn [Executor.run_statements reactions server_after].
  - cbn. rewrite acc_plus_zero. reflexivity.
  - cbn [reactions] in H.
    destruct (execute db statement s) as [s1 r] eqn:Hex. cbn [fst].
    cbn [forallb] in H. apply andb_true_iff in H as [Hr Hmore].
    rewrite (run_statement_continues db i statement s s1 a r Hex Hr).
    rewrite (IH (i + 1) s1 _ Hmore), acc_plus_plus, numbered_cons.
    rewrite Nat.add_1_r. cbn [flat_map fst snd map length].
    rewrite list_sum_cons. reflexivity.
Qed.

(** The statement loop when a statement raises an exception that is not
    a database error: the statements after it are not executed. *)
Lemma run_statements_stop (db : string) (pre : list str) (statement : str)
    (more : list str) (e : raised) :
  forall (i : nat) (s : DB) (a : acc),
    forallb database_error_or_none (reactions DB execute db pre s) = true ->
    raised_by (snd (execute db statement (server_after DB execute db pre s)))
    = Some e ->
    is_database_error e = false ->
    run_statements db (pre ++ statement :: more) i s a
    = (fst (execute db statement (server_after DB execute db pre s)),
       acc_plus a
         (list_sum (map statement_rows (reactions DB execute db pre s))
          + statement_rows
              (snd (execute db statement
                            (server_after DB execute db pre s))))
         (flat_map (fun ir => statement_errors (fst ir) (snd ir))
                   (numbered i (reactions DB execute db pre s)))
         (length pre + 1)
         (flat_map (fun ir => statement_blocks db (fst ir) (snd ir))
                   (numbered i (reactions DB execute db pre s))
          ++ kept_blocks db (i + length pre)
               (snd (execute db statement
                             (server_after DB execute db pre s)))),
       Some (OtherError (text e))).
Proof.
  induction pre as [|p pre IH]; intros i s a H He Hd;
    cbn [app Executor.run_statements reactions server_after] in *.
  - destruct (execute db statement s) as [s1 r] eqn:Hex. cbn [fst snd] in *.
    rewrite (run_statement_exact db i statement s s1 a r Hex), He, Hd.
    cbn [length flat_map map list_sum fold_right numbered combine seq app].
    rewrite Nat.add_0_r. reflexivity.
  - destruct (execute db p s) as [s1 r] eqn:Hex. cbn [fst snd] in *.
    cbn [forallb] in H. apply andb_true_iff in H as [Hr Hpre].
    rewrite (run_statement_continues db i p s s1 a r Hex Hr).
    rewrite (IH (i + 1) s1 _ Hpre He Hd), acc_plus_plus, numbered_cons.
    rewrite Nat.add_1_r. cbn [flat_map fst snd map length].
    rewrite list_sum_cons, <- !app_assoc, !Nat.add_assoc.
    replace (S i + length pre) with (i + S (length pre)) by lia.
    reflexivity.
Qed.


(** C7 (as the code has it). The status of the record
    [_execute_on_database] returns is [Success] when the record's error
    list is empty and [Error] otherwise. *)
Theorem status_is_success_or_error (db : string) (statements : list str)
    (w : world DB) :
  exists w' info,
    execute_on_database db statements w = (w', Ok info)
    /\ status info
       = match errors info with [] => "Success" | _ :: _ => "Error" end.
Proof.
  destruct (execute_on_database_returns db statements w)
    as (w' & info & H & _ & Hs).
  exists w', info. split; assumption.
Qed.


(** C6 (as the code has it). [_send_results] puts the summary on the queue
    and then the rendered blocks target by target in reverse order of the
    records; the rows of the summary table are in that same reverse
    order. *)
Theorem blocks_and_summary_rows_in_reverse_order
    (infos : list (db_info Time)) (t : Time) (n : nat) (w : world DB) :
  message_queue (_send_results DB Time fmt3 now_text infos t n w)
  = message_queue w
    ++ ExecutionSummary
         (join_lines
            (summary_head DB Time fmt3 now_text infos t n (server w)
             ++ map (data_row Time fmt3) (rev infos)
             ++ [sep_row; repeat_str "=" 100; ""]))
       :: map ResultMessage (flat_map results (rev infos)).
Proof.
  unfold _send_results. rewrite put_each_queue.
  cbn [put message_queue]. rewrite <- app_assoc. cbn [app].
  unfold _generate_execution_summary, summary_lines.
  rewrite summary_data_rows_eq, <- app_assoc. reflexivity.
Qed.

(** C5. [execute_query] raises a validation error exactly when the query
    text is empty or blank, the target list is empty, or the text splits
    into no unit; it raises nothing else, and when it raises the world is
    as it was: nothing was put on the queue and no connection was opened.
    When it does not raise, one connection per target was asked for. *)
Theorem validation_rejects_before_any_work (dbs : list string)
    (query : query_arg) (w : world DB) :
  ((strip (query_text query) = [] \/ dbs = []
    \/ _split_sql_statements (query_text query) = Ok [])
   <-> exists msg, snd (execute_query dbs query w) = Raise (ValueError msg))
  /\ (forall e, snd (execute_query dbs query w) = Raise e ->
      (exists msg, e = ValueError msg)
      /\ fst (execute_query dbs query w) = w
      /\ connection_log (fst (execute_query dbs query w)) = connection_log w)
  /\ (forall r, snd (execute_query dbs query w) = Ok r ->
      connection_log (fst (execute_query dbs query w))
      = connection_log w ++ dbs).
Proof.
  unfold Executor.execute_query.
  destruct (strip (query_text query)) as [|c q'] eqn:Es.
  { replace (negb (nonempty (query_text query)) || negb (nonempty []))
      with true by (cbn; rewrite orb_true_r; reflexivity).
    cbn [fst snd]. split; [|split].
    - split; eauto.
    - intros e H. injection H as <-. eauto.
    - intros r H. discriminate H. }
  assert (Hq : negb (nonempty (query_text query)) = false).
  { destruct (query_text query); [discriminate Es|reflexivity]. }
  rewrite Hq. cbn [negb nonempty orb].
  destruct dbs as [|db dbs].
  { cbn [fst snd]. split; [|split].
    - split; eauto.
    - intros e H. injection H as <-. eauto.
    - intros r H. discriminate H. }
  destruct (SplitterFacts.split_returns (query_text query)) as (units & ->).
  destruct units as [|st sts].
  { cbn [fst snd]. split; [|split].
    - split; eauto.
    - intros e H. injection H as <-. eauto.
    - intros r H. discriminate H. }
  destruct (run_databases_ok (db :: dbs) (st :: sts) w [] 0)
    as (w1 & infos & -> & _ & Hran). cbn [fst snd]. split; [|split].
  - split.
    + intros [H|[H|H]]; discriminate.
    + intros [msg H]. discriminate.
  - intros e H. discriminate.
  - intros r _. rewrite send_results_log. exact (ran_each_log _ _ _ _ _ Hran).
Qed.

End Run.


Lemma validation_rejects_before_any_work_witness :
  exists msg,
    snd (demo_execute_query [] (QueryText (s2l "SELECT 1")) demo_world)
    = Raise (ValueError msg).
Proof.
  apply (proj1 (proj1 (validation_rejects_before_any_work
                         nat nat (fun s => s) Nat.sub demo_fmt3 demo_now_text
                         demo_connect demo_execute
                         [] (QueryText (s2l "SELECT 1")) demo_world))).
  right. left. reflexivity.
Defined.



(** On the unreachable target the error list is not empty and the status
    is not [Failed]. *)
Lemma status_failed_counterexample :
  exists w' info,
    demo_execute_on_database "B" [s2l "SELECT 1"] demo_world = (w', Ok info)
    /\ errors info <> []
    /\ status info <> "Failed".
Proof.
  do 2 eexists. split; [reflexivity|]. split; discriminate.
Qed.


(** After a run over the targets A then B, the summary whose table rows
    are in completion order is not what was put on the queue. *)
Lemma summary_completion_order_counterexample :
  exists w' r,
    demo_execute_query ["A"; "B"] (QueryText (s2l "SELECT 1")) demo_world
    = (w', Ok r)
    /\ map name (run_databases_info r) = ["A"; "B"]
    /\ ~ In (ExecutionSummary
               (join_lines
                  (summary_lines_completion_order nat nat demo_fmt3
                     demo_now_text (run_databases_info r) (run_exec_time r)
                     (run_total_rows r) (server w'))))
            (message_queue w').
Proof.
  do 2 eexists. split; [vm_compute; reflexivity|]. split; [reflexivity|].
  vm_compute. intros H.
  repeat (destruct H as [H|H]; [discriminate H|]). exact H.
Qed.

End ExecutorFacts.

(** ** Further properties of the executor *)

Module ExecutorMore.

Import Fmt Executor ExecSpec Demo ExecutorFacts.
Local Open Scope string_scope.
Local Open Scope list_scope.

Lemma exn_text_to_exn (e : raised) : exn_text (to_exn e) = text e.
Proof. unfold to_exn. destruct (is_database_error e); reflexivity. Qed.

Lemma count_app {A} (p : A -> bool) (l1 l2 : list A) :
  count p (l1 ++ l2) = count p l1 + count p l2.
Proof. unfold count. rewrite filter_app, length_app. reflexivity. Qed.

Lemma list_sum_snoc (l : list nat) (n : nat) :
  list_sum (l ++ [n]) = list_sum l + n.
Proof. rewrite list_sum_app. cbn. lia. Qed.

(** Recording the results of one execution keeps the accumulators in
    agreement with the blocks. *)
Lemma format_results_agrees (db : string) (i : nat) (many : bool) (j : nat)
    (result_sets : list collected) (a : acc) :
  acc_agrees a -> acc_agrees (format_results db i many j result_sets a).
Proof.
  revert j a. induction result_sets as [|c more IH]; intros j a H;
    cbn [format_results]; [exact H|].
  destruct H as (He & Hr & Hc).
  destruct c as [d data|data]; apply IH; unfold acc_agrees;
    cbn [db_errors db_results db_total_rows add_rows add_result];
    rewrite !count_app, map_app, list_sum_app.
  - cbn. repeat split; lia.
  - destruct (data >? 0)%Z; cbn; repeat split; lia.
Qed.

Lemma record_results_agrees (db : string) (i : nat)
    (result_sets : list collected) (a : acc) :
  acc_agrees a -> acc_agrees (record_results db i result_sets a).
Proof.
  intros H. unfold record_results. destruct result_sets as [|c cs].
  - destruct H as (He & Hr & Hc). unfold acc_agrees.
    cbn [db_errors db_results db_total_rows add_result].
    rewrite !count_app, map_app, list_sum_app. cbn. repeat split; lia.
  - apply format_results_agrees. exact H.
Qed.

Lemma try_statement_agrees (db : string) (i : nat) (r : reaction) (a : acc) :
  acc_agrees a -> acc_agrees (fst (try_statement db i r a)).
Proof.
  intros H. unfold try_statement. destruct r as [e|rs rest]; [exact H|].
  destruct (drain rest rs []) as [[result_sets c]|e]; [|exact H].
  apply record_results_agrees. exact H.
Qed.

Lemma try_statement_count (db : string) (i : nat) (r : reaction) (a : acc) :
  db_statement_count (fst (try_statement db i r a)) = db_statement_count a.
Proof.
  unfold try_statement. destruct r as [e|rs rest]; [reflexivity|].
  destruct (drain rest rs []) as [[result_sets c]|e]; [|reflexivity].
  cbn [fst]. unfold record_results. destruct result_sets as [|x xs];
    [reflexivity|].
  generalize (1 <? length (x :: xs))%nat as many. generalize 0 as j.
  generalize (x :: xs) as l. clear. intros l. revert a.
  induction l as [|c l IH]; intros a j many; cbn [format_results];
    [reflexivity|].
  destruct c; rewrite IH; reflexivity.
Qed.

(** *** The width of the rows of the summary table *)

Lemma length_append (s1 s2 : string) :
  String.length (s1 ++ s2) = String.length s1 + String.length s2.
Proof.
  induction s1 as [|c s1 IH]; cbn [append String.length];
    [reflexivity|rewrite IH; reflexivity].
Qed.

Lemma length_repeat_str (c : ascii) (n : nat) :
  String.length (repeat_str (String c "") n) = n.
Proof.
  induction n as [|n IH]; cbn [repeat_str append String.length];
    [reflexivity|rewrite IH; reflexivity].
Qed.

Lemma length_prefix_n (n : nat) (s : string) :
  String.length (prefix_n n s) = Nat.min n (String.length s).
Proof.
  unfold prefix_n. revert n. induction s as [|c s IH]; intros [|n];
    cbn [substring String.length Nat.min]; try reflexivity.
  rewrite IH. reflexivity.
Qed.

Lemma length_ljust (w : nat) (s : string) :
  String.length (ljust w s) = Nat.max w (String.length s).
Proof.
  unfold ljust. rewrite length_append.
  change " " with (String " "%char ""). rewrite length_repeat_str. lia.
Qed.

Lemma length_error_summary (errs : list string) :
  String.length (str_of_nat (length errs)) <= 20 ->
  String.length (error_summary errs) <= 29.
Proof.
  intros H. unfold error_summary. destruct errs as [|e [|e' errs]].
  - cbn. lia.
  - destruct (25 <? String.length e)%nat eqn:E.
    + rewrite length_append, length_prefix_n. cbn [String.length]. lia.
    + apply Nat.ltb_ge in E. lia.
  - rewrite length_append. cbn [String.length] in *. lia.
Qed.

Lemma length_table_row (c1 c2 c3 c4 c5 c6 : string) :
  String.length c1 <= 19 -> String.length c2 <= 9 ->
  String.length c3 <= 11 -> String.length c4 <= 11 ->
  String.length c5 <= 9 -> String.length c6 <= 29 ->
  String.length (table_row [c1; c2; c3; c4; c5; c6]) = 101.
Proof.
  intros H1 H2 H3 H4 H5 H6. unfold table_row, col_widths.
  cbn [combine fold_left fst snd].
  repeat (rewrite length_append || rewrite length_ljust).
  cbn [String.length Nat.sub]. lia.
Qed.

Section Run.

Variable DB : Type.
Variable Time : Type.
Variable time_now : DB -> Time.
Variable time_sub : Time -> Time -> Time.
Variable fmt3 : Time -> string.
Variable now_text : DB -> string.
Variable connect : string -> DB -> DB * option raised.
Variable execute : string -> str -> DB -> DB * reaction.

Local Abbreviation run_statement := (run_statement DB execute).
Local Abbreviation run_statements := (run_statements DB execute).
Local Abbreviation execute_on_database :=
  (_execute_on_database DB Time time_now time_sub connect execute).
Local Abbreviation run_databases :=
  (run_databases DB Time time_now time_sub connect execute).
Local Abbreviation execute_query :=
  (execute_query DB Time time_now time_sub fmt3 now_text connect execute).
Local Abbreviation ran_each :=
  (ran_each DB Time time_now time_sub connect execute).

Lemma run_statement_agrees (db : string) (i : nat) (statement : str)
    (s : DB) (a : acc) :
  acc_agrees a ->
  acc_agrees (snd (fst (run_statement db i statement s a)))
  /\ db_statement_count (snd (fst (run_statement db i statement s a)))
     = db_statement_count a + 1.
Proof.
  intros H. unfold Executor.run_statement.
  destruct (execute db statement s) as [s1 r].
  assert (Hc : acc_agrees (count_statement a)) by exact H.
  pose proof (try_statement_agrees db i r _ Hc) as Ht.
  pose proof (try_statement_count db i r (count_statement a)) as Hn.
  destruct (try_statement db i r (count_statement a)) as [a1 [e|]];
    cbn [fst snd] in *; [|split; [exact Ht|exact Hn]].
  destruct e; cbn [fst snd]; try (split; [exact Ht|exact Hn]).
  split; [|exact Hn].
  destruct Ht as (He & Hr & Hk). unfold acc_agrees.
  cbn [db_errors db_results db_total_rows add_error add_result].
  rewrite length_app, !count_app, map_app, list_sum_app. cbn.
  repeat split; lia.
Qed.

Lemma run_statements_agrees (db : string) (statements : list str) (i : nat)
    (s : DB) (a : acc) :
  acc_agrees a ->
  acc_agrees (snd (fst (run_statements db statements i s a)))
  /\ db_statement_count (snd (fst (run_statements db statements i s a)))
     <= db_statement_count a + length statements
  /\ (snd (run_statements db statements i s a) = None ->
      db_statement_count (snd (fst (run_statements db statements i s a)))
      = db_statement_count a + length statements).
Proof.
  revert i s a. induction statements as [|st more IH]; intros i s a H;
    cbn [Executor.run_statements].
  - cbn [fst snd length]. split; [exact H|split; lia].
  - destruct (run_statement_agrees db i st s a H) as [H1 H2].
    destruct (run_statement db i st s a) as [[s1 a1] [e|]]; cbn [fst snd] in *.
    + split; [exact H1|split; [cbn [length]; lia|discriminate]].
    + destruct (IH (i + 1) s1 a1 H1) as (I1 & I2 & I3).
      split; [exact I1|split; [cbn [length]; lia|]].
      intros Hn. rewrite (I3 Hn). cbn [length]. lia.
Qed.

Lemma acc_init_agrees : acc_agrees acc_init.
Proof. repeat split. Qed.

(** X1. The record of a target agrees with its blocks: as many error messages
    as error blocks, and a row total that is the sum of the rows the blocks
    show. *)
Theorem record_agrees_with_blocks (db : string) (statements : list str)
    (w : world DB) :
  exists w' info,
    execute_on_database db statements w = (w', Ok info)
    /\ length (errors info) = count is_error_block (results info)
    /\ total_rows info = list_sum (map block_rows (results info)).
Proof.
  unfold _execute_on_database. cbn [server message_queue connection_log put].
  destruct (connect db (server w)) as [s1 [e|]].
  - pose proof (to_exn_not_diverges e) as Hd.
    destruct (to_exn e); try contradiction;
      (do 2 eexists; split; [reflexivity|split; reflexivity]).
  - pose proof (run_statements_returns DB execute db statements 1 s1 acc_init)
      as Hd.
    destruct (run_statements_agrees db statements 1 s1 acc_init acc_init_agrees)
      as ((He & Hr & _) & _).
    destruct (run_statements db statements 1 s1 acc_init) as [[s2 a] [e|]];
      cbn [fst snd] in *.
    + destruct e; try contradiction;
        (do 2 eexists; split; [reflexivity|]);
        cbn [errors results total_rows add_error add_result db_errors
             db_results db_total_rows];
        rewrite length_app, count_app, map_app, list_sum_app; cbn;
        split; lia.
    + do 2 eexists. split; [reflexivity|]. split; assumption.
Qed.

(** X2. The number of statements attempted is at most the number of
    statements, and is that number unless the record holds a connection
    error block. *)
Theorem statement_count_bounds (db : string) (statements : list str)
    (w : world DB) :
  exists w' info,
    execute_on_database db statements w = (w', Ok info)
    /\ statement_count info <= length statements
    /\ (statement_count info = length statements
        \/ 0 < count is_connection_error_block (results info)).
Proof.
  unfold _execute_on_database. cbn [server message_queue connection_log put].
  destruct (connect db (server w)) as [s1 [e|]].
  - pose proof (to_exn_not_diverges e) as Hd.
    destruct (to_exn e); try contradiction;
      (do 2 eexists; split; [reflexivity|]; cbn; split;
       [lia|right; lia]).
  - pose proof (run_statements_returns DB execute db statements 1 s1 acc_init)
      as Hd.
    destruct (run_statements_agrees db statements 1 s1 acc_init acc_init_agrees)
      as ((_ & _ & Hk) & Hle & Heq).
    destruct (run_statements db statements 1 s1 acc_init) as [[s2 a] [e|]];
      cbn [fst snd] in *.
    + destruct e; try contradiction;
        (do 2 eexists; split; [reflexivity|]);
        cbn [statement_count results add_error add_result db_results
             db_statement_count];
        (split; [exact Hle|]); right; rewrite count_app; cbn; lia.
    + do 2 eexists. split; [reflexivity|].
      cbn [statement_count results]. split; [exact Hle|].
      left. apply Heq. reflexivity.
Qed.

(** X3. When the connection cannot be opened no statement is attempted: the
    record has no rows, the single error message and the single block of
    the connection error, and the server is left as the failed connection
    attempt left it. *)
Theorem connection_failure_record (db : string) (statements : list str)
    (w : world DB) (s1 : DB) (e : raised) :
  connect db (server w) = (s1, Some e) ->
  exists w' info,
    execute_on_database db statements w = (w', Ok info)
    /\ server w' = s1
    /\ statement_count info = 0 /\ total_rows info = 0
    /\ status info = "Error"
    /\ errors info = [("Connection: " ++ text e)%string]
    /\ results info = [ConnectionErrorBlock db (text e)].
Proof.
  intros Hc. unfold _execute_on_database.
  cbn [server message_queue connection_log put]. rewrite Hc.
  pose proof (to_exn_not_diverges e) as Hd.
  pose proof (exn_text_to_exn e) as Ht.
  destruct (to_exn e); try contradiction;
    (do 2 eexists; split; [reflexivity|]);
    cbn [server statement_count total_rows status errors results acc_init
         add_error add_result db_errors db_results db_total_rows
         db_statement_count app];
    rewrite Ht; repeat split.
Qed.

Lemma run_statements_app (db : string) (pre post : list str) (i : nat)
    (s : DB) (a : acc) :
  run_statements db (pre ++ post) i s a
  = match run_statements db pre i s a with
    | (s', a', None) => run_statements db post (i + length pre) s' a'
    | (s', a', Some e) => (s', a', Some e)
    end.
Proof.
  revert i s a. induction pre as [|st pre IH]; intros i s a;
    cbn [app Executor.run_statements length].
  - rewrite Nat.add_0_r. reflexivity.
  - destruct (run_statement db i st s a) as [[s1 a1] [e|]]; [reflexivity|].
    rewrite IH. replace (i + 1 + length pre) with (i + S (length pre)) by lia.
    reflexivity.
Qed.

(** X4. An exception that is not a database error, raised while a statement
    is handled, ends the statement loop: the statements after it are not
    executed, whatever they are. *)
Theorem other_exception_stops_the_target (db : string) (pre : list str)
    (statement : str) (more : list str) (i : nat) (s s' s1 : DB)
    (a a' a1 : acc) (r : reaction) (msg : string) :
  run_statements db pre i s a = (s', a', None) ->
  execute db statement s' = (s1, r) ->
  try_statement db (i + length pre) r (count_statement a')
  = (a1, Some (OtherError msg)) ->
  run_statements db (pre ++ statement :: more) i s a
  = (s1, a1, Some (OtherError msg)).
Proof.
  intros Hpre Hex Htry. rewrite run_statements_app, Hpre.
  cbn [Executor.run_statements]. unfold Executor.run_statement.
  rewrite Hex, Htry. reflexivity.
Qed.

Lemma execute_on_database_queue (db : string) (statements : list str)
    (w : world DB) :
  message_queue (fst (execute_on_database db statements w))
  = message_queue w ++ [StatusConnecting db].
Proof.
  unfold _execute_on_database. cbn [server message_queue connection_log put].
  destruct (connect db (server w)) as [s1 [e|]].
  - destruct (to_exn e); reflexivity.
  - destruct (run_statements db statements 1 s1 acc_init) as [[s2 a] [e|]];
      [destruct e|]; reflexivity.
Qed.

Lemma ran_each_queue (statements : list str) (w w' : world DB)
    (dbs : list string) (infos : list (db_info Time)) :
  ran_each statements w dbs infos w' ->
  message_queue w' = message_queue w ++ map StatusConnecting dbs.
Proof.
  induction 1 as [w|w db dbs w1 info infos w2 Hrun _ IH].
  - symmetry. apply app_nil_r.
  - rewrite IH. pose proof (execute_on_database_queue db statements w) as Hq.
    rewrite Hrun in Hq. cbn [fst] in Hq. rewrite Hq, <- app_assoc.
    reflexivity.
Qed.

(** X7. What a run that is not rejected puts on the queue, in order: one
    status message per target in the order of the targets, then the
    summary, then the blocks of the records, last target first.  The row
    total of the run is the sum of the row totals of the records. *)
Theorem run_messages_in_order (dbs : list string) (query : query_arg)
    (w w' : world DB) (r : run_result Time) :
  execute_query dbs query w = (w', Ok r) ->
  (exists summary,
     message_queue w'
     = message_queue w ++ map StatusConnecting dbs
       ++ ExecutionSummary summary
       :: map ResultMessage (flat_map results (rev (run_databases_info r))))
  /\ run_total_rows r = list_sum (map total_rows (run_databases_info r))
  /\ length (run_databases_info r) = length dbs.
Proof.
  intros H. unfold Executor.execute_query in H.
  destruct (negb (nonempty (query_text query))
            || negb (nonempty (strip (query_text query)))); [discriminate|].
  destruct dbs as [|db dbs]; [discriminate|].
  destruct (_split_sql_statements (query_text query)) as [[|st sts]|];
    try discriminate.
  destruct (run_databases_ok DB Time time_now time_sub connect execute
              (db :: dbs) (st :: sts) w [] 0)
    as (w1 & infos & Hrun & Hnames & Hran).
  rewrite Hrun in H. injection H as <- <-. cbn [run_databases_info
    run_total_rows app].
  split; [|split].
  - eexists. unfold _send_results.
    rewrite (put_each_queue DB Time). cbn [put message_queue].
    rewrite (ran_each_queue _ _ _ _ _ Hran), <- !app_assoc. reflexivity.
  - reflexivity.
  - rewrite <- Hnames, length_map. reflexivity.
Qed.

(** X9. The row of a record in the summary table is as wide as the header
    and the separator, 101 characters, whatever the name of the target
    and the texts of its errors are: the name is cut to 19 characters and
    a single error text to 25 characters and an ellipsis.  The four other
    cells are assumed to fit their columns. *)
Theorem summary_row_lines_up (info : db_info Time) :
  String.length (fmt3 (exec_time info)) <= 9 ->
  String.length (thousands (total_rows info)) <= 11 ->
  String.length (str_of_nat (statement_count info)) <= 11 ->
  String.length (status info) <= 9 ->
  String.length (str_of_nat (length (errors info))) <= 20 ->
  String.length (data_row Time fmt3 info) = 101
  /\ String.length (table_row headers) = 101
  /\ String.length sep_row = 101.
Proof.
  intros H2 H3 H4 H5 H6. split; [|split; reflexivity].
  unfold data_row. apply length_table_row; try assumption.
  - rewrite length_prefix_n. lia.
  - apply length_error_summary. exact H6.
Qed.

(** X5. When the move to the next result set fails with a database error,
    the statement leaves only its error block and its error message: the
    result sets fetched before the failure are not recorded and their
    rows are not counted. *)
Theorem nextset_failure_drops_fetched_results (db : string) (i : nat)
    (statement : str) (s s1 : DB) (a : acc) (rs : result_set)
    (rest : after_set) (e : raised) :
  execute db statement s = (s1, Executed rs rest) ->
  nextset_error rest = Some e -> is_database_error e = true ->
  run_statement db i statement s a
  = (s1,
     add_error ("Statement " ++ str_of_nat i ++ ": " ++ text e)
       (add_result (StatementErrorBlock db i (text e)) (count_statement a)),
     None).
Proof.
  intros Hex Hn Hd. unfold Executor.run_statement, try_statement.
  rewrite Hex, drain_ok, Hn. unfold to_exn. rewrite Hd. reflexivity.
Qed.

(** X6. When the commit after a statement fails with a database error, the
    blocks of the statement's result sets are recorded and its rows are
    counted, and the error block and the error message follow them. *)
Theorem commit_failure_keeps_results (db : string) (i : nat)
    (statement : str) (s s1 : DB) (a : acc) (rs : result_set)
    (rest : after_set) (e : raised) :
  execute db statement s = (s1, Executed rs rest) ->
  nextset_error rest = None -> commit_error_of rest = Some e ->
  is_database_error e = true ->
  run_statement db i statement s a
  = (s1,
     add_error ("Statement " ++ str_of_nat i ++ ": " ++ text e)
       (add_result (StatementErrorBlock db i (text e))
          (record_results db i (flat_map kept (rs :: sets_after rest))
             (count_statement a))),
     None).
Proof.
  intros Hex Hn Hc Hd. unfold Executor.run_statement, try_statement.
  rewrite Hex, drain_ok, Hn, Hc. cbn [app option_map].
  unfold to_exn. rewrite Hd. reflexivity.
Qed.

(** *** The executor and the queue *)

Lemma put_requeue (q0 : list message) (m : message) (w : world DB) :
  put m (requeue q0 w) = requeue q0 (put m w).
Proof.
  unfold put, requeue. cbn [server message_queue connection_log].
  rewrite app_assoc. reflexivity.
Qed.

Lemma execute_on_database_frame (q0 : list message) (db : string)
    (statements : list str) (w : world DB) :
  execute_on_database db statements (requeue q0 w)
  = (requeue q0 (fst (execute_on_database db statements w)),
     snd (execute_on_database db statements w)).
Proof.
  unfold _execute_on_database, requeue.
  cbn [server message_queue connection_log put].
  destruct (connect db (server w)) as [s1 [e|]].
  - destruct (to_exn e); cbn [fst snd server message_queue connection_log];
      rewrite app_assoc; reflexivity.
  - destruct (run_statements db statements 1 s1 acc_init) as [[s2 a] [e|]];
      [destruct e|];
      cbn [fst snd server message_queue connection_log];
      rewrite app_assoc; reflexivity.
Qed.

Lemma run_databases_frame (q0 : list message) (dbs : list string)
    (statements : list str) :
  forall (w : world DB) (infos : list (db_info Time)) (total : nat),
    run_databases dbs statements (requeue q0 w) infos total
    = (requeue q0 (fst (run_databases dbs statements w infos total)),
       snd (run_databases dbs statements w infos total)).
Proof.
  induction dbs as [|db dbs IH]; intros w infos total;
    cbn [Executor.run_databases]; [reflexivity|].
  rewrite execute_on_database_frame.
  destruct (execute_on_database db statements w) as [w1 [info|e]];
    cbn [fst snd]; [apply IH|reflexivity].
Qed.

Lemma put_all_frame (q0 : list message) (rs : list block) :
  forall w : world DB,
    fold_left (fun w r => put (ResultMessage r) w) rs (requeue q0 w)
    = requeue q0 (fold_left (fun w r => put (ResultMessage r) w) rs w).
Proof.
  induction rs as [|r rs IH]; intros w; cbn [fold_left]; [reflexivity|].
  rewrite put_requeue. apply IH.
Qed.

Lemma send_results_frame (q0 : list message) (infos : list (db_info Time))
    (t : Time) (n : nat) (w : world DB) :
  _send_results DB Time fmt3 now_text infos t n (requeue q0 w)
  = requeue q0 (_send_results DB Time fmt3 now_text infos t n w).
Proof.
  unfold _send_results. rewrite put_requeue.
  change (server (requeue q0 w)) with (server w).
  generalize (put (ExecutionSummary
                     (_generate_execution_summary DB Time fmt3 now_text
                        infos t n (server w))) w) as w1.
  induction (rev infos) as [|info l IH]; intros w1; cbn [fold_left];
    [reflexivity|].
  rewrite put_all_frame. apply IH.
Qed.

(** X8. The executor never reads the queue: what is already on it changes
    neither the outcome of a run, nor the server, nor the connections
    asked for, nor the messages the run adds. *)
Theorem executor_never_reads_the_queue (q0 : list message)
    (dbs : list string) (query : query_arg) (w : world DB) :
  execute_query dbs query (requeue q0 w)
  = (requeue q0 (fst (execute_query dbs query w)),
     snd (execute_query dbs query w)).
Proof.
  unfold Executor.execute_query.
  destruct (negb (nonempty (query_text query))
            || negb (nonempty (strip (query_text query)))); [reflexivity|].
  destruct dbs as [|db dbs]; [reflexivity|].
  destruct (_split_sql_statements (query_text query)) as [[|st sts]|];
    try reflexivity.
  rewrite run_databases_frame.
  change (server (requeue q0 w)) with (server w).
  destruct (run_databases (db :: dbs) (st :: sts) w [] 0)
    as [w1 [[infos n]|e]]; cbn [fst snd]; [|reflexivity].
  rewrite send_results_frame. reflexivity.
Qed.

(** A run is rejected with the world as it was, or it returns and has
    put its messages in order. *)
Lemma execute_query_cases (dbs : list string) (query : query_arg)
    (w : world DB) :
  (exists msg, execute_query dbs query w = (w, Raise (ValueError msg)))
  \/ (exists w' r summary,
        execute_query dbs query w = (w', Ok r)
        /\ message_queue w'
           = message_queue w ++ map StatusConnecting dbs
             ++ ExecutionSummary summary
             :: map ResultMessage
                  (flat_map results (rev (run_databases_info r)))).
Proof.
  unfold Executor.execute_query.
  destruct (negb (nonempty (query_text query))
            || negb (nonempty (strip (query_text query)))); [eauto|].
  destruct dbs as [|db dbs]; [eauto|].
  destruct (SplitterFacts.split_returns (query_text query)) as (units & ->).
  destruct units as [|st sts]; [eauto|].
  destruct (run_databases_ok DB Time time_now time_sub connect execute
              (db :: dbs) (st :: sts) w [] 0)
    as (w1 & infos & Hrun & Hnames & Hran).
  rewrite Hrun. right. do 3 eexists. split; [reflexivity|].
  cbn [run_databases_info app]. unfold _send_results.
  rewrite (put_each_queue DB Time). cbn [put message_queue].
  rewrite (ran_each_queue _ _ _ _ _ Hran), <- !app_assoc. reflexivity.
Qed.

End Run.

Lemma connection_failure_record_witness :
  exists w' info,
    demo_execute_on_database "B" [s2l "SELECT 1"] demo_world = (w', Ok info)
    /\ server w' = 0
    /\ statement_count info = 0 /\ total_rows info = 0
    /\ status info = "Error"
    /\ errors info = ["Connection: login failed"]
    /\ results info = [ConnectionErrorBlock "B" "login failed"].
Proof.
  apply (connection_failure_record nat nat (fun s => s) Nat.sub demo_connect
           demo_execute "B" [s2l "SELECT 1"] demo_world 0
           (mkRaised false "login failed")).
  reflexivity.
Defined.

Lemma other_exception_stops_the_target_witness :
  Executor.run_statements nat DemoMore.lossy_execute "A"
    ([s2l "x"] ++ s2l "boom" :: [s2l "y"]) 1 0 acc_init
  = (2, mkAcc 1 [] 2 [RowsBlock ["c"] [["1"]] "A" 1 None],
     Some (OtherError "connection lost")).
Proof.
  apply (other_exception_stops_the_target nat DemoMore.lossy_execute "A"
           [s2l "x"] (s2l "boom") [s2l "y"] 1 0 1 2 acc_init
           (mkAcc 1 [] 1 [RowsBlock ["c"] [["1"]] "A" 1 None])
           (mkAcc 1 [] 2 [RowsBlock ["c"] [["1"]] "A" 1 None])
           (ExecuteRaises (mkRaised false "connection lost"))
           "connection lost");
    reflexivity.
Defined.

Lemma run_messages_in_order_witness :
  exists r,
    snd (demo_execute_query ["A"; "B"] (QueryText (s2l "SELECT 1")) demo_world)
    = Ok r
    /\ (exists summary,
          message_queue
            (fst (demo_execute_query ["A"; "B"] (QueryText (s2l "SELECT 1"))
                    demo_world))
          = message_queue demo_world ++ map StatusConnecting ["A"; "B"]
            ++ ExecutionSummary summary
            :: map ResultMessage
                 (flat_map results (rev (run_databases_info r))))
    /\ run_total_rows r = list_sum (map total_rows (run_databases_info r))
    /\ length (run_databases_info r) = length ["A"; "B"].
Proof.
  eexists. split; [reflexivity|].
  apply (run_messages_in_order nat nat (fun s => s) Nat.sub demo_fmt3
           demo_now_text demo_connect demo_execute ["A"; "B"]
           (QueryText (s2l "SELECT 1")) demo_world).
  reflexivity.
Defined.

Lemma summary_row_lines_up_witness :
  String.length
    (data_row nat demo_fmt3
       (mkInfo "a_target_with_a_very_long_name" 3 1234 "Error" 2
               ["Statement 1: a long message from the server"] []))
  = 101.
Proof.
  apply (summary_row_lines_up nat demo_fmt3
           (mkInfo "a_target_with_a_very_long_name" 3 1234 "Error" 2
                   ["Statement 1: a long message from the server"] []));
    cbn; lia.
Defined.

Lemma nextset_failure_drops_fetched_results_witness :
  Executor.run_statement nat DemoMore.lossy_execute "A" 1 (s2l "half") 0
    acc_init
  = (1, mkAcc 0 ["Statement 1: next failed"] 1
              [StatementErrorBlock "A" 1 "next failed"],
     None).
Proof.
  apply (nextset_failure_drops_fetched_results nat DemoMore.lossy_execute
           "A" 1 (s2l "half") 0 1 acc_init one_row
           (NextRaises (mkRaised true "next failed"))
           (mkRaised true "next failed"));
    reflexivity.
Defined.

Lemma commit_failure_keeps_results_witness :
  Executor.run_statement nat DemoMore.lossy_execute "A" 1 (s2l "nocommit") 0
    acc_init
  = (1, mkAcc 1 ["Statement 1: commit failed"] 1
              [RowsBlock ["c"] [["1"]] "A" 1 None;
               StatementErrorBlock "A" 1 "commit failed"],
     None).
Proof.
  apply (commit_failure_keeps_results nat DemoMore.lossy_execute
           "A" 1 (s2l "nocommit") 0 1 acc_init one_row
           (NoNextSet (Some (mkRaised true "commit failed")))
           (mkRaised true "commit failed"));
    reflexivity.
Defined.

End ExecutorMore.

(** ** Further properties of the splitter *)

Module SplitterMore.

Import PyStrFacts StripFacts ReFacts GoFacts ScanFacts SplitterFacts.

(** *** Every unit is trimmed and not empty *)

Lemma good_strip (p : str) : nonempty (strip p) = true -> good_unit (strip p).
Proof. intros H. split; [exact H|apply strip_idem]. Qed.

Lemma units_good (pieces : list str) : Forall good_unit (units pieces).
Proof.
  unfold units. apply Forall_forall. intros u Hu.
  apply filter_In in Hu as [Hin Hne]. apply in_map_iff in Hin as (p & <- & _).
  apply good_strip. exact Hne.
Qed.

Lemma Forall_filter_keep {A} (P : A -> Prop) (f : A -> bool) (l : list A) :
  Forall P l -> Forall P (filter f l).
Proof.
  intros H. apply Forall_forall. intros x Hx. apply filter_In in Hx as [Hx _].
  revert x Hx. apply Forall_forall. exact H.
Qed.

Lemma go_batches_good (text : str) : Forall good_unit (go_batches text).
Proof. unfold go_batches. apply Forall_filter_keep. apply units_good. Qed.

Lemma search_from_found (r : re) (b a : str) (st e : pos) :
  search_from r b a = Some (st, e) -> match_at r st = Some e.
Proof.
  revert b. induction a as [|c a IH]; intros b H; cbn [search_from] in H.
  - destruct (match_at r (b, [])) eqn:E; [|discriminate].
    injection H as <- <-. exact E.
  - destruct (match_at r (b, c :: a)) eqn:E.
    + injection H as <- <-. exact E.
    + exact (IH _ H).
Qed.

Lemma ci_I_not_space (c : ascii) : ci "I" c = true -> isspace c = false.
Proof.
  destruct c as [[] [] [] [] [] [] [] []]; intros H;
    solve [reflexivity | discriminate H].
Qed.

Lemma if_drop_first_char (b a : str) (e : pos) :
  match_at if_drop_re (b, a) = Some e ->
  exists c a', a = c :: a' /\ isspace c = false.
Proof.
  unfold match_at. intros H.
  assert (Hin : In e (matches if_drop_re (b, a))).
  { destruct (matches if_drop_re (b, a)); [discriminate|].
    injection H as ->. left. reflexivity. }
  unfold if_drop_re in Hin.
  change (word "IF") with (Seq (Chr (ci "I")) (Chr (ci "F"))) in Hin.
  cbn [seqs matches] in Hin.
  apply in_flat_map in Hin as (p1 & Hp1 & _).
  apply in_flat_map in Hp1 as (p0 & Hp0 & _).
  destruct a as [|c a']; [destruct Hp0|].
  destruct (ci "I" c) eqn:Ec; [|destruct Hp0].
  exists c, a'. split; [reflexivity|apply ci_I_not_space; exact Ec].
Qed.

Lemma matched_text (r : re) (b a : str) (e : pos) :
  match_at r (b, a) = Some e ->
  exists m, a = m ++ snd e /\ firstn (index e - index (b, a)) a = m
            /\ minlen r <= length m.
Proof.
  intros H. destruct (match_at_ahead r b a e H) as (m & [E1 E2] & L).
  exists m. split; [exact E2|split; [|exact L]].
  unfold index. cbn [fst]. rewrite E1, length_app, length_rev.
  replace (length m + length b - length b) with (length m) by lia.
  rewrite E2, firstn_app, Nat.sub_diag, firstn_all. cbn [firstn].
  apply app_nil_r.
Qed.

Lemma clean_create_lines_acc (lines : list str) (found : bool)
    (cleaned : list str) :
  clean_create_lines lines found cleaned
  = cleaned ++ clean_create_lines lines found [].
Proof.
  revert found cleaned. induction lines as [|l lines IH]; intros found cleaned;
    cbn [clean_create_lines].
  - symmetry. apply app_nil_r.
  - destruct (startswith (s2l "--") (strip l)).
    + destruct found; [symmetry; apply app_nil_r|apply IH].
    + destruct ((if startswith (s2l "CREATE") (upper (strip l))
                 then true else found) || nonempty (strip l)).
      * rewrite (IH _ (cleaned ++ [l])), (IH _ ([] ++ [l])), <- app_assoc.
        reflexivity.
      * apply IH.
Qed.

Lemma nonempty_strip_nonblank (l : str) :
  nonempty (strip l) = true -> blank l = false.
Proof.
  intros H. destruct (blank l) eqn:E; [|reflexivity].
  rewrite (strip_blank l E) in H. discriminate H.
Qed.

Lemma create_line_nonblank (l : str) :
  startswith (s2l "CREATE") (upper (strip l)) = true -> blank l = false.
Proof.
  intros H. apply nonempty_strip_nonblank.
  destruct (strip l); [discriminate H|reflexivity].
Qed.

(** The first line kept by the loop over [create_lines] is not blank. *)
Lemma clean_create_lines_head (lines : list str) :
  match clean_create_lines lines false [] with
  | [] => True
  | l :: _ => blank l = false
  end.
Proof.
  induction lines as [|l lines IH]; cbn [clean_create_lines]; [exact I|].
  destruct (startswith (s2l "--") (strip l)); [exact IH|].
  destruct (startswith (s2l "CREATE") (upper (strip l))) eqn:Ec.
  - cbn [orb app]. rewrite clean_create_lines_acc. cbn [app].
    apply create_line_nonblank. exact Ec.
  - destruct (nonempty (strip l)) eqn:En; cbn [orb app].
    + rewrite clean_create_lines_acc. cbn [app].
      apply nonempty_strip_nonblank. exact En.
    + exact IH.
Qed.

Lemma blank_join_head (l : str) (rest : list str) :
  blank l = false -> blank (join [nl] (l :: rest)) = false.
Proof.
  intros H. rewrite join_cons, blank_app, H. reflexivity.
Qed.

Lemma drop_then_create_good (query : str) (units : list str) :
  drop_then_create query = Some units -> Forall good_unit units.
Proof.
  unfold drop_then_create. intros H.
  destruct (search if_drop_re query) as [[st e]|] eqn:Es; [|discriminate].
  destruct (search create_re query); [|discriminate].
  pose proof (clean_create_lines_head (split_chr nl (strip (snd e)))) as Hh.
  destruct (clean_create_lines (split_chr nl (strip (snd e))) false [])
    as [|l cleaned]; [discriminate|].
  injection H as <-. apply search_from_found in Es. destruct st as [b a].
  destruct (matched_text _ _ _ _ Es) as (m & Ea & Hm & L).
  destruct (if_drop_first_char _ _ _ Es) as (c & a' & Ec & Hc).
  cbn [snd]. rewrite Hm.
  constructor; [|constructor; [|constructor]].
  - apply good_strip, strip_nonblank.
    destruct m as [|x m]; [cbn in L; lia|].
    rewrite Ec in Ea. cbn [app] in Ea.
    injection Ea as <- _. rewrite blank_cons, Hc. reflexivity.
  - apply good_strip, strip_nonblank, blank_join_head. exact Hh.
Qed.

Lemma complex_check_result (patterns : list re) (query : str)
    (units : list str) :
  complex_check patterns query = Some units ->
  units = [query] /\ found routine_re query || found exec_re query = true.
Proof.
  induction patterns as [|p ps IH]; cbn [complex_check]; [discriminate|].
  destruct (found p query); [|exact IH].
  destruct (found routine_re query); [intros H; injection H as <-; auto|].
  destruct (found exec_re query); [intros H; injection H as <-; auto|exact IH].
Qed.

Lemma complex_check_none (patterns : list re) (query : str) :
  found routine_re query || found exec_re query = false ->
  complex_check patterns query = None.
Proof.
  intros H. apply orb_false_iff in H as [Hr He].
  induction patterns as [|p ps IH]; cbn [complex_check]; [reflexivity|].
  rewrite Hr, He. destruct (found p query); exact IH.
Qed.

Lemma complex_check_some (patterns : list re) (query : str) :
  found routine_re query || found exec_re query = true ->
  (exists p, In p patterns /\ found p query = true) ->
  complex_check patterns query = Some [query].
Proof.
  intros H (p & Hin & Hp).
  induction patterns as [|p0 ps IH]; [destruct Hin|].
  cbn [complex_check]. destruct (found p0 query) eqn:E0.
  - destruct (found routine_re query); [reflexivity|].
    cbn [orb] in H. rewrite H. reflexivity.
  - destruct Hin as [->|Hin]; [congruence|]. exact (IH Hin).
Qed.

(** *** The scan keeps its units trimmed *)

Lemma scan_loop_invariant (P : scan_state -> Prop) (query : str) :
  (forall s s', P s -> i s < length query -> scan_step query s = Ok s' ->
                P s') ->
  forall fuel s s',
    P s -> scan_loop fuel query s = Ok s' -> P s' /\ length query <= i s'.
Proof.
  intros Hstep fuel. induction fuel as [|fuel IH]; intros s s' HP H;
    cbn [scan_loop] in H.
  - destruct (i s <? length query) eqn:E; [discriminate|].
    injection H as <-. apply Nat.ltb_ge in E. auto.
  - destruct (i s <? length query) eqn:E.
    + apply Nat.ltb_lt in E.
      destruct (scan_step query s) as [s1|] eqn:Es; cbn [bind] in H;
        [|discriminate].
      exact (IH s1 s' (Hstep s s1 HP E Es) H).
    + injection H as <-. apply Nat.ltb_ge in E. auto.
Qed.

Lemma scan_step_good (query : str) (s s' : scan_state) :
  Forall good_unit (statements s) -> scan_step query s = Ok s' ->
  Forall good_unit (statements s').
Proof.
  intros Hg H. unfold scan_step in H.
  step_cases H; injection H as <-; cbn [statements append_advance];
    try exact Hg.
  destruct (nonempty (strip (current_statement s))) eqn:En; [|exact Hg].
  apply Forall_app. split; [exact Hg|].
  constructor; [|constructor]. apply good_strip. exact En.
Qed.

Lemma scan_finish_good (s : scan_state) :
  Forall good_unit (statements s) -> Forall good_unit (scan_finish s).
Proof.
  intros Hg. unfold scan_finish.
  assert (H : Forall good_unit
                (if nonempty (strip (current_statement s))
                 then statements s ++ [strip (current_statement s)]
                 else statements s)).
  { destruct (nonempty (strip (current_statement s))) eqn:En; [|exact Hg].
    apply Forall_app. split; [exact Hg|].
    constructor; [|constructor]. apply good_strip. exact En. }
  destruct (_ && _); [exact H|]. apply Forall_filter_keep. exact H.
Qed.

Lemma char_scan_good (query : str) (units : list str) :
  char_scan query = Ok units -> Forall good_unit units.
Proof.
  unfold char_scan. intros H.
  destruct (scan_loop (length query) query scan_init) as [s|] eqn:E;
    cbn [bind] in H; [|discriminate].
  injection H as <-. apply scan_finish_good.
  refine (proj1 (scan_loop_invariant
                   (fun s => Forall good_unit (statements s)) query
                   (fun s s' H _ => scan_step_good query s s' H)
                   (length query) scan_init s _ E)).
  constructor.
Qed.

Lemma strip_comments_trimmed (query : str) :
  strip (strip_comments query) = strip_comments query.
Proof. unfold strip_comments. apply strip_idem. Qed.

Lemma found_nil_routine : found routine_re [] || found exec_re [] = false.
Proof. reflexivity. Qed.

(** X10. Every unit [_split_sql_statements] returns is not empty and has no
    whitespace at its ends, whichever of its branches produced it. *)
Theorem units_are_trimmed_and_not_empty (query : str) :
  exists units,
    _split_sql_statements query = Ok units /\ Forall good_unit units.
Proof.
  destruct (split_returns query) as (units & H). exists units.
  split; [exact H|]. unfold _split_sql_statements in H.
  destruct (negb (nonempty (strip query))).
  { injection H as <-. constructor. }
  destruct (found go_re (strip query)).
  { injection H as <-. apply go_batches_good. }
  destruct (drop_then_create (strip query)) as [u|] eqn:Ed.
  { injection H as <-. exact (drop_then_create_good _ _ Ed). }
  destruct (complex_check complex_patterns (strip_comments (strip query)))
    as [u|] eqn:Ec.
  - injection H as <-. apply complex_check_result in Ec as [-> Hf].
    constructor; [|constructor]. split; [|apply strip_comments_trimmed].
    destruct (strip_comments (strip query)); [|reflexivity].
    rewrite found_nil_routine in Hf. discriminate Hf.
  - exact (char_scan_good _ _ H).
Qed.

(** *** Which texts are kept whole *)

Lemma found_true_iff (r : re) (q : str) :
  found r q = true <-> search_from r [] q <> None.
Proof.
  unfold found, search. destruct (search_from r [] q); split; intros H;
    try reflexivity; try discriminate; contradiction.
Qed.

Lemma match_at_in (r : re) (st : pos) :
  match_at r st <> None <-> exists e, In e (matches r st).
Proof.
  unfold match_at. destruct (matches r st) as [|e l]; split.
  - intros H. contradiction.
  - intros (e & []).
  - intros _. exists e. left. reflexivity.
  - discriminate.
Qed.

Lemma search_from_here (r : re) (b a : str) :
  match_at r (b, a) <> None -> search_from r b a <> None.
Proof.
  intros H. destruct a; cbn [search_from];
    destruct (match_at r _); try discriminate; contradiction.
Qed.

Lemma search_from_next (r : re) (b : str) (c : ascii) (a : str) :
  search_from r (c :: b) a <> None -> search_from r b (c :: a) <> None.
Proof.
  intros H. cbn [search_from].
  destruct (match_at r (b, c :: a)); [discriminate|exact H].
Qed.

Lemma search_from_inv (r : re) (b a : str) :
  search_from r b a <> None ->
  match_at r (b, a) <> None
  \/ exists c a', a = c :: a' /\ search_from r (c :: b) a' <> None.
Proof.
  intros H. destruct a as [|c a]; cbn [search_from] in H;
    destruct (match_at r _) eqn:E.
  - left. discriminate.
  - contradiction.
  - left. discriminate.
  - right. exists c, a. split; [reflexivity|exact H].
Qed.

(** If wherever [r] matches one of [r1], [r2], [r3] matches, then where
    [r] is found one of them is. *)
Lemma search_from_covered (r r1 r2 r3 : re) :
  (forall st, match_at r st <> None ->
     match_at r1 st <> None \/ match_at r2 st <> None
     \/ match_at r3 st <> None) ->
  forall a b,
    search_from r b a <> None ->
    search_from r1 b a <> None \/ search_from r2 b a <> None
    \/ search_from r3 b a <> None.
Proof.
  intros Hc. induction a as [|c a IH]; intros b H;
    apply search_from_inv in H as [H|(c' & a' & Ha & H)].
  - destruct (Hc _ H) as [H1|[H1|H1]];
      [left|right; left|right; right]; apply search_from_here; exact H1.
  - discriminate Ha.
  - destruct (Hc _ H) as [H1|[H1|H1]];
      [left|right; left|right; right]; apply search_from_here; exact H1.
  - injection Ha as <- <-.
    destruct (IH _ H) as [H1|[H1|H1]];
      [left|right; left|right; right]; apply search_from_next; exact H1.
Qed.

Lemma in_seq (r1 r2 : re) (st e : pos) :
  In e (matches (Seq r1 r2) st)
  <-> exists mid, In mid (matches r1 st) /\ In e (matches r2 mid).
Proof. destruct st as [b a]. cbn [matches]. apply in_flat_map. Qed.

Lemma in_alt (r1 r2 : re) (st e : pos) :
  In e (matches (Alt r1 r2) st)
  <-> In e (matches r1 st) \/ In e (matches r2 st).
Proof. destruct st as [b a]. cbn [matches]. apply in_app_iff. Qed.

Lemma routine_like_unfold (k : re) :
  routine_like k = Seq WordB (Seq cad (Seq (Plus ws) (Seq k (Plus ws)))).
Proof. reflexivity. Qed.

Lemma in_routine_like (k : re) (st e : pos) :
  In e (matches (routine_like k) st)
  <-> exists m1 m2 m3 m4,
        In m1 (matches WordB st) /\ In m2 (matches cad m1)
        /\ In m3 (matches (Plus ws) m2) /\ In m4 (matches k m3)
        /\ In e (matches (Plus ws) m4).
Proof.
  rewrite routine_like_unfold. split.
  - intros H. apply in_seq in H as (m1 & H1 & H).
    apply in_seq in H as (m2 & H2 & H). apply in_seq in H as (m3 & H3 & H).
    apply in_seq in H as (m4 & H4 & H). exists m1, m2, m3, m4. auto.
  - intros (m1 & m2 & m3 & m4 & H1 & H2 & H3 & H4 & H).
    apply in_seq. exists m1. split; [exact H1|].
    apply in_seq. exists m2. split; [exact H2|].
    apply in_seq. exists m3. split; [exact H3|].
    apply in_seq. exists m4. split; [exact H4|exact H].
Qed.

Lemma in_routine_like_alt (x y : re) (st e : pos) :
  In e (matches (routine_like (Alt x y)) st)
  <-> In e (matches (routine_like x) st) \/ In e (matches (routine_like y) st).
Proof.
  rewrite !in_routine_like. split.
  - intros (m1 & m2 & m3 & m4 & H1 & H2 & H3 & H4 & H).
    apply in_alt in H4 as [H4|H4]; [left|right];
      exists m1, m2, m3, m4; auto.
  - intros [(m1 & m2 & m3 & m4 & H1 & H2 & H3 & H4 & H)
           |(m1 & m2 & m3 & m4 & H1 & H2 & H3 & H4 & H)];
      exists m1, m2, m3, m4; repeat split; try assumption;
      apply in_alt; auto.
Qed.

Lemma routine_re_eq :
  routine_re
  = routine_like
      (Alt (word "PROCEDURE")
           (Alt (word "PROC")
                (Alt (word "FUNCTION") (Alt (word "FUNC") (word "TRIGGER"))))).
Proof. reflexivity. Qed.

Lemma complex_patterns_routines :
  nth 0 complex_patterns Eps
  = routine_like (Alt (word "PROCEDURE") (word "PROC"))
  /\ nth 1 complex_patterns Eps
     = routine_like (Alt (word "FUNCTION") (word "FUNC"))
  /\ nth 2 complex_patterns Eps = routine_like (word "TRIGGER")
  /\ nth 4 complex_patterns Eps = exec_re.
Proof. repeat split. Qed.

(** Where the routine pattern matches, one of the first three patterns of
    the list matches. *)
Lemma routine_covered (st : pos) :
  match_at routine_re st <> None ->
  match_at (nth 0 complex_patterns Eps) st <> None
  \/ match_at (nth 1 complex_patterns Eps) st <> None
  \/ match_at (nth 2 complex_patterns Eps) st <> None.
Proof.
  destruct complex_patterns_routines as (-> & -> & -> & _).
  rewrite !match_at_in, routine_re_eq. intros (e & H).
  apply in_routine_like_alt in H as [H|H].
  { left. exists e. apply in_routine_like_alt. auto. }
  apply in_routine_like_alt in H as [H|H].
  { left. exists e. apply in_routine_like_alt. auto. }
  apply in_routine_like_alt in H as [H|H].
  { right. left. exists e. apply in_routine_like_alt. auto. }
  apply in_routine_like_alt in H as [H|H].
  { right. left. exists e. apply in_routine_like_alt. auto. }
  right. right. exists e. exact H.
Qed.

Lemma nth_in_complex (k : nat) :
  k < 7 -> In (nth k complex_patterns Eps) complex_patterns.
Proof. intros H. apply nth_In. exact H. Qed.

(** The loop over [complex_patterns] returns the whole text exactly when
    the routine pattern or the EXEC pattern is found in it; the VIEW,
    DECLARE and BEGIN...END patterns of the list decide nothing. *)
Lemma complex_check_decides (query : str) :
  complex_check complex_patterns query
  = if found routine_re query || found exec_re query
    then Some [query] else None.
Proof.
  destruct (found routine_re query || found exec_re query) eqn:E;
    [|apply complex_check_none; exact E].
  apply (complex_check_some _ _ E).
  destruct (found routine_re query) eqn:Er.
  - apply found_true_iff in Er.
    destruct (search_from_covered _ _ _ _ routine_covered _ _ Er)
      as [H|[H|H]]; apply found_true_iff in H.
    + exists (nth 0 complex_patterns Eps). split; [|exact H].
      apply nth_in_complex. lia.
    + exists (nth 1 complex_patterns Eps). split; [|exact H].
      apply nth_in_complex. lia.
    + exists (nth 2 complex_patterns Eps). split; [|exact H].
      apply nth_in_complex. lia.
  - cbn [orb] in E. exists (nth 4 complex_patterns Eps).
    split; [apply nth_in_complex; lia|]. exact E.
Qed.

(** X11. A text with no separator line and no drop-then-create pair comes back
    as the single unit of its comment-stripped form when that form holds a
    CREATE, ALTER or DROP of a procedure, function or trigger, or an EXEC
    call; otherwise it goes to the character scan. *)
Theorem routine_or_exec_text_is_one_unit (query : str) :
  nonempty (strip query) = true ->
  found go_re (strip query) = false ->
  drop_then_create (strip query) = None ->
  _split_sql_statements query
  = if found routine_re (strip_comments (strip query))
       || found exec_re (strip_comments (strip query))
    then Ok [strip_comments (strip query)]
    else char_scan (strip_comments (strip query)).
Proof.
  intros Hn Hg Hd. unfold _split_sql_statements.
  rewrite Hn, Hg, Hd, complex_check_decides. cbn [negb].
  destruct (_ || _); reflexivity.
Qed.

Lemma routine_or_exec_text_is_one_unit_witness :
  _split_sql_statements (s2l "EXEC p 1; SELECT 2")
  = Ok [s2l "EXEC p 1; SELECT 2"].
Proof.
  apply (routine_or_exec_text_is_one_unit (s2l "EXEC p 1; SELECT 2"));
    reflexivity.
Defined.

(** *** The scan cuts only at semicolons *)

Lemma semicolons_firstn_le (q : str) (n m : nat) :
  n <= m -> semicolons (firstn n q) <= semicolons (firstn m q).
Proof.
  revert n m. induction q as [|c q IH]; intros n m H.
  - rewrite !firstn_nil. lia.
  - destruct n as [|n]; [cbn; lia|]. destruct m as [|m]; [lia|].
    cbn [firstn]. unfold semicolons in *. cbn [filter].
    assert (Hnm : n <= m) by lia. specialize (IH n m Hnm).
    destruct (Ascii.eqb ";" c); cbn [length]; lia.
Qed.

Lemma semicolons_firstn_all (q : str) (n : nat) :
  semicolons (firstn n q) <= semicolons q.
Proof.
  destruct (Nat.le_gt_cases n (length q)) as [H|H].
  - rewrite <- (firstn_all q) at 2. apply semicolons_firstn_le. exact H.
  - rewrite firstn_all2 by lia. lia.
Qed.

Lemma semicolons_firstn_S (q : str) (k : nat) :
  nth_error q k = Some ";"%char ->
  semicolons (firstn (k + 1) q) = S (semicolons (firstn k q)).
Proof.
  revert k. induction q as [|c q IH]; intros [|k] H; cbn in H;
    try discriminate.
  - injection H as ->. reflexivity.
  - cbn [Nat.add firstn]. unfold semicolons in *. cbn [filter].
    specialize (IH k H). destruct (Ascii.eqb ";" c); cbn [length];
      rewrite IH; reflexivity.
Qed.

(** An iteration leaves the list of units as it is, or it is at a
    semicolon and adds at most one unit. *)
Lemma scan_step_statements (query : str) (s s' : scan_state) :
  scan_step query s = Ok s' ->
  (statements s' = statements s)
  \/ (nth_error query (i s) = Some ";"%char /\ i s' = i s + 1
      /\ length (statements s') <= S (length (statements s))).
Proof.
  intros H. unfold scan_step in H.
  step_cases H; injection H as <-; cbn [statements append_advance i];
    try (left; reflexivity).
  right.
  match goal with
  | Hc : Ascii.eqb ?c ";" && _ && _ = true,
    Hg : getitem _ _ = Ok ?c |- _ =>
      apply andb_true_iff in Hc as [Hc _];
      apply andb_true_iff in Hc as [Hc _];
      apply Ascii.eqb_eq in Hc; subst c; unfold getitem in Hg;
      destruct (nth_error query (i s)) as [c'|];
      [injection Hg as ->|discriminate Hg]
  end.
  split; [reflexivity|]. split; [reflexivity|].
  destruct (nonempty (strip (current_statement s)));
    [rewrite length_app; cbn [length]; lia|lia].
Qed.

Lemma scan_step_semicolons (query : str) (s s' : scan_state) :
  length (statements s) <= semicolons (firstn (i s) query) ->
  i s < length query -> scan_step query s = Ok s' ->
  length (statements s') <= semicolons (firstn (i s') query).
Proof.
  intros HP Hlt Hs.
  destruct (scan_step_ok query s Hlt) as (s1 & Hs1 & Hi).
  rewrite Hs in Hs1. injection Hs1 as <-.
  destruct (scan_step_statements query s s' Hs) as [->|(Hc & -> & Hl)].
  - pose proof (semicolons_firstn_le query (i s) (i s')). lia.
  - rewrite (semicolons_firstn_S query (i s) Hc). lia.
Qed.

Lemma scan_finish_length (s : scan_state) :
  length (scan_finish s) <= S (length (statements s)).
Proof.
  unfold scan_finish.
  assert (H : length (if nonempty (strip (current_statement s))
                      then statements s ++ [strip (current_statement s)]
                      else statements s) <= S (length (statements s))).
  { destruct (nonempty _); [rewrite length_app; cbn [length]; lia|lia]. }
  destruct (_ && _); [exact H|].
  etransitivity; [apply filter_length_le|exact H].
Qed.

(** X12. The scan returns at most one unit more than the text has semicolons:
    nothing but a semicolon ever ends a unit. *)
Theorem scan_cuts_only_at_semicolons (query : str) :
  exists units,
    char_scan query = Ok units /\ length units <= S (semicolons query).
Proof.
  destruct (char_scan_ok query) as (units & H). exists units.
  split; [exact H|]. unfold char_scan in H.
  destruct (scan_loop (length query) query scan_init) as [s|] eqn:E;
    cbn [bind] in H; [|discriminate].
  injection H as <-.
  assert (HP : length (statements s) <= semicolons (firstn (i s) query)).
  { refine (proj1 (scan_loop_invariant
                     (fun s => length (statements s)
                               <= semicolons (firstn (i s) query))
                     query (scan_step_semicolons query)
                     (length query) scan_init s _ E)).
    cbn. lia. }
  pose proof (scan_finish_length s).
  pose proof (semicolons_firstn_all query (i s)). lia.
Qed.

(** *** A doubled quote inside a string literal *)

Lemma steps_trans (query : str) (s1 s2 s3 : scan_state) :
  steps query s1 s2 -> steps query s2 s3 -> steps query s1 s3.
Proof.
  induction 1 as [|s s1 s' Hlt Hs _ IH]; intros H; [exact H|].
  exact (steps_next query s s1 _ Hlt Hs (IH H)).
Qed.

Lemma steps_one (query : str) (s s' : scan_state) :
  i s < length query -> scan_step query s = Ok s' -> steps query s s'.
Proof.
  intros Hlt Hs. exact (steps_next query s s' s' Hlt Hs (steps_refl _ _)).
Qed.

(** The loop run with enough budget ends in the state the iterations
    lead to. *)
Lemma scan_loop_steps (query : str) (s s' : scan_state) :
  steps query s s' -> length query <= i s' ->
  forall fuel, length query - i s <= fuel -> scan_loop fuel query s = Ok s'.
Proof.
  induction 1 as [s|s s1 s' Hlt Hs _ IH]; intros Hend fuel Hf.
  - destruct fuel; cbn [scan_loop];
      destruct (i s <? length query) eqn:E; try reflexivity;
      apply Nat.ltb_lt in E; lia.
  - destruct fuel as [|fuel]; [lia|]. cbn [scan_loop].
    destruct (i s <? length query) eqn:E;
      [|apply Nat.ltb_ge in E; lia].
    rewrite Hs. cbn [bind].
    destruct (scan_step_ok query s Hlt) as (s2 & Hs2 & Hi).
    rewrite Hs in Hs2. injection Hs2 as <-. apply IH; [exact Hend|lia].
Qed.

Lemma nth_error_mid (pre : str) (c : ascii) (post : str) :
  nth_error (pre ++ c :: post) (length pre) = Some c.
Proof. rewrite nth_error_app2, Nat.sub_diag by lia. reflexivity. Qed.

Lemma advance_by_cons (c : ascii) (a : str) (s : scan_state) :
  advance_by a (append_advance c s) = advance_by (c :: a) s.
Proof.
  unfold advance_by, append_advance; cbn [statements current_statement
    in_string string_char in_bracket paren_depth begin_end_depth i length].
  rewrite <- app_assoc. cbn [app].
  replace (i s + 1 + length a) with (i s + S (length a)) by lia.
  reflexivity.
Qed.

(** Inside a string every character other than the quote is appended. *)
Lemma in_string_step (query : str) (s : scan_state) (q c : ascii) :
  in_string s = true -> string_char s = Some q ->
  nth_error query (i s) = Some c -> Ascii.eqb c q = false ->
  scan_step query s = Ok (append_advance c s).
Proof.
  intros Hs Hq Hc Hne. unfold scan_step, getitem. rewrite Hc. cbn [bind].
  rewrite Hs, Hq. unfold is_string_char. rewrite Hne.
  cbn [negb andb]. rewrite !andb_false_r. reflexivity.
Qed.

Lemma in_string_run (query : str) (q : ascii) (a : str) :
  Forall (fun c => Ascii.eqb c q = false) a ->
  forall (pre post : str) (s : scan_state),
    query = pre ++ a ++ post -> i s = length pre ->
    in_string s = true -> string_char s = Some q ->
    steps query s (advance_by a s).
Proof.
  induction 1 as [|c a Hc _ IH]; intros pre post s Hq Hi Hs Hsc.
  - replace (advance_by [] s) with s; [apply steps_refl|].
    unfold advance_by. rewrite app_nil_r. cbn [length].
    rewrite Nat.add_0_r. destruct s; reflexivity.
  - assert (Hn : nth_error query (i s) = Some c).
    { rewrite Hq, Hi. cbn [app]. apply nth_error_mid. }
    assert (Hlt : i s < length query).
    { apply nth_error_Some. rewrite Hn. discriminate. }
    pose proof (in_string_step query s q c Hs Hsc Hn Hc) as Hstep.
    apply (steps_next query s (append_advance c s) _ Hlt Hstep).
    rewrite <- advance_by_cons.
    apply (IH (pre ++ [c]) post).
    + rewrite Hq, <- app_assoc. reflexivity.
    + cbn [append_advance i]. rewrite Hi, length_app. reflexivity.
    + exact Hs.
    + exact Hsc.
Qed.

Lemma quote_not_space (q : ascii) : is_quote q = true -> isspace q = false.
Proof.
  unfold is_quote. intros H. apply orb_true_iff in H as [H|H];
    apply Ascii.eqb_eq in H; subst q; reflexivity.
Qed.

Lemma strip_quoted (q : ascii) (body : str) :
  isspace q = false -> strip (q :: body ++ [q]) = q :: body ++ [q].
Proof.
  intros Hq. unfold strip. cbn [lstrip]. rewrite Hq.
  unfold rstrip. change (q :: body ++ [q]) with ((q :: body) ++ [q]).
  rewrite rev_app_distr. change (rev [q]) with [q]. cbn [app lstrip].
  rewrite Hq. change (q :: rev (q :: body)) with ([q] ++ rev (q :: body)).
  rewrite rev_app_distr, rev_involutive. reflexivity.
Qed.

Lemma scan_finish_single (s : scan_state) (u : str) :
  statements s = [] -> strip (current_statement s) = u ->
  nonempty u = true -> strip u = u -> scan_finish s = [u].
Proof.
  intros Hst Hu Hn Hsu. unfold scan_finish. rewrite Hst, Hu, Hn.
  cbn [app length Nat.eqb andb].
  destruct (found create_alter_proc_re u); [reflexivity|].
  cbn [filter]. rewrite Hsu, Hn. reflexivity.
Qed.

(** X13. A string literal that holds a doubled quote comes out of the scan
    with a third quote: the escaped quote is written twice when it is
    recognised and once more by the common end of the iteration. *)
Theorem doubled_quote_is_written_three_times (q : ascii) (a b : str) :
  is_quote q = true ->
  Forall (fun c => Ascii.eqb c q = false) a ->
  Forall (fun c => Ascii.eqb c q = false) b ->
  char_scan (q :: a ++ [q; q] ++ b ++ [q])
  = Ok [q :: a ++ [q; q; q] ++ b ++ [q]].
Proof.
  intros Hq Ha Hb.
  set (query := q :: a ++ [q; q] ++ b ++ [q]).
  set (s1 := mkScan [] [q] true (Some q) false 0 0 1).
  set (s2 := advance_by a s1).
  set (s3 := mkScan [] (q :: a ++ [q; q; q]) true (Some q) false 0 0
                    (1 + length a + 2)).
  set (s4 := advance_by b s3).
  set (s5 := mkScan [] (q :: a ++ [q; q; q] ++ b ++ [q]) false None false
                    0 0 (length query)).
  assert (Hlen : length query = 1 + length a + 2 + length b + 1).
  { unfold query. cbn [length app].
    repeat (rewrite length_app; cbn [length]). lia. }
  assert (H01 : steps query scan_init s1).
  { apply steps_one; [cbn [i scan_init]; lia|].
    unfold scan_step, getitem, query. cbn [i scan_init nth_error bind
      in_string negb]. rewrite Hq. reflexivity. }
  assert (H12 : steps query s1 s2).
  { apply (in_string_run query q a Ha [q] ([q; q] ++ b ++ [q]));
      reflexivity. }
  assert (H23 : steps query s2 s3).
  { apply steps_one; [unfold s2; cbn [advance_by i s1]; lia|].
    rewrite (doubled_quote_step query s2 q).
    - unfold s2, s3, append_advance, advance_by, s1;
        cbn [statements current_statement in_string string_char in_bracket
             paren_depth begin_end_depth i app].
      rewrite <- !app_assoc. cbn [app].
      replace (1 + length a + 1 + 1) with (1 + length a + 2) by lia.
      reflexivity.
    - reflexivity.
    - reflexivity.
    - unfold s2, query; cbn [advance_by i s1].
      change (q :: a ++ [q; q] ++ b ++ [q])
        with (([q] ++ a) ++ q :: (q :: b ++ [q])).
      replace (1 + length a) with (length ([q] ++ a))
        by (rewrite length_app; reflexivity).
      apply nth_error_mid.
    - unfold s2, query; cbn [advance_by i s1].
      replace (q :: a ++ [q; q] ++ b ++ [q])
        with (([q] ++ a ++ [q]) ++ q :: (b ++ [q]))
        by (cbn [app]; rewrite <- !app_assoc; reflexivity).
      replace (1 + length a + 1) with (length ([q] ++ a ++ [q]))
        by (rewrite !length_app; cbn [length]; lia).
      apply nth_error_mid. }
  assert (H34 : steps query s3 s4).
  { apply (in_string_run query q b Hb (q :: a ++ [q; q]) [q]);
      try reflexivity.
    - unfold query. cbn [app]. rewrite <- !app_assoc. reflexivity.
    - unfold s3; cbn [i length]. rewrite length_app. cbn [length]. lia. }
  assert (H45 : steps query s4 s5).
  { apply steps_one;
      [unfold s4, s3; cbn [advance_by i]; lia|].
    assert (Hn : nth_error query (i s4) = Some q).
    { unfold s4, s3, query; cbn [advance_by i].
      replace (q :: a ++ [q; q] ++ b ++ [q])
        with (([q] ++ a ++ [q; q] ++ b) ++ q :: [])
        by (cbn [app]; rewrite <- !app_assoc; reflexivity).
      replace (1 + length a + 2 + length b)
        with (length ([q] ++ a ++ [q; q] ++ b))
        by (rewrite !length_app; cbn [length]; lia).
      apply nth_error_mid. }
    unfold scan_step, getitem. rewrite Hn. cbn [bind].
    assert (Hend : (i s4 + 1 <? length query) = false).
    { apply Nat.ltb_ge. unfold s4, s3; cbn [advance_by i]. lia. }
    rewrite Hend. cbn [bind].
    unfold s4, s3, s5, append_advance, advance_by;
      cbn [statements current_statement in_string string_char in_bracket
           paren_depth begin_end_depth i negb andb is_string_char].
    rewrite Ascii.eqb_refl, andb_false_r. cbn [andb].
    rewrite <- !app_assoc. cbn [app]. rewrite <- !app_assoc. cbn [app].
    replace (1 + length a + 2 + length b + 1) with (length query) by lia.
    reflexivity. }
  pose proof (steps_trans _ _ _ _ H01
                (steps_trans _ _ _ _ H12
                   (steps_trans _ _ _ _ H23
                      (steps_trans _ _ _ _ H34 H45)))) as Hall.
  unfold char_scan.
  rewrite (scan_loop_steps query scan_init s5 Hall);
    [|unfold s5; cbn [i]; lia|cbn [i scan_init]; lia].
  cbn [bind]. f_equal.
  pose proof (quote_not_space q Hq) as Hsp.
  assert (Hu : strip (q :: a ++ [q; q; q] ++ b ++ [q])
               = q :: a ++ [q; q; q] ++ b ++ [q]).
  { replace (a ++ [q; q; q] ++ b ++ [q]) with ((a ++ [q; q; q] ++ b) ++ [q])
      by (rewrite <- !app_assoc; reflexivity).
    apply strip_quoted. exact Hsp. }
  apply scan_finish_single; [reflexivity|exact Hu|reflexivity|exact Hu].
Qed.

Lemma doubled_quote_is_written_three_times_witness :
  char_scan (s2l "'O''Brien'") = Ok [s2l "'O'''Brien'"].
Proof.
  apply (doubled_quote_is_written_three_times "'"%char (s2l "O")
           (s2l "Brien")).
  - reflexivity.
  - repeat constructor.
  - repeat constructor.
Defined.

(** *** The CREATE part ends at the first comment line *)

Lemma clean_create_lines_stop (c : str) (post mid : list str)
    (cleaned : list str) :
  is_comment_line c = true ->
  clean_create_lines (mid ++ c :: post) true cleaned
  = clean_create_lines mid true cleaned.
Proof.
  intros Hc. revert cleaned. induction mid as [|l mid IH]; intros cleaned.
  - cbn [app clean_create_lines]. unfold is_comment_line in Hc.
    rewrite Hc. reflexivity.
  - cbn [app clean_create_lines].
    destruct (startswith (s2l "--") (strip l)); [reflexivity|].
    destruct (startswith (s2l "CREATE") (upper (strip l)));
      cbn [orb]; apply IH.
Qed.

Lemma comment_not_create (l : str) :
  is_create_line l = true -> startswith (s2l "--") (strip l) = false.
Proof.
  unfold is_create_line. destruct (strip l) as [|x t]; [discriminate|].
  intros H.
  change (startswith (s2l "--") (x :: t))
    with (Ascii.eqb "-" x && startswith ["-"%char] t).
  destruct (Ascii.eqb "-" x) eqn:E; [|reflexivity].
  apply Ascii.eqb_eq in E. subst x. cbn in H. discriminate H.
Qed.

Lemma clean_create_lines_after_create (pre : list str) (cl : str)
    (found : bool) (cleaned : list str) :
  is_create_line cl = true ->
  (exists out, forall rest,
      clean_create_lines (pre ++ cl :: rest) found cleaned = out)
  \/ (exists cleaned', forall rest,
        clean_create_lines (pre ++ cl :: rest) found cleaned
        = clean_create_lines rest true cleaned').
Proof.
  intros Hcl. revert found cleaned.
  induction pre as [|l pre IH]; intros found cleaned.
  - right. exists (cleaned ++ [cl]). intros rest.
    cbn [app clean_create_lines].
    rewrite (comment_not_create cl Hcl).
    unfold is_create_line in Hcl. rewrite Hcl. reflexivity.
  - cbn [app clean_create_lines].
    destruct (startswith (s2l "--") (strip l)).
    + destruct found; [left; exists cleaned; reflexivity|apply IH].
    + destruct ((if startswith (s2l "CREATE") (upper (strip l))
                 then true else found) || nonempty (strip l)); apply IH.
Qed.

(** X14. In the loop that cleans the CREATE part, the first comment line after
    a line that starts with CREATE ends the loop: that line and all the
    lines after it are left out, whatever they hold. *)
Theorem create_part_ends_at_first_comment_line (pre : list str)
    (cl : str) (mid : list str) (c : str) (post : list str) :
  is_create_line cl = true -> is_comment_line c = true ->
  clean_create_lines (pre ++ cl :: mid ++ c :: post) false []
  = clean_create_lines (pre ++ cl :: mid) false [].
Proof.
  intros Hcl Hc.
  destruct (clean_create_lines_after_create pre cl false [] Hcl)
    as [(out & H)|(cleaned' & H)].
  - rewrite !H. reflexivity.
  - rewrite !H. apply clean_create_lines_stop. exact Hc.
Qed.

Lemma create_part_ends_at_first_comment_line_witness :
  clean_create_lines
    [s2l "CREATE PROCEDURE p AS"; s2l "SELECT 1"; s2l "-- note";
     s2l "SELECT 2"] false []
  = clean_create_lines [s2l "CREATE PROCEDURE p AS"; s2l "SELECT 1"] false [].
Proof.
  apply (create_part_ends_at_first_comment_line
           [] (s2l "CREATE PROCEDURE p AS") [s2l "SELECT 1"] (s2l "-- note")
           [s2l "SELECT 2"]); reflexivity.
Defined.

End SplitterMore.

(** ** The table of a result set *)

Module FormatterFacts.

Import Fmt Executor Formatter.
Local Open Scope string_scope.
Local Open Scope list_scope.

Lemma length_u (s : string) : length (u s) = String.length s.
Proof.
  unfold u. rewrite length_map.
  induction s as [|c s IH]; cbn [list_ascii_of_string length String.length];
    [reflexivity|rewrite IH; reflexivity].
Qed.

Lemma length_fill (ch : N) (n : nat) : length (fill ch n) = n.
Proof. apply repeat_length. Qed.

Lemma length_ujoin (sep : utext) (parts : list utext) :
  length (ujoin sep parts)
  = list_sum (map (@length N) parts) + length sep * (length parts - 1).
Proof.
  induction parts as [|p [|p' ps] IH].
  - cbn. lia.
  - cbn. lia.
  - change (ujoin sep (p :: p' :: ps)) with (p ++ sep ++ ujoin sep (p' :: ps)).
    rewrite !length_app, IH. cbn [map list_sum fold_right length]. nia.
Qed.

Lemma length_uljust (width : nat) (text : utext) :
  length (uljust width text) = Nat.max width (length text).
Proof. unfold uljust. rewrite length_app, length_fill. lia. Qed.

(** A value is cut or padded to the width of its column. *)
Lemma length_cell (text : utext) (width : nat) :
  3 <= width -> length (uljust width (truncate_text text width)) = width.
Proof.
  intros H. rewrite length_uljust. unfold truncate_text.
  destruct (length text <=? width)%nat eqn:E.
  - apply Nat.leb_le in E. lia.
  - apply Nat.leb_gt in E. unfold py_prefix.
    destruct (Z.of_nat width - 3 <? 0)%Z eqn:E'; [apply Z.ltb_lt in E'; lia|].
    rewrite length_app, length_firstn, length_u. cbn [String.length]. lia.
Qed.

Lemma column_width_bounds (i : nat) (name : string) (rows : list row)
    (width : nat) :
  column_width i name rows = Ok width ->
  8 <= width <= 30 /\ Nat.min 30 (String.length name) <= width.
Proof.
  unfold column_width. intros H.
  destruct (collect _ (firstn 100 rows)) as [data_widths|];
    cbn [bind] in H; [|discriminate].
  cbv zeta in H.
  match type of H with Ok ?t = _ => remember t as w eqn:Hw end.
  injection H as <-. subst w. destruct data_widths; lia.
Qed.

Lemma col_widths_from_bounds (column_names : list string) (rows : list row) :
  forall i col_widths,
    col_widths_from i column_names rows = Ok col_widths ->
    Forall2 (fun name width =>
               8 <= width <= 30 /\ Nat.min 30 (String.length name) <= width)
            column_names col_widths.
Proof.
  induction column_names as [|name more IH]; intros i col_widths H;
    cbn [col_widths_from] in H.
  - injection H as <-. constructor.
  - destruct (column_width i name rows) as [width|] eqn:Ew;
      cbn [bind] in H; [|discriminate].
    destruct (col_widths_from (S i) more rows) as [widths|] eqn:Ews;
      cbn [bind] in H; [|discriminate].
    injection H as <-. constructor.
    + exact (column_width_bounds i name rows width Ew).
    + exact (IH (S i) widths Ews).
Qed.

Lemma collect_ok {A B} (f : A -> result B) (l : list A) :
  Forall (fun x => exists y, f x = Ok y) l -> exists ys, collect f l = Ok ys.
Proof.
  induction 1 as [|x l (y & Hy) _ (ys & IH)]; cbn [collect].
  - eauto.
  - rewrite Hy, IH. cbn [bind]. eauto.
Qed.

Lemma in_firstn {A} (n : nat) (l : list A) (x : A) :
  In x (firstn n l) -> In x l.
Proof.
  revert l. induction n as [|n IH]; intros [|y l]; cbn [firstn In];
    try contradiction.
  intros [H|H]; [left; exact H|right; exact (IH l H)].
Qed.

Lemma column_width_ok (i : nat) (name : string) (rows : list row) :
  Forall (fun r => i < length r) rows ->
  exists width, column_width i name rows = Ok width.
Proof.
  intros H. unfold column_width.
  destruct (collect_ok (fun r => v <- cell r i ;; Ok (String.length v))
              (firstn 100 rows)) as (ws & ->).
  - apply Forall_forall. intros r Hr. apply in_firstn in Hr.
    rewrite Forall_forall in H. specialize (H r Hr). unfold cell.
    destruct (nth_error r i) as [v|] eqn:E.
    + cbn [bind]. eauto.
    + apply nth_error_None in E. lia.
  - cbn [bind]. eauto.
Qed.

Lemma col_widths_from_ok (column_names : list string) (rows : list row) :
  forall i,
    Forall (fun r => i + length column_names <= length r) rows ->
    exists col_widths, col_widths_from i column_names rows = Ok col_widths.
Proof.
  induction column_names as [|name more IH]; intros i H;
    cbn [col_widths_from].
  - eauto.
  - destruct (column_width_ok i name rows) as (width & ->).
    { eapply Forall_impl; [|exact H]. cbn [length]. intros r Hr. lia. }
    destruct (IH (S i)) as (widths & ->).
    { eapply Forall_impl; [|exact H]. cbn [length]. intros r Hr. lia. }
    cbn [bind]. eauto.
Qed.

(** The sum of the lengths of the cells of a line, whatever fills them,
    when every cell has the width of its column. *)
Lemma cells_length {A} (f : A * nat -> utext) (values : list A)
    (col_widths : list nat) :
  length col_widths <= length values ->
  (forall v width, In (v, width) (combine values col_widths) ->
     length (f (v, width)) = width) ->
  list_sum (map (@length N) (map f (combine values col_widths)))
  = list_sum col_widths
  /\ length (map f (combine values col_widths)) = length col_widths.
Proof.
  revert values. induction col_widths as [|w ws IH]; intros values Hl Hf.
  - destruct values; cbn; auto.
  - destruct values as [|v values]; [cbn in Hl; lia|].
    cbn [combine map list_sum fold_right length] in *.
    destruct (IH values) as (IH1 & IH2); [lia| |].
    { intros v' w' Hin. apply Hf. right. exact Hin. }
    fold (list_sum (map (@length N) (map f (combine values ws)))).
    fold (list_sum ws).
    rewrite IH1, IH2, (Hf v w (or_introl eq_refl)). auto.
Qed.

Lemma length_border (left mid right : N) (col_widths : list nat) :
  col_widths <> [] ->
  length (border left mid right col_widths)
  = list_sum col_widths + 3 * length col_widths + 1.
Proof.
  intros Hne. unfold border. rewrite !length_app, length_ujoin, !length_map.
  assert (Hs : list_sum (map (@length N)
                 (map (fun width => fill dash (width + 2)) col_widths))
               = list_sum col_widths + 2 * length col_widths).
  { clear Hne. induction col_widths as [|w ws IH]; [reflexivity|].
    cbn [map list_sum fold_right length].
    fold (list_sum (map (@length N)
                      (map (fun width => fill dash (width + 2)) ws))).
    fold (list_sum ws). rewrite IH, length_fill. lia. }
  rewrite Hs. destruct col_widths; [contradiction|]. cbn [length]. lia.
Qed.

Lemma length_framed (cells : list utext) (col_widths : list nat) :
  col_widths <> [] ->
  list_sum (map (@length N) cells) = list_sum col_widths ->
  length cells = length col_widths ->
  length ([bar; 32%N] ++ ujoin [32%N; bar; 32%N] cells ++ [32%N; bar])
  = list_sum col_widths + 3 * length col_widths + 1.
Proof.
  intros Hne Hs Hl. rewrite !length_app, length_ujoin, Hs, Hl.
  destruct col_widths; [contradiction|]. cbn [length]. lia.
Qed.

Lemma Forall2_combine_in {A B} (P : A -> B -> Prop) (l1 : list A)
    (l2 : list B) (x : A) (y : B) :
  Forall2 P l1 l2 -> In (x, y) (combine l1 l2) -> P x y.
Proof.
  induction 1 as [|a b l1 l2 Hab _ IH]; cbn [combine]; intros Hin.
  - contradiction.
  - destruct Hin as [Hin|Hin]; [injection Hin as <- <-; exact Hab|auto].
Qed.

Lemma in_combine_widths {A} (values : list A) (col_widths : list nat)
    (v : A) (width : nat) :
  Forall (fun w => 8 <= w <= 30) col_widths ->
  In (v, width) (combine values col_widths) -> 8 <= width <= 30.
Proof.
  intros Hw Hin. apply in_combine_r in Hin.
  rewrite Forall_forall in Hw. exact (Hw width Hin).
Qed.

Lemma Forall2_right {A B} (P : A -> B -> Prop) (Q : B -> Prop)
    (l1 : list A) (l2 : list B) :
  (forall a b, P a b -> Q b) -> Forall2 P l1 l2 -> Forall Q l2.
Proof. intros HPQ. induction 1; constructor; eauto. Qed.

(** X15. Every column is between 8 and 30 characters wide, whatever the names
    and the values are, and a column is as wide as its name when the name
    has at most 30 characters. *)
Theorem column_widths_between_8_and_30 (description : list string)
    (rows : list row) :
  Forall (fun r => length description <= length r) rows ->
  exists col_widths,
    col_widths_from 0 description rows = Ok col_widths
    /\ Forall2 (fun name width =>
                  8 <= width <= 30
                  /\ Nat.min 30 (String.length name) <= width)
               description col_widths.
Proof.
  intros H. destruct (col_widths_from_ok description rows 0 H) as (ws & E).
  exists ws. split; [exact E|].
  exact (col_widths_from_bounds description rows 0 ws E).
Qed.

Lemma column_widths_between_8_and_30_witness :
  exists col_widths,
    col_widths_from 0 ["id"; "a_rather_long_column_name_of_37_chars"]
      [["1"; "x"]; ["2"; "a value that is longer than thirty characters"]]
    = Ok col_widths
    /\ Forall2 (fun name width =>
                  8 <= width <= 30
                  /\ Nat.min 30 (String.length name) <= width)
               ["id"; "a_rather_long_column_name_of_37_chars"] col_widths.
Proof.
  apply (column_widths_between_8_and_30
           ["id"; "a_rather_long_column_name_of_37_chars"]
           [["1"; "x"];
            ["2"; "a value that is longer than thirty characters"]]).
  repeat constructor.
Defined.

(** X16. The lines of the table of a result set all have one length: the
    borders, the line of every row (each value cut or padded to the
    width of its column) and, when no column name is longer than 30
    characters, the line of the column names. *)
Theorem table_lines_have_one_length (description : list string)
    (rows : list row) (col_widths : list nat) :
  description <> [] ->
  Forall (fun name => String.length name <= 30) description ->
  Forall (fun r => length description <= length r) rows ->
  col_widths_from 0 description rows = Ok col_widths ->
  Forall (fun line =>
            length line = list_sum col_widths + 3 * length col_widths + 1)
         (table_lines description rows col_widths).
Proof.
  intros Hne Hnames Hrows E.
  pose proof (col_widths_from_bounds description rows 0 col_widths E) as Hb.
  assert (Hlen : length description = length col_widths)
    by exact (Forall2_length Hb).
  assert (Hw : Forall (fun w => 8 <= w <= 30) col_widths).
  { apply (Forall2_right _ _ _ _ (fun a b H => proj1 H) Hb). }
  assert (Hne' : col_widths <> []).
  { intros ->. destruct description; [contradiction|discriminate Hlen]. }
  assert (Hhead : length (header_content description col_widths)
                  = list_sum col_widths + 3 * length col_widths + 1).
  { unfold header_content.
    destruct (cells_length (fun nw => uljust (snd nw) (u (fst nw)))
                description col_widths) as (Hs & Hl); [lia| |].
    - intros name width Hin. cbn [fst snd].
      rewrite length_uljust, length_u.
      pose proof (Forall2_combine_in _ _ _ _ _ Hb Hin) as (_ & Hmin).
      apply in_combine_l in Hin. rewrite Forall_forall in Hnames.
      specialize (Hnames name Hin). lia.
    - apply length_framed; assumption. }
  unfold table_lines. apply Forall_app. split; [|apply Forall_app; split].
  - constructor; [apply length_border; exact Hne'|].
    constructor; [exact Hhead|].
    constructor; [apply length_border; exact Hne'|constructor].
  - apply Forall_forall. intros line Hin.
    apply in_map_iff in Hin as (r & <- & Hr).
    rewrite Forall_forall in Hrows. specialize (Hrows r Hr).
    unfold row_content.
    destruct (cells_length
                (fun vw => uljust (snd vw)
                             (truncate_text (u (fst vw)) (snd vw)))
                r col_widths) as (Hs & Hl); [lia| |].
    + intros v width Hin. cbn [fst snd]. apply length_cell.
      pose proof (in_combine_widths _ _ _ _ Hw Hin). lia.
    + apply length_framed; assumption.
  - constructor; [apply length_border; exact Hne'|constructor].
Qed.

Lemma table_lines_have_one_length_witness :
  Forall (fun line => length line = 45)
    (table_lines ["id"; "name"]
       [["1"; "x"]; ["2"; "a value that is longer than thirty characters"]]
       [8; 30]).
Proof.
  apply (table_lines_have_one_length ["id"; "name"]
           [["1"; "x"];
            ["2"; "a value that is longer than thirty characters"]]
           [8; 30]).
  - discriminate.
  - repeat constructor.
  - repeat constructor.
  - reflexivity.
Defined.

End FormatterFacts.

(** ** The query history *)

Module HistoryFacts.

Import History.

Section Manager.

Variable Stamp : Type.
Variable Disk : Type.
Variable dump : list (Stamp * str) -> Disk -> Disk.

Local Abbreviation add_query := (add_query Stamp Disk dump).
Local Abbreviation add_queries := (add_queries Stamp Disk dump).

Lemma lastn_all {A} (n : nat) (l : list A) : length l <= n -> lastn n l = l.
Proof.
  intros H. unfold lastn. replace (length l - n) with 0 by lia. reflexivity.
Qed.

Lemma lastn_cons {A} (n : nat) (x : A) (l : list A) :
  n <= length l -> lastn n (x :: l) = lastn n l.
Proof.
  intros H. unfold lastn. cbn [length].
  replace (S (length l) - n) with (S (length l - n)) by lia. reflexivity.
Qed.

Lemma add_query_history (now : Stamp) (query : str)
    (m : manager Stamp Disk) :
  query_history (add_query now query m)
  = if length (query_history m) <? 50
    then query_history m ++ [(now, query)]
    else tl (query_history m ++ [(now, query)]).
Proof.
  unfold History.add_query, save_history, MAX_HISTORY_ENTRIES.
  cbn [query_history]. rewrite length_app. cbn [length].
  destruct (length (query_history m) <? 50) eqn:E.
  - apply Nat.ltb_lt in E.
    destruct (50 <? length (query_history m) + 1) eqn:E';
      [apply Nat.ltb_lt in E'; lia|reflexivity].
  - apply Nat.ltb_ge in E.
    destruct (50 <? length (query_history m) + 1) eqn:E';
      [reflexivity|apply Nat.ltb_ge in E'; lia].
Qed.

(** X17. After any sequence of additions the history holds the latest entries
    in the order they were added: the latest 50 of them, or as many as the
    history held at the start when that was more than 50. *)
Theorem history_holds_the_latest_entries (entries : list (Stamp * str))
    (m : manager Stamp Disk) :
  query_history (add_queries entries m)
  = lastn (Nat.max 50 (length (query_history m)))
          (query_history m ++ entries).
Proof.
  revert m. induction entries as [|[now query] entries IH]; intros m.
  - cbn [History.add_queries fold_left]. rewrite app_nil_r.
    symmetry. apply lastn_all. lia.
  - change (add_queries ((now, query) :: entries) m)
      with (add_queries entries (add_query now query m)).
    rewrite IH, add_query_history.
    destruct (length (query_history m) <? 50) eqn:E.
    + apply Nat.ltb_lt in E. rewrite length_app. cbn [length].
      rewrite <- app_assoc. cbn [app].
      replace (Nat.max 50 (length (query_history m) + 1)) with 50 by lia.
      replace (Nat.max 50 (length (query_history m))) with 50 by lia.
      reflexivity.
    + apply Nat.ltb_ge in E.
      destruct (query_history m) as [|x h] eqn:Eh; [cbn in E; lia|].
      cbn [app tl length] in *. rewrite length_app. cbn [length].
      replace (Nat.max 50 (length h + 1)) with (S (length h)) by lia.
      replace (Nat.max 50 (S (length h))) with (S (length h)) by lia.
      rewrite <- app_assoc. cbn [app]. symmetry. apply lastn_cons.
      rewrite length_app. cbn [length]. lia.
Qed.

End Manager.

End HistoryFacts.

(** ** Safe file names *)

Module FileOpsFacts.

Import Formatter FileOps.

Lemma splitext_app (sep : ascii) (altsep : option ascii) (p : str) :
  fst (splitext sep altsep p) ++ snd (splitext sep altsep p) = p.
Proof.
  unfold splitext.
  destruct (_ <? _)%Z; [|apply app_nil_r].
  destruct (forallb _ _); [apply app_nil_r|].
  cbn [fst snd]. apply firstn_skipn.
Qed.

Lemma length_sub_unsafe (filename : str) :
  length (sub_unsafe filename) = length filename.
Proof. apply length_map. Qed.

Lemma sub_unsafe_safe (filename : str) :
  forallb (fun c => negb (unsafe c)) (sub_unsafe filename) = true.
Proof.
  unfold sub_unsafe. induction filename as [|c filename IH];
    [reflexivity|].
  cbn [map forallb]. rewrite IH, andb_true_r.
  destruct (unsafe c) eqn:E; [reflexivity|rewrite E; reflexivity].
Qed.

Lemma forallb_firstn {A} (f : A -> bool) (n : nat) (l : list A) :
  forallb f l = true -> forallb f (firstn n l) = true.
Proof.
  revert l. induction n as [|n IH]; intros [|x l]; cbn [firstn forallb];
    try reflexivity.
  intros H. apply andb_true_iff in H as [Hx Hl]. rewrite Hx. exact (IH l Hl).
Qed.

Lemma forallb_py_prefix {A} (f : A -> bool) (k : Z) (l : list A) :
  forallb f l = true -> forallb f (py_prefix l k) = true.
Proof. unfold py_prefix. destruct (k <? 0)%Z; apply forallb_firstn. Qed.

Lemma length_py_prefix {A} (k : Z) (l : list A) :
  length (py_prefix l k)
  = if (k <? 0)%Z then length l - Z.to_nat (- k)
    else Nat.min (Z.to_nat k) (length l).
Proof.
  unfold py_prefix. destruct (k <? 0)%Z eqn:E; rewrite length_firstn.
  - apply Z.ltb_lt in E. lia.
  - reflexivity.
Qed.

(** X18. The name returned holds none of the characters of the class,
    whatever the platform's separators are. *)
Theorem safe_filename_has_no_unsafe_character (sep : ascii)
    (altsep : option ascii) (filename : str) :
  forallb (fun c => negb (unsafe c)) (get_safe_filename sep altsep filename)
  = true.
Proof.
  unfold get_safe_filename.
  pose proof (sub_unsafe_safe filename) as Hs.
  destruct (200 <? length (sub_unsafe filename)); [|exact Hs].
  pose proof (splitext_app sep altsep (sub_unsafe filename)) as Happ.
  destruct (splitext sep altsep (sub_unsafe filename)) as [name ext].
  cbn [fst snd] in Happ. rewrite <- Happ, forallb_app in Hs.
  apply andb_true_iff in Hs as [Hn He].
  rewrite forallb_app, He, andb_true_r. apply forallb_py_prefix. exact Hn.
Qed.

(** X19. The name returned has at most 200 characters exactly when the name
    given has, or its extension has: a longer name is cut to 200
    characters when the extension leaves room for it, and stays longer
    than 200 characters when the extension itself is longer. *)
Theorem safe_filename_length (sep : ascii) (altsep : option ascii)
    (filename : str) :
  length (get_safe_filename sep altsep filename) <= 200
  <-> (length filename <= 200
       \/ length (extension sep altsep filename) <= 200).
Proof.
  unfold get_safe_filename, extension.
  pose proof (length_sub_unsafe filename) as Hl.
  destruct (200 <? length (sub_unsafe filename)) eqn:E.
  - apply Nat.ltb_lt in E.
    pose proof (splitext_app sep altsep (sub_unsafe filename)) as Happ.
    destruct (splitext sep altsep (sub_unsafe filename)) as [name ext].
    cbn [fst snd] in *.
    apply (f_equal (@length ascii)) in Happ. rewrite length_app in Happ.
    rewrite length_app, length_py_prefix.
    destruct (200 - Z.of_nat (length ext) <? 0)%Z eqn:Ek.
    + apply Z.ltb_lt in Ek. lia.
    + apply Z.ltb_ge in Ek. lia.
  - apply Nat.ltb_ge in E. rewrite Hl. lia.
Qed.

End FileOpsFacts.

(** ** The controller *)

Module ControllerFacts.

Import Fmt Executor ExecSpec Demo History Controller DemoApp.
Import ExecutorFacts ExecutorMore.
Local Open Scope string_scope.
Local Open Scope list_scope.

Section App.

Variable DB : Type.
Variable Time : Type.
Variable time_now : DB -> Time.
Variable time_sub : Time -> Time -> Time.
Variable fmt3 : Time -> string.
Variable now_text : DB -> string.
Variable connect : string -> DB -> DB * option raised.
Variable execute : string -> str -> DB -> DB * reaction.
Variable Stamp : Type.
Variable Disk : Type.
Variable dump : list (Stamp * str) -> Disk -> Disk.
Variable contains_dangerous_sql : str -> bool.
Variable nonzero : Time -> bool.
Variable file_save : dict Time Stamp -> bool * string.

Local Abbreviation execute_query :=
  (execute_query DB Time time_now time_sub fmt3 now_text connect execute).
Local Abbreviation start_query_thread :=
  (start_query_thread DB Time Stamp Disk dump contains_dangerous_sql).
Local Abbreviation execute_query_thread :=
  (_execute_query_thread DB Time time_now time_sub fmt3 now_text connect
                         execute Stamp Disk).
Local Abbreviation handle := (handle DB Time Stamp Disk).
Local Abbreviation check_queue := (check_queue DB Time Stamp Disk).
Local Abbreviation save_query_log :=
  (save_query_log DB Time Stamp Disk nonzero file_save).
Local Abbreviation run_to_completion :=
  (run_to_completion DB Time time_now time_sub fmt3 now_text connect execute
                     Stamp Disk dump contains_dangerous_sql).

(** The world the thread body hands to the executor. *)
Local Abbreviation world_of c := (mkWorld (db_server c) [] (connections c)).

(** The dictionary [start_query_thread] stores. *)
Local Abbreviation fresh_query dbs query start_time :=
  [("query", VText query); ("databases", VNames dbs);
   ("start_time", VStamp start_time); ("results", VList [])].

(** *** Dictionaries *)

Lemma dict_get_set (k k' : string) (v : value Time Stamp)
    (d : dict Time Stamp) :
  dict_get k (dict_set k' v d)
  = if String.eqb k k' then Some v else dict_get k d.
Proof.
  induction d as [|[k0 v0] d IH]; cbn [dict_set dict_get].
  - destruct (String.eqb k k'); reflexivity.
  - destruct (String.eqb k' k0) eqn:E0; cbn [dict_get].
    + apply String.eqb_eq in E0. subst k0.
      destruct (String.eqb k k'); reflexivity.
    + rewrite IH. destruct (String.eqb k k0) eqn:E1; [|reflexivity].
      apply String.eqb_eq in E1. subst k0.
      destruct (String.eqb k k') eqn:E2; [|reflexivity].
      apply String.eqb_eq in E2. subst k'. rewrite String.eqb_refl in E0.
      discriminate E0.
Qed.

(** Updating with the dictionary a run returns leaves the entry
    [results] as it is. *)
Lemma results_untouched (d : dict Time Stamp) (r : run_result Time) :
  dict_get "results" (dict_update d (result_dict r)) = dict_get "results" d.
Proof.
  unfold dict_update, result_dict. cbn [fold_left fst snd].
  rewrite !dict_get_set. reflexivity.
Qed.

(** *** The start *)

Lemma start_accepted (dbs : list string) (query : str) (confirm : bool)
    (start_time now : Stamp) (c : app DB Time Stamp Disk) :
  snd (start_query_thread dbs query confirm start_time now c) = true ->
  query_running c = false
  /\ exists cs,
       fst (start_query_thread dbs query confirm start_time now c)
       = mkApp true (Some (fresh_query dbs query start_time)) (queue c)
               (db_server c) (connections c)
               (add_query Stamp Disk dump now query (history_manager c))
               (set_query_running_state true (main_ui c))
               [StatusLine "Executing query..."] cs.
Proof.
  unfold Controller.start_query_thread.
  destruct (query_running c); [discriminate|].
  destruct dbs as [|db dbs]; [discriminate|].
  destruct (negb (nonempty (strip query))); [discriminate|].
  destruct (contains_dangerous_sql query), confirm; cbn [andb negb fst snd];
    try discriminate; intros _; (split; [reflexivity|]); eexists;
    reflexivity.
Qed.

(** *** The thread body *)

Lemma thread_cases (dbs : list string) (query : str)
    (c : app DB Time Stamp Disk) (d : dict Time Stamp) :
  current_query c = Some d ->
  (exists msg,
     execute_query dbs (QueryText query) (world_of c)
     = (world_of c, Raise (ValueError msg))
     /\ execute_query_thread dbs query c
        = mkApp (query_running c) (Some d)
                (queue c
                 ++ [MsgError ("Query execution failed: " ++ msg);
                     MsgDone "Query execution failed"])
                (db_server c) (connections c) (history_manager c)
                (main_ui c) (viewer c) (calls c))
  \/ (exists w r summary,
        execute_query dbs (QueryText query) (world_of c) = (w, Ok r)
        /\ execute_query_thread dbs query c
           = mkApp (query_running c)
                   (Some (dict_update d (result_dict r)))
                   (queue c
                    ++ map FromExecutor
                         (map StatusConnecting dbs
                          ++ ExecutionSummary summary
                          :: map ResultMessage
                               (flat_map results
                                  (rev (run_databases_info r))))
                    ++ [MsgDone "Query execution completed";
                        MsgEnableLogButton])
                   (server w) (connection_log w) (history_manager c)
                   (main_ui c) (viewer c) (calls c)).
Proof.
  intros Hc. unfold Controller._execute_query_thread.
  destruct (execute_query_cases DB Time time_now time_sub fmt3 now_text
              connect execute dbs (QueryText query) (world_of c))
    as [(msg & E)|(w & r & summary & E & Hq)]; rewrite E.
  - left. exists msg. split; [reflexivity|].
    unfold failed, post.
    cbn [query_running current_query queue db_server connections
         history_manager main_ui viewer calls server message_queue
         connection_log map exn_text].
    rewrite Hc, app_nil_r, <- app_assoc. reflexivity.
  - right. exists w, r, summary. split; [reflexivity|].
    cbn [current_query]. rewrite Hc. unfold post.
    cbn [query_running current_query queue db_server connections
         history_manager main_ui viewer calls].
    rewrite Hq. cbn [message_queue Datatypes.app]. rewrite <- !app_assoc.
    reflexivity.
Qed.

(** X20. The thread body, by the outcome of [execute_query] on the
    server and connections of the application.  When the run is rejected,
    the body puts the error with the text of the exception and then the
    end of the run on the queue, and changes nothing else: no message of
    the executor, the server, the connections and the stored query as
    they were.  When the run returns, the body puts the messages of the
    executor (one status per target, the summary, the blocks of the
    records, last target first), then the end of the run, then the
    enabling of the log button; it takes the server and the connections
    the run left and updates the stored query with the dictionary the run
    returned. *)
Theorem thread_always_posts_done (dbs : list string) (query : str)
    (c : app DB Time Stamp Disk) (d : dict Time Stamp) :
  current_query c = Some d ->
  match snd (execute_query dbs (QueryText query) (world_of c)) with
  | Raise e =>
      execute_query_thread dbs query c
      = mkApp (query_running c) (Some d)
              (queue c
               ++ [MsgError ("Query execution failed: " ++ exn_text e);
                   MsgDone "Query execution failed"])
              (db_server c) (connections c) (history_manager c)
              (main_ui c) (viewer c) (calls c)
  | Ok r =>
      execute_query_thread dbs query c
      = mkApp (query_running c)
              (Some (dict_update d (result_dict r)))
              (queue c
               ++ map FromExecutor
                    (message_queue
                       (fst (execute_query dbs (QueryText query)
                                           (world_of c))))
               ++ [MsgDone "Query execution completed"; MsgEnableLogButton])
              (server (fst (execute_query dbs (QueryText query)
                                          (world_of c))))
              (connection_log
                 (fst (execute_query dbs (QueryText query) (world_of c))))
              (history_manager c) (main_ui c) (viewer c) (calls c)
      /\ exists summary,
           message_queue
             (fst (execute_query dbs (QueryText query) (world_of c)))
           = map StatusConnecting dbs
             ++ ExecutionSummary summary
             :: map ResultMessage
                  (flat_map results (rev (run_databases_info r)))
  end.
Proof.
  intros Hc. unfold Controller._execute_query_thread.
  destruct (execute_query_cases DB Time time_now time_sub fmt3 now_text
              connect execute dbs (QueryText query) (world_of c))
    as [(msg & E)|(w & r & summary & E & Hq)]; rewrite E;
    cbn [fst snd exn_text].
  - unfold failed, post.
    cbn [query_running current_query queue db_server connections
         history_manager main_ui viewer calls server message_queue
         connection_log map].
    rewrite Hc, app_nil_r, <- app_assoc. reflexivity.
  - cbn [current_query]. rewrite Hc. unfold post.
    cbn [query_running current_query queue db_server connections
         history_manager main_ui viewer calls].
    split; [rewrite <- !app_assoc; reflexivity|].
    exists summary. exact Hq.
Qed.

(** *** The queue handler *)

Lemma handle_current_query (c : app DB Time Stamp Disk) (m : app_message) :
  current_query (handle c m) = current_query c.
Proof.
  destruct m as [[db|summary|result]|text|text|text|]; try reflexivity.
  unfold Controller.handle, handle_error_message.
  destruct (query_running c); reflexivity.
Qed.

Lemma fold_handle_current_query (ms : list app_message) :
  forall c : app DB Time Stamp Disk,
    current_query (fold_left handle ms c) = current_query c.
Proof.
  induction ms as [|m ms IH]; intros c; cbn [fold_left]; [reflexivity|].
  rewrite IH. apply handle_current_query.
Qed.

(** The executor's messages change nothing but the text area. *)
Lemma fold_handle_executor (ms : list message) :
  forall c : app DB Time Stamp Disk,
    query_running (fold_left handle (map FromExecutor ms) c)
    = query_running c
    /\ main_ui (fold_left handle (map FromExecutor ms) c) = main_ui c
    /\ queue (fold_left handle (map FromExecutor ms) c) = queue c.
Proof.
  induction ms as [|m ms IH]; intros c; cbn [map fold_left];
    [repeat split|].
  destruct (IH (handle c (FromExecutor m))) as (H1 & H2 & H3).
  rewrite H1, H2, H3. destruct m; repeat split.
Qed.

Lemma fold_handle_results (bs : list block) :
  forall c : app DB Time Stamp Disk,
    viewer (fold_left handle (map FromExecutor (map ResultMessage bs)) c)
    = viewer c ++ map ResultText bs.
Proof.
  induction bs as [|b bs IH]; intros c; cbn [map fold_left].
  - symmetry. apply app_nil_r.
  - rewrite IH. cbn [Controller.handle set_viewer viewer].
    rewrite <- app_assoc. reflexivity.
Qed.

Lemma fold_handle_run_viewer (dbs : list string) (summary : string)
    (bs : list block) (c : app DB Time Stamp Disk) :
  viewer (fold_left handle
            (map FromExecutor
               (map StatusConnecting dbs
                ++ ExecutionSummary summary :: map ResultMessage bs)) c)
  = SummaryText summary :: map ResultText bs.
Proof.
  rewrite map_app, fold_left_app. cbn [map fold_left].
  rewrite fold_handle_results. reflexivity.
Qed.

(** *** A query from the button to the drained queue *)

(** X21. Once the thread has ended and the queue is drained, the application
    is no longer running a query and the run button and the editor are
    enabled again, whether the run returned or was rejected; the log
    button is enabled exactly when the run returned. *)
Theorem controls_released_after_any_run (dbs : list string) (query : str)
    (confirm : bool) (start_time now : Stamp) (c : app DB Time Stamp Disk) :
  snd (start_query_thread dbs query confirm start_time now c) = true ->
  queue c = [] ->
  query_running (run_to_completion dbs query confirm start_time now c)
  = false
  /\ queue (run_to_completion dbs query confirm start_time now c) = []
  /\ main_ui (run_to_completion dbs query confirm start_time now c)
     = mkWidgets true
         (match snd (execute_query dbs (QueryText query) (world_of c)) with
          | Ok _ => true
          | Raise _ => false
          end)
         true.
Proof.
  intros Hs Hq. unfold Controller.run_to_completion.
  destruct (start_accepted dbs query confirm start_time now c Hs)
    as (_ & cs & Hc1).
  destruct (start_query_thread dbs query confirm start_time now c)
    as [c1 started]. cbn [fst snd] in Hs, Hc1. subst started c1.
  match goal with
  | |- context [execute_query_thread dbs query ?x] => set (c1 := x)
  end.
  destruct (thread_cases dbs query c1
              (fresh_query dbs query start_time) eq_refl)
    as [(msg & E & ->)|(w & r & summary & E & ->)];
    change (world_of c1) with (world_of c) in E; rewrite E; cbn [snd];
    unfold Controller.check_queue;
    cbn [query_running current_query queue db_server connections
         history_manager main_ui viewer calls c1]; rewrite Hq;
    cbn [Datatypes.app].
  - cbn. repeat split.
  - rewrite fold_left_app.
    match goal with
    | |- context [fold_left handle (map FromExecutor ?ms) ?c0] =>
        destruct (fold_handle_executor ms c0) as (H1 & H2 & H3);
        destruct (fold_left handle (map FromExecutor ms) c0) as
          [running current q srv conns hist ui vw cl]
    end.
    cbn [query_running main_ui queue] in H1, H2, H3. subst running ui q.
    cbn. repeat split.
Qed.

(** X22. After a run, whatever it returned, [save_query_log] finds no results
    to save: the entry [results] of the stored query is created empty and
    nothing writes to it, so the log is never handed to the file
    manager. *)
Theorem save_log_finds_no_results (dbs : list string) (query : str)
    (confirm : bool) (start_time now : Stamp) (c : app DB Time Stamp Disk) :
  snd (start_query_thread dbs query confirm start_time now c) = true ->
  save_query_log (run_to_completion dbs query confirm start_time now c)
  = Ok (call (ShowWarning "No Results" "No query results to save")
             (run_to_completion dbs query confirm start_time now c)).
Proof.
  intros Hs.
  assert (H : exists d,
             current_query
               (run_to_completion dbs query confirm start_time now c)
             = Some d
             /\ dict_get "results" d = Some (VList [])).
  { unfold Controller.run_to_completion.
    destruct (start_accepted dbs query confirm start_time now c Hs)
      as (_ & cs & Hc1).
    destruct (start_query_thread dbs query confirm start_time now c)
      as [c1 started]. cbn [fst snd] in Hs, Hc1. subst started c1.
    unfold Controller.check_queue. rewrite fold_handle_current_query.
    cbn [current_query].
    match goal with
    | |- context [execute_query_thread dbs query ?x] => set (c1 := x)
    end.
    destruct (thread_cases dbs query c1
                (fresh_query dbs query start_time) eq_refl)
      as [(msg & _ & ->)|(w & r & summary & _ & ->)]; cbn [current_query].
    - eexists. split; reflexivity.
    - eexists. split; [reflexivity|]. rewrite results_untouched.
      reflexivity. }
  destruct H as (d & Hd & Hr). unfold Controller.save_query_log.
  rewrite Hd, Hr. reflexivity.
Qed.

(** X23. After a run that returned, the text area shows the summary and then
    the blocks of the targets, last target first: the status lines are
    wiped when the summary arrives.  After a run that was rejected it
    shows the line of the start and the error. *)
Theorem text_area_after_a_run (dbs : list string) (query : str)
    (confirm : bool) (start_time now : Stamp) (c : app DB Time Stamp Disk) :
  snd (start_query_thread dbs query confirm start_time now c) = true ->
  queue c = [] ->
  match snd (execute_query dbs (QueryText query) (world_of c)) with
  | Ok r =>
      exists summary,
        viewer (run_to_completion dbs query confirm start_time now c)
        = SummaryText summary
          :: map ResultText (flat_map results (rev (run_databases_info r)))
  | Raise e =>
      viewer (run_to_completion dbs query confirm start_time now c)
      = [StatusLine "Executing query...";
         ErrorLine ("Query execution failed: " ++ exn_text e)]
  end.
Proof.
  intros Hs Hq. unfold Controller.run_to_completion.
  destruct (start_accepted dbs query confirm start_time now c Hs)
    as (_ & cs & Hc1).
  destruct (start_query_thread dbs query confirm start_time now c)
    as [c1 started]. cbn [fst snd] in Hs, Hc1. subst started c1.
  match goal with
  | |- context [execute_query_thread dbs query ?x] => set (c1 := x)
  end.
  destruct (thread_cases dbs query c1
              (fresh_query dbs query start_time) eq_refl)
    as [(msg & E & ->)|(w & r & summary & E & ->)];
    change (world_of c1) with (world_of c) in E; rewrite E; cbn [snd];
    unfold Controller.check_queue;
    cbn [query_running current_query queue db_server connections
         history_manager main_ui viewer calls c1]; rewrite Hq;
    cbn [Datatypes.app].
  - reflexivity.
  - exists summary. rewrite fold_left_app.
    cbn [fold_left Controller.handle set_running viewer].
    apply fold_handle_run_viewer.
Qed.

End App.

Lemma thread_always_posts_done_witness :
  demo_thread ["A"] (s2l ";")
    (fst (demo_start ["A"] (s2l ";") false 1 2 demo_app))
  = mkApp true
      (Some [("query", VText (s2l ";")); ("databases", VNames ["A"]);
             ("start_time", VStamp 1); ("results", VList [])])
      [MsgError "Query execution failed: No valid SQL statements found";
       MsgDone "Query execution failed"]
      0 [] (mkManager [(2, s2l ";")] tt) (mkWidgets false false false)
      [StatusLine "Executing query..."] [].
Proof.
  apply (thread_always_posts_done nat nat (fun s => s) Nat.sub demo_fmt3
           demo_now_text demo_connect demo_execute nat unit
           ["A"] (s2l ";")
           (fst (demo_start ["A"] (s2l ";") false 1 2 demo_app))
           [("query", VText (s2l ";")); ("databases", VNames ["A"]);
            ("start_time", VStamp 1); ("results", VList [])]).
  reflexivity.
Defined.

Lemma controls_released_after_any_run_witness :
  query_running
    (demo_run_to_completion ["A"; "B"] (s2l "SELECT 1") false 1 2 demo_app)
  = false
  /\ queue
       (demo_run_to_completion ["A"; "B"] (s2l "SELECT 1") false 1 2 demo_app)
     = []
  /\ main_ui
       (demo_run_to_completion ["A"; "B"] (s2l "SELECT 1") false 1 2 demo_app)
     = mkWidgets true true true.
Proof.
  apply (controls_released_after_any_run nat nat (fun s => s) Nat.sub
           demo_fmt3 demo_now_text demo_connect demo_execute nat unit
           demo_dump demo_dangerous
           ["A"; "B"] (s2l "SELECT 1") false 1 2 demo_app);
    reflexivity.
Defined.

Lemma save_log_finds_no_results_witness :
  demo_save_query_log
    (demo_run_to_completion ["A"; "B"] (s2l "SELECT 1") false 1 2 demo_app)
  = Ok (call (ShowWarning "No Results" "No query results to save")
          (demo_run_to_completion ["A"; "B"] (s2l "SELECT 1") false 1 2
             demo_app)).
Proof.
  apply (save_log_finds_no_results nat nat (fun s => s) Nat.sub demo_fmt3
           demo_now_text demo_connect demo_execute nat unit demo_dump
           demo_dangerous demo_nonzero demo_file_save
           ["A"; "B"] (s2l "SELECT 1") false 1 2 demo_app).
  reflexivity.
Defined.

Lemma text_area_after_a_run_witness :
  viewer (demo_run_to_completion ["A"] (s2l ";") false 1 2 demo_app)
  = [StatusLine "Executing query...";
     ErrorLine "Query execution failed: No valid SQL statements found"].
Proof.
  apply (text_area_after_a_run nat nat (fun s => s) Nat.sub demo_fmt3
           demo_now_text demo_connect demo_execute nat unit demo_dump
           demo_dangerous ["A"] (s2l ";") false 1 2 demo_app);
    reflexivity.
Defined.

End ControllerFacts.

(** ** Connections *)

Module ConnectionFacts.

Import Executor ExecAux Connection.
Import ExecutorFacts ExecutorMore.
Local Open Scope string_scope.
Local Open Scope list_scope.

Section Manager.

Variable DB : Type.
Variable Config : Type.
Variable pyodbc_connect : Config -> string -> DB -> DB * option raised.
Variable cursor_execute : string -> DB -> DB * option raised.
Variable cursor_fetchone : DB -> DB * option raised.
Variable conn_close : DB -> DB * option raised.

Local Abbreviation test_connection :=
  (test_connection DB Config pyodbc_connect cursor_execute cursor_fetchone
                   conn_close).


End Manager.

End ConnectionFacts.
